(** * Large-file CSV cleansing: validator, framer, batcher, scheduler and sink

    A shallow embedding of [lambda-large-file-cleansing/src/app.py],
    [app_multithread.py] and the validation predicate of [app_duckdb.py],
    together with the parts of the CPython 3.11 runtime they call
    ([csv.reader], [str.strip], [int], [re.match], [datetime.strptime],
    the UTF-8 codec).

    Conventions.
    - A Python [str] is a list of Unicode code points ([N]); a [bytes]
      object is a list of [Byte.byte].
    - A Python exception is a value of [exn]; code that may raise
      returns [result].
    - A [BytesIO] stream is modelled by its write log, the list of the
      chunks passed to [write] in order; its contents are [getvalue].
    - The worker pool is a step relation: the future that
      [as_completed] yields first is any future that is in flight. *)

From Stdlib Require Import ZArith NArith Lia Ascii String.
From Stdlib.Strings Require Import Byte.
From stdpp Require Import base tactics option list relations strings gmap.

Local Open Scope N_scope.

(* ===================================================================== *)
(** * Part I. Definitions *)
(* ===================================================================== *)

(** ** Python values *)

Module Py.

(** A [str] is a sequence of code points. *)
Abbreviation str := (list N).
(** A [bytes] object. *)
Abbreviation bytes := (list byte).

(** The code point of an ASCII character, as [ord] gives it. *)
Definition ord (a : ascii) : N := N_of_ascii a.

(** The [str] written by an ASCII literal. *)
Definition lit (s : string) : str := map ord (list_ascii_of_string s).

(** Exceptions that the modelled code can raise.  All of them derive
    from [Exception]. *)
Inductive exn : Type :=
  | CsvError (msg : string)          (* _csv.Error *)
  | ValueError (msg : string)
  | StopIteration
  | UnicodeDecodeError
  | UnicodeEncodeError.

(** [str(e)] for an exception [e]. *)
Definition str_exn (e : exn) : string :=
  match e with
  | CsvError msg => msg
  | ValueError msg => msg
  | StopIteration => ""
  | UnicodeDecodeError => "'utf-8' codec can't decode bytes"
  | UnicodeEncodeError => "'utf-8' codec can't encode character"
  end.

(** The [bytes] written by an ASCII literal. *)
Definition blit (s : string) : bytes := list_byte_of_string s.

(** [isinstance(e, Exception)]: true of every exception above. *)
Definition is_Exception (e : exn) : bool :=
  match e with
  | CsvError _ | ValueError _ | StopIteration
  | UnicodeDecodeError | UnicodeEncodeError => true
  end.

Inductive result (A : Type) : Type :=
  | Ok (a : A)
  | Raise (e : exn).
Arguments Ok {A} a.
Arguments Raise {A} e.

#[global] Instance result_ret : MRet result := fun A a => Ok a.
#[global] Instance result_bind : MBind result := fun A B k m =>
  match m with
  | Ok a => k a
  | Raise e => Raise e
  end.

(** ** The Unicode database (version 14.0.0, as CPython 3.11 ships it) *)

(** [Py_UNICODE_ISSPACE]: what [str.isspace] and [str.strip] use. *)
Definition Py_UNICODE_ISSPACE (c : N) : bool :=
  ((9 <=? c) && (c <=? 13)) || ((28 <=? c) && (c <=? 32))
  || (c =? 133) || (c =? 160) || (c =? 5760)
  || ((8192 <=? c) && (c <=? 8202))
  || (c =? 8232) || (c =? 8233) || (c =? 8239) || (c =? 8287)
  || (c =? 12288).

(** The code points of the digit zero of every decimal-digit block
    (category Nd); the ten digits of a block are consecutive. *)
Definition decimal_zeros : list N :=
  [ 0x30; 0x660; 0x6f0; 0x7c0; 0x966; 0x9e6; 0xa66; 0xae6; 0xb66; 0xbe6;
    0xc66; 0xce6; 0xd66; 0xde6; 0xe50; 0xed0; 0xf20; 0x1040; 0x1090;
    0x17e0; 0x1810; 0x1946; 0x19d0; 0x1a80; 0x1a90; 0x1b50; 0x1bb0;
    0x1c40; 0x1c50; 0xa620; 0xa8d0; 0xa900; 0xa9d0; 0xa9f0; 0xaa50;
    0xabf0; 0xff10; 0x104a0; 0x10d30; 0x11066; 0x110f0; 0x11136;
    0x111d0; 0x112f0; 0x11450; 0x114d0; 0x11650; 0x116c0; 0x11730;
    0x118e0; 0x11950; 0x11c50; 0x11d50; 0x11da0; 0x16a60; 0x16ac0;
    0x16b50; 0x1d7ce; 0x1d7d8; 0x1d7e2; 0x1d7ec; 0x1d7f6; 0x1e140;
    0x1e2f0; 0x1e950; 0x1fbf0 ].

Fixpoint decimal_in (zeros : list N) (c : N) : option N :=
  match zeros with
  | [] => None
  | z :: zs => if (z <=? c) && (c <=? z + 9) then Some (c - z)
               else decimal_in zs c
  end.

(** [Py_UNICODE_TODECIMAL]: the value of a decimal digit, [None] for
    any other code point ([-1] in C). *)
Definition Py_UNICODE_TODECIMAL (c : N) : option N := decimal_in decimal_zeros c.

(** [Py_UNICODE_ISDECIMAL]: what [\d] matches in a [str] pattern. *)
Definition Py_UNICODE_ISDECIMAL (c : N) : bool :=
  match Py_UNICODE_TODECIMAL c with Some _ => true | None => false end.

(** [Py_ISSPACE] of pyctype.h: the ASCII white space of C. *)
Definition Py_ISSPACE (c : N) : bool :=
  ((9 <=? c) && (c <=? 13)) || (c =? 32).

(** An ASCII digit, [_PyLong_DigitValue[c] < 10]. *)
Definition ascii_digit (c : N) : bool := (48 <=? c) && (c <=? 57).

(** ** [str] methods *)

(** [len(s)] *)
Definition len (s : str) : N := N.of_nat (length s).

Fixpoint lstrip (s : str) : str :=
  match s with
  | c :: s' => if Py_UNICODE_ISSPACE c then lstrip s' else s
  | [] => []
  end.

Definition rstrip (s : str) : str := rev (lstrip (rev s)).

(** [s.strip()] *)
Definition strip (s : str) : str := rstrip (lstrip s).

(** ** [csv.reader] with the default (excel) dialect

    delimiter comma, quotechar the double quote, no escapechar, doublequote,
    no skipinitialspace, not strict, QUOTE_MINIMAL.  The states that
    only an escapechar reaches are left out. *)

Inductive ParserState : Type :=
  | START_RECORD | START_FIELD | IN_FIELD | IN_QUOTED_FIELD
  | QUOTE_IN_QUOTED_FIELD | EAT_CRNL.

#[global] Instance ParserState_eq_dec : EqDecision ParserState.
Proof. solve_decision. Defined.

(** What [parse_process_char] is fed: a character of the line, or the
    end-of-line marker sent after the last one. *)
Inductive cin : Type :=
  | Ch (c : N)
  | EOL.

Record ReaderObj : Type := mkReader {
  state : ParserState;
  fields : list str;     (* the fields saved so far *)
  field : str            (* the field being read, [field_len] long *)
}.

Definition field_limit : N := 131072.

Definition delimiter : N := ord ",".
Definition quotechar : N := 34.
Definition LF : N := 10.
Definition CR : N := 13.

Definition parse_reset : ReaderObj :=
  {| state := START_RECORD; fields := []; field := [] |}.

Definition parse_save_field (r : ReaderObj) : ReaderObj :=
  {| state := state r; fields := fields r ++ [field r]; field := [] |}.

Definition field_limit_msg : string := "field larger than field limit (131072)".
Definition newline_msg : string :=
  "new-line character seen in unquoted field - do you need to open the file in universal-newline mode?".

Definition parse_add_char (r : ReaderObj) (c : N) : result ReaderObj :=
  if field_limit <=? len (field r) then Raise (CsvError field_limit_msg)
  else Ok {| state := state r; fields := fields r; field := field r ++ [c] |}.

Definition set_state (st : ParserState) (r : ReaderObj) : ReaderObj :=
  {| state := st; fields := fields r; field := field r |}.

Definition is_newline (c : cin) : bool :=
  match c with
  | Ch c => (c =? LF) || (c =? CR)
  | EOL => false
  end.

(** The case [START_FIELD] of [parse_process_char]; [START_RECORD]
    falls through to it. *)
Definition process_start_field (r : ReaderObj) (c : cin) : result ReaderObj :=
  match c with
  | EOL => Ok (set_state START_RECORD (parse_save_field r))
  | Ch ch =>
      if is_newline c then Ok (set_state EAT_CRNL (parse_save_field r))
      else if ch =? quotechar then Ok (set_state IN_QUOTED_FIELD r)
      else if ch =? delimiter then Ok (parse_save_field r)
      else r' ← parse_add_char r ch; Ok (set_state IN_FIELD r')
  end.

Definition parse_process_char (r : ReaderObj) (c : cin) : result ReaderObj :=
  match state r with
  | START_RECORD =>
      match c with
      | EOL => Ok r
      | Ch _ =>
          if is_newline c then Ok (set_state EAT_CRNL r)
          else process_start_field (set_state START_FIELD r) c
      end
  | START_FIELD => process_start_field r c
  | IN_FIELD =>
      match c with
      | EOL => Ok (set_state START_RECORD (parse_save_field r))
      | Ch ch =>
          if is_newline c then Ok (set_state EAT_CRNL (parse_save_field r))
          else if ch =? delimiter then Ok (set_state START_FIELD (parse_save_field r))
          else parse_add_char r ch
      end
  | IN_QUOTED_FIELD =>
      match c with
      | EOL => Ok r
      | Ch ch =>
          if ch =? quotechar then Ok (set_state QUOTE_IN_QUOTED_FIELD r)
          else parse_add_char r ch
      end
  | QUOTE_IN_QUOTED_FIELD =>
      match c with
      | EOL => Ok (set_state START_RECORD (parse_save_field r))
      | Ch ch =>
          if ch =? quotechar then
            r' ← parse_add_char r ch; Ok (set_state IN_QUOTED_FIELD r')
          else if ch =? delimiter then Ok (set_state START_FIELD (parse_save_field r))
          else if is_newline c then Ok (set_state EAT_CRNL (parse_save_field r))
          else r' ← parse_add_char r ch; Ok (set_state IN_FIELD r')
      end
  | EAT_CRNL =>
      match c with
      | EOL => Ok (set_state START_RECORD r)
      | Ch _ => if is_newline c then Ok r else Raise (CsvError newline_msg)
      end
  end.

(** The loop over the characters of one line. *)
Fixpoint process_chars (r : ReaderObj) (s : str) : result ReaderObj :=
  match s with
  | [] => Ok r
  | c :: s' => r' ← parse_process_char r (Ch c); process_chars r' s'
  end.

(** [next(csv.reader([line]))]: [Reader_iternext] on an iterator that
    yields [line] and is then exhausted. *)
Definition csv_reader_next (line : str) : result (list str) :=
  r ← process_chars parse_reset line;
  r ← parse_process_char r EOL;
  if decide (state r = START_RECORD) then Ok (fields r)
  else
    (* the input iterator is exhausted *)
    if negb (len (field r) =? 0) || bool_decide (state r = IN_QUOTED_FIELD)
    then Ok (fields (parse_save_field r))
    else Raise StopIteration.


(** ** [int(s)] for a [str] argument, base 10 *)

(** The loop of [_PyUnicode_TransformDecimalAndSpaceToASCII]: white
    space becomes a space, a decimal digit its ASCII digit, and the
    buffer is cut after a question mark at the first other character. *)
Fixpoint transform_loop (s : str) : str :=
  match s with
  | [] => []
  | ch :: s' =>
      if ch <? 127 then ch :: transform_loop s'
      else if Py_UNICODE_ISSPACE ch then 32 :: transform_loop s'
      else match Py_UNICODE_TODECIMAL ch with
           | Some d => (48 + d) :: transform_loop s'
           | None => [ord "?"]
           end
  end.

Definition TransformDecimalAndSpaceToASCII (s : str) : str :=
  if forallb (fun c => c <? 128) s then s else transform_loop s.

Fixpoint skip_space (s : str) : str :=
  match s with
  | c :: s' => if Py_ISSPACE c then skip_space s' else s
  | [] => []
  end.

Definition underscore : N := ord "_".

(** The scan over digits and underscores of [PyLong_FromString]:
    [prev] is the character before, [digits] the digits seen, [acc]
    their value.  [None] when two underscores follow each other. *)
Fixpoint scan_digits (s : str) (prev : N) (digits : N) (acc : Z)
  : option (N * N * Z * str) :=
  match s with
  | c :: s' =>
      if c =? underscore then
        if prev =? underscore then None else scan_digits s' c digits acc
      else if ascii_digit c then
        scan_digits s' c (digits + 1) (acc * 10 + Z.of_N (c - 48))%Z
      else Some (prev, digits, acc, s)
  | [] => Some (prev, digits, acc, [])
  end.

Definition PY_LONG_MAX_STR_DIGITS_THRESHOLD : N := 640.
(** [sys.get_int_max_str_digits()], the default. *)
Definition int_max_str_digits : N := 4300.

Definition invalid_literal : exn :=
  ValueError "invalid literal for int() with base 10".
Definition exceeds_limit : exn :=
  ValueError "Exceeds the limit (4300 digits) for integer string conversion".

(** [PyLong_FromString(buffer, &end, 10)] followed by the test
    [end == buffer + buflen] of [PyLong_FromUnicodeObject]: the number
    must be followed by white space only, up to the end of the buffer. *)
Definition PyLong_FromString (buffer : str) : result Z :=
  let s := skip_space buffer in
  let '(sign, s) :=
    match s with
    | c :: s' => if c =? ord "+" then (1%Z, s')
                 else if c =? ord "-" then ((-1)%Z, s')
                 else (1%Z, s)
    | [] => (1%Z, s)
    end in
  match s with
  | c :: _ => if c =? underscore then Raise invalid_literal else
      match scan_digits s 0 0 0%Z with
      | None => Raise invalid_literal
      | Some (prev, digits, acc, rest) =>
          if prev =? underscore then Raise invalid_literal
          else if (PY_LONG_MAX_STR_DIGITS_THRESHOLD <? digits)
                  && (0 <? int_max_str_digits)
                  && (int_max_str_digits <? digits)
          then Raise exceeds_limit
          else if (length rest =? length s)%nat then Raise invalid_literal
          else match skip_space rest with
               | [] => Ok (sign * acc)%Z
               | _ :: _ => Raise invalid_literal
               end
      end
  | [] => Raise invalid_literal
  end.

(** [int(s)] *)
Definition int (s : str) : result Z :=
  PyLong_FromString (TransformDecimalAndSpaceToASCII s).

(** ** Regular expressions: the fragment of [re] the code uses

    A backtracking matcher with ordered alternatives, as [re.match]
    runs it.  A continuation receives the rest of the subject and the
    named groups matched so far. *)

Inductive regex : Type :=
  | Chr (c : N)                    (* a literal character *)
  | Digit                          (* \d *)
  | Range (lo hi : N)              (* [lo-hi] *)
  | Seq (r1 r2 : regex)
  | Alt (r1 r2 : regex)            (* r1|r2 *)
  | Group (name : ascii) (r : regex)   (* (?P<name>r) *)
  | Dollar.                        (* $ *)

Declare Scope regex_scope.
Delimit Scope regex_scope with re.
Bind Scope regex_scope with regex.
Infix "·" := Seq (at level 40, left associativity) : regex_scope.
Infix "∣" := Alt (at level 50, left associativity) : regex_scope.

Definition groups : Type := list (ascii * str).

Fixpoint backtrack {A} (r : regex) (s : str) (g : groups)
    (k : str -> groups -> option A) : option A :=
  match r with
  | Chr c =>
      match s with
      | x :: s' => if x =? c then k s' g else None
      | [] => None
      end
  | Digit =>
      match s with
      | x :: s' => if Py_UNICODE_ISDECIMAL x then k s' g else None
      | [] => None
      end
  | Range lo hi =>
      match s with
      | x :: s' => if (lo <=? x) && (x <=? hi) then k s' g else None
      | [] => None
      end
  | Seq r1 r2 => backtrack r1 s g (fun s' g' => backtrack r2 s' g' k)
  | Alt r1 r2 =>
      match backtrack r1 s g k with
      | Some a => Some a
      | None => backtrack r2 s g k
      end
  | Group name r =>
      backtrack r s g
        (fun s' g' => k s' ((name, take (length s - length s') s) :: g'))
  | Dollar =>
      match s with
      | [] => k s g
      | [c] => if c =? LF then k s g else None
      | _ => None
      end
  end.

(** [re.match(r, s)]: the groups and the rest of the subject after the
    match ([s[m.end():]]), or [None]. *)
Definition re_match (r : regex) (s : str) : option (groups * str) :=
  backtrack r s [] (fun s' g => Some (g, s')).

(** The truth value of what [re.match] returns. *)
Definition is_match {A} (m : option A) : bool :=
  match m with Some _ => true | None => false end.

Fixpoint group (name : ascii) (g : groups) : str :=
  match g with
  | [] => []
  | (n, v) :: g' => if Ascii.eqb n name then v else group name g'
  end.

Definition slash : regex := Chr (ord "/").

(** The pattern [^\d{4}/\d{2}/\d{2}$] of [validate_csv_row]; [re.match]
    anchors at the start. *)
Definition date_pattern : regex :=
  (Digit · Digit · Digit · Digit · slash · Digit · Digit · slash
   · Digit · Digit · Dollar)%re.

(** ** [datetime.strptime(s, '%Y/%m/%d')] *)

Definition rng (lo hi : ascii) : regex := Range (ord lo) (ord hi).
Definition chr (a : ascii) : regex := Chr (ord a).

(** The regular expression [_strptime] builds for the format:
    [(?P<Y>\d\d\d\d)/(?P<m>1[0-2]|0[1-9]|[1-9])/(?P<d>3[0-1]|[1-2]\d|0[1-9]|[1-9]| [1-9])].
    It is compiled with IGNORECASE, which changes nothing for digits,
    the slash and the space. *)
Definition format_regex : regex :=
  (Group "Y" (Digit · Digit · Digit · Digit) · slash
   · Group "m" (chr "1" · rng "0" "2" ∣ chr "0" · rng "1" "9" ∣ rng "1" "9") · slash
   · Group "d" (chr "3" · rng "0" "1" ∣ rng "1" "2" · Digit ∣ chr "0" · rng "1" "9"
                ∣ rng "1" "9" ∣ chr " " · rng "1" "9"))%re.

(** [datetime._is_leap] *)
Definition is_leap (year : Z) : bool :=
  ((year mod 4 =? 0) && (negb (year mod 100 =? 0) || (year mod 400 =? 0)))%Z.

(** [datetime._DAYS_IN_MONTH] and [datetime._days_in_month] *)
Definition DAYS_IN_MONTH (month : Z) : Z :=
  (if month =? 2 then 28
   else if (month =? 4) || (month =? 6) || (month =? 9) || (month =? 11) then 30
   else 31)%Z.

Definition days_in_month (year month : Z) : Z :=
  if ((month =? 2)%Z && is_leap year) then 29%Z else DAYS_IN_MONTH month.

Definition MINYEAR : Z := 1.
Definition MAXYEAR : Z := 9999.

(** [datetime.date(year, month, day)]: [_check_date_fields]. *)
Definition check_date_fields (year month day : Z) : result (Z * Z * Z) :=
  (if negb ((MINYEAR <=? year) && (year <=? MAXYEAR)) then
     Raise (ValueError "year is out of range")
   else if negb ((1 <=? month) && (month <=? 12)) then
     Raise (ValueError "month must be in 1..12")
   else if negb ((1 <=? day) && (day <=? days_in_month year month)) then
     Raise (ValueError "day is out of range for month")
   else Ok (year, month, day))%Z.

Definition strptime (data_string : str) : result (Z * Z * Z) :=
  match re_match format_regex data_string with
  | None => Raise (ValueError "time data does not match format")
  | Some (found, rest) =>
      if negb (length rest =? 0)%nat then
        Raise (ValueError "unconverted data remains")
      else
        year ← int (group "Y" found);
        month ← int (group "m" found);
        day ← int (group "d" found);
        check_date_fields year month day
  end.

(** ** The UTF-8 codec, strict *)

Definition continuation (b : N) : bool := (0x80 <=? b) && (b <=? 0xBF).

Fixpoint utf8_decode (bs : list N) : option str :=
  match bs with
  | [] => Some []
  | b1 :: r1 =>
      if b1 <? 0x80 then cons b1 <$> utf8_decode r1
      else if (0xC2 <=? b1) && (b1 <=? 0xDF) then
        match r1 with
        | b2 :: r2 =>
            if continuation b2
            then cons ((b1 - 0xC0) * 64 + (b2 - 0x80)) <$> utf8_decode r2
            else None
        | _ => None
        end
      else if (0xE0 <=? b1) && (b1 <=? 0xEF) then
        match r1 with
        | b2 :: b3 :: r3 =>
            if ((if b1 =? 0xE0 then 0xA0 else 0x80) <=? b2)
               && (b2 <=? (if b1 =? 0xED then 0x9F else 0xBF))
               && continuation b3
            then cons ((b1 - 0xE0) * 4096 + (b2 - 0x80) * 64 + (b3 - 0x80))
                   <$> utf8_decode r3
            else None
        | _ => None
        end
      else if (0xF0 <=? b1) && (b1 <=? 0xF4) then
        match r1 with
        | b2 :: b3 :: b4 :: r4 =>
            if ((if b1 =? 0xF0 then 0x90 else 0x80) <=? b2)
               && (b2 <=? (if b1 =? 0xF4 then 0x8F else 0xBF))
               && continuation b3 && continuation b4
            then cons ((b1 - 0xF0) * 262144 + (b2 - 0x80) * 4096
                       + (b3 - 0x80) * 64 + (b4 - 0x80))
                   <$> utf8_decode r4
            else None
        | _ => None
        end
      else None
  end.

(** [b.decode('utf-8')] *)
Definition decode (b : bytes) : result str :=
  match utf8_decode (map Byte.to_N b) with
  | Some s => Ok s
  | None => Raise UnicodeDecodeError
  end.

Definition byte_of_N (n : N) : byte :=
  match Byte.of_N n with Some b => b | None => x00 end.

(** The bytes of one code point; [None] for a surrogate or a value
    past U+10FFFF, which no [str] decoded from UTF-8 holds. *)
Definition utf8_encode_char (c : N) : option (list N) :=
  if c <? 0x80 then Some [c]
  else if c <? 0x800 then Some [0xC0 + c / 64; 0x80 + c mod 64]
  else if c <? 0x10000 then
    if (0xD800 <=? c) && (c <=? 0xDFFF) then None
    else Some [0xE0 + c / 4096; 0x80 + (c / 64) mod 64; 0x80 + c mod 64]
  else if c <? 0x110000 then
    Some [0xF0 + c / 262144; 0x80 + (c / 4096) mod 64;
          0x80 + (c / 64) mod 64; 0x80 + c mod 64]
  else None.

Fixpoint utf8_encode (s : str) : option (list N) :=
  match s with
  | [] => Some []
  | c :: s' =>
      match utf8_encode_char c, utf8_encode s' with
      | Some bs, Some bs' => Some (bs ++ bs')
      | _, _ => None
      end
  end.

(** [s.encode('utf-8')] *)
Definition encode (s : str) : result bytes :=
  match utf8_encode s with
  | Some bs => Ok (map byte_of_N bs)
  | None => Raise UnicodeEncodeError
  end.

End Py.

Import Py.

(** ** [app.py]: the single-threaded handler *)

Module App.

(** The dict that [validate_csv_row] returns: [{'valid': True}] or
    [{'valid': False, 'error': msg}]. *)
Record Verdict : Type := mkVerdict {
  valid : bool;
  error : option string
}.

Definition accepted : Verdict := {| valid := true; error := None |}.
Definition rejected (msg : string) : Verdict :=
  {| valid := false; error := Some msg |}.

(** The body of the outer [try] of [validate_csv_row]. *)
Definition validate_body (line : str) : result Verdict :=
  row ← csv_reader_next line;
  if negb (length row =? 3)%nat then Ok (rejected "Invalid column count")
  else
    match row with
    | [no; name; created_date] =>
        if bool_decide (no = []) || bool_decide (strip no = []) then
          Ok (rejected "no is null")
        else
          match int no with
          | Raise (ValueError _) => Ok (rejected "no is not int")
          | Raise e => Raise e
          | Ok _ =>
              if 20 <? len name then Ok (rejected "name exceeds 20 characters")
              else if negb (is_match (re_match date_pattern created_date)) then
                Ok (rejected "created_date is not YYYY/MM/DD format")
              else
                match strptime created_date with
                | Raise (ValueError _) => Ok (rejected "created_date is invalid date")
                | Raise e => Raise e
                | Ok _ => Ok accepted
                end
          end
    | _ => Raise (ValueError "not enough values to unpack")
    end.

(** [validate_csv_row(line)]: the body under [except Exception as e]. *)
Definition validate_csv_row (line : str) : result Verdict :=
  match validate_body line with
  | Ok v => Ok v
  | Raise e => if is_Exception e then Ok (rejected (str_exn e)) else Raise e
  end.

(** The local variables of [lambda_handler] that the loop updates.
    A stream is the list of the chunks written to it. *)
Record State : Type := mkState {
  valid_stream : list bytes;
  error_stream : list bytes;
  line_count : N;
  valid_count : N;
  error_count : N;
  is_header : bool
}.

Definition init : State :=
  {| valid_stream := []; error_stream := [];
     line_count := 0; valid_count := 0; error_count := 0;
     is_header := true |}.

(** One turn of [for line in body.iter_lines()]. *)
Definition loop_body (st : State) (line : bytes) : result State :=
  if negb (length line =? 0)%nat then
    let line_count := line_count st + 1 in
    decoded_line ← decode line;
    if is_header st then
      chunk ← encode (decoded_line ++ [LF]);
      Ok {| valid_stream := valid_stream st ++ [chunk];
            error_stream := error_stream st ++ [chunk];
            line_count := line_count;
            valid_count := valid_count st; error_count := error_count st;
            is_header := false |}
    else
      validation_result ← validate_csv_row decoded_line;
      if valid validation_result then
        chunk ← encode (decoded_line ++ [LF]);
        Ok {| valid_stream := valid_stream st ++ [chunk];
              error_stream := error_stream st;
              line_count := line_count;
              valid_count := valid_count st + 1; error_count := error_count st;
              is_header := is_header st |}
      else
        chunk ← encode (decoded_line ++ [LF]);
        Ok {| valid_stream := valid_stream st;
              error_stream := error_stream st ++ [chunk];
              line_count := line_count;
              valid_count := valid_count st; error_count := error_count st + 1;
              is_header := is_header st |}
  else Ok st.

Fixpoint loop (st : State) (lines : list bytes) : result State :=
  match lines with
  | [] => Ok st
  | line :: lines' => st' ← loop_body st line; loop st' lines'
  end.

(** What a run hands over: the two objects uploaded and the counters
    of the response body. *)
Record Response : Type := mkResponse {
  valid_output : bytes;
  error_output : bytes;
  total_lines : N;
  valid_lines : N;
  error_lines : N
}.

(** [lambda_handler], from the lines that [body.iter_lines()] yields
    to the uploads and the response. *)
Definition lambda_handler (iter_lines : list bytes) : result Response :=
  st ← loop init iter_lines;
  Ok {| valid_output := concat (valid_stream st);
        error_output := concat (error_stream st);
        total_lines := line_count st;
        valid_lines := valid_count st;
        error_lines := error_count st |}.

End App.

(** ** [app_multithread.py]: batches validated by a worker pool *)

Module Multithread.

Definition MAX_WORKERS : nat := 4.
Definition BATCH_SIZE : nat := 1000.

Record Verdict : Type := mkVerdict {
  valid : bool;
  error : option string;
  line : str
}.

Definition accepted (line : str) : Verdict :=
  {| valid := true; error := None; line := line |}.
Definition rejected (msg : string) (line : str) : Verdict :=
  {| valid := false; error := Some msg; line := line |}.

Definition validate_body (line : str) : result Verdict :=
  row ← csv_reader_next line;
  if negb (length row =? 3)%nat then Ok (rejected "Invalid column count" line)
  else
    match row with
    | [no; name; created_date] =>
        if bool_decide (no = []) || bool_decide (strip no = []) then
          Ok (rejected "no is null" line)
        else
          match int no with
          | Raise (ValueError _) => Ok (rejected "no is not int" line)
          | Raise e => Raise e
          | Ok _ =>
              if 20 <? len name then
                Ok (rejected "name exceeds 20 characters" line)
              else if negb (is_match (re_match date_pattern created_date)) then
                Ok (rejected "created_date is not YYYY/MM/DD format" line)
              else
                match strptime created_date with
                | Raise (ValueError _) =>
                    Ok (rejected "created_date is invalid date" line)
                | Raise e => Raise e
                | Ok _ => Ok (accepted line)
                end
          end
    | _ => Raise (ValueError "not enough values to unpack")
    end.

Definition validate_csv_row (line : str) : result Verdict :=
  match validate_body line with
  | Ok v => Ok v
  | Raise e => if is_Exception e then Ok (rejected (str_exn e) line) else Raise e
  end.

(** The loop of [process_batch], with its two accumulators. *)
Fixpoint process_batch_loop (lines : list str) (valid_lines error_lines : list str)
  : result (list str * list str) :=
  match lines with
  | [] => Ok (valid_lines, error_lines)
  | l :: lines' =>
      result ← validate_csv_row l;
      if valid result
      then process_batch_loop lines' (valid_lines ++ [line result]) error_lines
      else process_batch_loop lines' valid_lines (error_lines ++ [line result])
  end.

Definition process_batch (lines : list str) : result (list str * list str) :=
  process_batch_loop lines [] [].

(** [next] on the generator [decoded_lines()] over the shared iterator
    [lines_iter]: the next non-empty line decoded and what is left of
    the iterator, or [None] when it is exhausted. *)
Fixpoint decoded_lines_next (lines_iter : list bytes)
  : result (option str * list bytes) :=
  match lines_iter with
  | [] => Ok (None, [])
  | l :: rest =>
      if negb (length l =? 0)%nat then s ← decode l; Ok (Some s, rest)
      else decoded_lines_next rest
  end.

(** [list(islice(decoded_lines(), n))] *)
Fixpoint islice (n : nat) (lines_iter : list bytes)
  : result (list str * list bytes) :=
  match n with
  | O => Ok ([], lines_iter)
  | S n' =>
      r ← decoded_lines_next lines_iter;
      match r with
      | (None, rest) => Ok ([], rest)
      | (Some s, rest) =>
          r' ← islice n' rest;
          Ok (s :: r'.1, r'.2)
      end
  end.

(** [next(batches)] for [batches = batch_generator(decoded_lines(),
    batch_size)]: [None] stands for [StopIteration]. *)
Definition batches_next (batch_size : nat) (lines_iter : list bytes)
  : result (option (list str) * list bytes) :=
  r ← islice batch_size lines_iter;
  match r.1 with
  | [] => Ok (None, r.2)
  | _ :: _ => Ok (Some r.1, r.2)
  end.

(** The variables of [lambda_handler].  A future is known by the
    batch number it was submitted under (the value the source keeps in
    [futures]); the map holds the batch each future works on.
    [consumed] counts the results taken from [as_completed]; it is a
    ghost of the model. *)
Record State : Type := mkState {
  lines_iter : list bytes;
  futures : gmap nat (list str);
  batch_count : nat;
  valid_stream : list bytes;
  error_stream : list bytes;
  line_count : N;
  valid_count : N;
  error_count : N;
  consumed : nat
}.

(** The header block: [header_line = next(lines_iter, None)]. *)
Definition handle_header (iter_lines : list bytes) : result State :=
  let st0 rest := {| lines_iter := rest; futures := ∅; batch_count := 0%nat;
                     valid_stream := []; error_stream := [];
                     line_count := 0; valid_count := 0; error_count := 0;
                     consumed := 0%nat |} in
  match iter_lines with
  | [] => Ok (st0 [])
  | header_line :: rest =>
      if negb (length header_line =? 0)%nat then
        decoded_header ← decode header_line;
        chunk ← encode (decoded_header ++ [LF]);
        Ok {| lines_iter := rest; futures := ∅; batch_count := 0%nat;
              valid_stream := [chunk]; error_stream := [chunk];
              line_count := 1; valid_count := 0; error_count := 0;
              consumed := 0%nat |}
      else Ok (st0 rest)
  end.

(** [executor.submit(process_batch, batch); futures[future] =
    batch_count; batch_count += 1], after [next(batches)] gave [batch]
    and left [rest] of the iterator. *)
Definition submit (st : State) (batch : list str) (rest : list bytes) : State :=
  {| lines_iter := rest;
     futures := <[batch_count st := batch]> (futures st);
     batch_count := S (batch_count st);
     valid_stream := valid_stream st; error_stream := error_stream st;
     line_count := line_count st; valid_count := valid_count st;
     error_count := error_count st; consumed := consumed st |}.

Definition set_lines_iter (st : State) (rest : list bytes) : State :=
  {| lines_iter := rest; futures := futures st; batch_count := batch_count st;
     valid_stream := valid_stream st; error_stream := error_stream st;
     line_count := line_count st; valid_count := valid_count st;
     error_count := error_count st; consumed := consumed st |}.

(** [batch_id = futures.pop(future)] *)
Definition pop (st : State) (id : nat) : State :=
  {| lines_iter := lines_iter st; futures := delete id (futures st);
     batch_count := batch_count st;
     valid_stream := valid_stream st; error_stream := error_stream st;
     line_count := line_count st; valid_count := valid_count st;
     error_count := error_count st; consumed := S (consumed st) |}.

(** [for line in valid_lines: valid_stream.write(...); valid_count += 1;
    line_count += 1] *)
Fixpoint write_valid (st : State) (valid_lines : list str) : result State :=
  match valid_lines with
  | [] => Ok st
  | l :: ls =>
      chunk ← encode (l ++ [LF]);
      write_valid
        {| lines_iter := lines_iter st; futures := futures st;
           batch_count := batch_count st;
           valid_stream := valid_stream st ++ [chunk];
           error_stream := error_stream st;
           line_count := line_count st + 1; valid_count := valid_count st + 1;
           error_count := error_count st; consumed := consumed st |} ls
  end.

Fixpoint write_error (st : State) (error_lines : list str) : result State :=
  match error_lines with
  | [] => Ok st
  | l :: ls =>
      chunk ← encode (l ++ [LF]);
      write_error
        {| lines_iter := lines_iter st; futures := futures st;
           batch_count := batch_count st;
           valid_stream := valid_stream st;
           error_stream := error_stream st ++ [chunk];
           line_count := line_count st + 1; valid_count := valid_count st;
           error_count := error_count st + 1; consumed := consumed st |} ls
  end.

(** The block under [with write_lock]. *)
Definition ingest (st : State) (res : list str * list str) : result State :=
  st' ← write_valid st res.1; write_error st' res.2.

(** Where the handler stands in the submit/consume code. *)
Inductive pc : Type :=
  | Filling (i : nat)      (* [for _ in range(MAX_WORKERS * 2)], [i] turns done *)
  | Waiting                (* at [while futures], before [as_completed] *)
  | Popped (res : list str * list str)
                           (* a result taken out of [futures], not yet written *)
  | Written                (* the result written, before [next(batches)] *)
  | Finished.              (* past the [with ThreadPoolExecutor] block *)

Inductive config : Type :=
  | Running (p : pc) (st : State)
  | Failed (e : exn).      (* an exception left the handler *)

Section Scheduler.

Variables max_workers batch_size : nat.

(** One step of the handler.  In [step_complete] the future that
    [as_completed] yields first is any of those in [futures]: which
    worker finishes first is not the handler's choice. *)
Inductive step : config -> config -> Prop :=
  | step_fill_submit i st batch rest :
      (i < max_workers * 2)%nat ->
      batches_next batch_size (lines_iter st) = Ok (Some batch, rest) ->
      step (Running (Filling i) st) (Running (Filling (S i)) (submit st batch rest))
  | step_fill_stop i st rest :
      (i < max_workers * 2)%nat ->
      batches_next batch_size (lines_iter st) = Ok (None, rest) ->
      step (Running (Filling i) st) (Running Waiting (set_lines_iter st rest))
  | step_fill_raise i st e :
      (i < max_workers * 2)%nat ->
      batches_next batch_size (lines_iter st) = Raise e ->
      step (Running (Filling i) st) (Failed e)
  | step_fill_done st :
      step (Running (Filling (max_workers * 2)%nat) st) (Running Waiting st)
  | step_done st :
      futures st = ∅ ->
      step (Running Waiting st) (Running Finished st)
  | step_complete st id batch res :
      futures st !! id = Some batch ->
      process_batch batch = Ok res ->
      step (Running Waiting st) (Running (Popped res) (pop st id))
  | step_complete_raise st id batch e :
      futures st !! id = Some batch ->
      process_batch batch = Raise e ->
      step (Running Waiting st) (Failed e)
  | step_write st res st' :
      ingest st res = Ok st' ->
      step (Running (Popped res) st) (Running Written st')
  | step_write_raise st res e :
      ingest st res = Raise e ->
      step (Running (Popped res) st) (Failed e)
  | step_submit st batch rest :
      batches_next batch_size (lines_iter st) = Ok (Some batch, rest) ->
      step (Running Written st) (Running Waiting (submit st batch rest))
  | step_submit_stop st rest :
      batches_next batch_size (lines_iter st) = Ok (None, rest) ->
      step (Running Written st) (Running Waiting (set_lines_iter st rest))
  | step_submit_raise st e :
      batches_next batch_size (lines_iter st) = Raise e ->
      step (Running Written st) (Failed e).

(** The batches in flight: submitted to the pool and not yet written
    by the sink. *)
Definition in_flight (c : config) : nat :=
  match c with
  | Running (Popped _) st => S (size (futures st))
  | Running _ st => size (futures st)
  | Failed _ => 0%nat
  end.

(** A run of the handler on the lines of the body: the header block,
    then the scheduler from the first turn of the filling loop. *)
Definition runs_to (iter_lines : list bytes) (c : config) : Prop :=
  match handle_header iter_lines with
  | Ok st => rtc step (Running (Filling 0) st) c
  | Raise e => c = Failed e
  end.

End Scheduler.

Record Response : Type := mkResponse {
  valid_output : bytes;
  error_output : bytes;
  total_lines : N;
  valid_lines : N;
  error_lines : N
}.

Definition response (st : State) : Response :=
  {| valid_output := concat (valid_stream st);
     error_output := concat (error_stream st);
     total_lines := line_count st;
     valid_lines := valid_count st;
     error_lines := error_count st |}.

(** [lambda_handler] returns [r] on the lines [iter_lines]: some run
    of the scheduler with the module's constants finishes in a state
    whose streams and counters are those of [r]. *)
Definition lambda_handler_returns (iter_lines : list bytes) (r : Response) : Prop :=
  exists st, runs_to MAX_WORKERS BATCH_SIZE iter_lines (Running Finished st)
             /\ r = response st.

End Multithread.

(** ** The vocabulary of the specification *)

Module Spec.

(** The closed taxonomy of rejection reasons. *)
Inductive Reason : Type :=
  | malformed_row
  | id_null_or_nonint
  | label_too_long
  | date_format
  | date_invalid.

#[global] Instance Reason_eq_dec : EqDecision Reason.
Proof. solve_decision. Defined.

(** The reason an error text of the source stands for. *)
Definition reason_of (msg : string) : option Reason :=
  if String.eqb msg "Invalid column count" then Some malformed_row
  else if String.eqb msg "no is null" then Some id_null_or_nonint
  else if String.eqb msg "no is not int" then Some id_null_or_nonint
  else if String.eqb msg "name exceeds 20 characters" then Some label_too_long
  else if String.eqb msg "created_date is not YYYY/MM/DD format" then Some date_format
  else if String.eqb msg "created_date is invalid date" then Some date_invalid
  else None.

(** The outcome of a verdict: [None] when accepted, else the error text. *)
Definition outcome (v : App.Verdict) : option string :=
  if App.valid v then None else Some (default ""%string (App.error v)).

Definition is_ok {A} (r : result A) : bool :=
  match r with Ok _ => true | Raise _ => false end.

(** The five rules, each the condition the source tests, on the fields
    of a parsed row. *)
Definition field_count_ok (row : list str) : bool := (length row =? 3)%nat.
Definition id_ok (no : str) : bool :=
  negb (bool_decide (no = [])) && negb (bool_decide (strip no = []))
  && is_ok (int no).
Definition label_ok (name : str) : bool := negb (20 <? len name).
Definition date_format_ok (day : str) : bool :=
  is_match (re_match date_pattern day).
Definition date_valid (day : str) : bool := is_ok (strptime day).

Definition rules : list (Reason * (list str -> bool)) :=
  [ (malformed_row, field_count_ok);
    (id_null_or_nonint, fun row => id_ok (nth 0 row []));
    (label_too_long, fun row => label_ok (nth 1 row []));
    (date_format, fun row => date_format_ok (nth 2 row []));
    (date_invalid, fun row => date_valid (nth 2 row [])) ].

(** The reason of the first rule of [rs] that [row] fails, in the
    order of the list. *)
Fixpoint first_failure (rs : list (Reason * (list str -> bool))) (row : list str)
  : option Reason :=
  match rs with
  | [] => None
  | (r, holds) :: rs' => if holds row then first_failure rs' row else Some r
  end.

(** The reason a verdict carries, when its text is one of the taxonomy. *)
Definition reason (v : App.Verdict) : option Reason :=
  if App.valid v then None else App.error v ≫= reason_of.

(** A base-10 integer as the specification words it: an optional sign,
    then digits 0-9 and nothing else. *)
Definition plain_integer (s : str) : bool :=
  let digits :=
    match s with
    | c :: s' => if (c =? ord "+") || (c =? ord "-") then s' else s
    | [] => s
    end in
  negb (bool_decide (digits = [])) && forallb ascii_digit digits.

(** Rule 2 as worded: non-empty after trimming white space, and a
    plain integer once trimmed. *)
Definition id_rule_as_worded (no : str) : bool :=
  negb (bool_decide (strip no = [])) && plain_integer (strip no).

(** The literals [int] reads, on the buffer it parses: digits, single
    underscores between digits only. *)
Inductive digit_run : str -> Prop :=
  | run_digit d : ascii_digit d = true -> digit_run [d]
  | run_more d s : ascii_digit d = true -> digit_run s -> digit_run (d :: s)
  | run_underscore d s :
      ascii_digit d = true -> digit_run s -> digit_run (d :: underscore :: s).

Definition count_digits (s : str) : nat := length (filter (fun c => ascii_digit c = true) s).

(** White space, an optional sign, a run of at most 4300 digits, white
    space. *)
Definition int_literal (buffer : str) : Prop :=
  exists ws1 sign run ws2,
    buffer = ws1 ++ sign ++ run ++ ws2
    /\ Forall (fun c => Py_ISSPACE c = true) ws1
    /\ (sign = [] \/ sign = [ord "+"] \/ sign = [ord "-"])
    /\ digit_run run
    /\ N.of_nat (count_digits run) <= 4300
    /\ Forall (fun c => Py_ISSPACE c = true) ws2.

(** *** The line framer and the two outputs, as the specification words them *)

(** A line that is not empty. *)
Definition nonempty (l : bytes) : bool := negb (length l =? 0)%nat.

(** The records of a stream: its lines that are not empty. *)
Definition framed (iter_lines : list bytes) : list bytes :=
  filter (fun l => nonempty l = true) iter_lines.

(** The header is the first record, the data records are the others. *)
Definition header (iter_lines : list bytes) : list bytes :=
  take 1 (framed iter_lines).
Definition data_records (iter_lines : list bytes) : list bytes :=
  drop 1 (framed iter_lines).

(** What [app_multithread.py] takes for them: the first line when it
    is not empty, and the records among the lines after the first. *)
Definition first_line_header (iter_lines : list bytes) : list bytes :=
  framed (take 1 iter_lines).
Definition records_after_first_line (iter_lines : list bytes) : list bytes :=
  framed (drop 1 iter_lines).

(** The verdict on a decoded line, and on a record. *)
Definition accepts (line : str) : bool :=
  match App.validate_csv_row line with
  | Ok v => App.valid v
  | Raise _ => false
  end.

Definition accepts_record (l : bytes) : bool :=
  match decode l with
  | Ok s => accepts s
  | Raise _ => false
  end.

Definition accepted_records (records : list bytes) : list bytes :=
  filter (fun l => accepts_record l = true) records.
Definition rejected_records (records : list bytes) : list bytes :=
  filter (fun l => accepts_record l = false) records.

(** The stream does not start with an empty line. *)
Definition starts_with_record (iter_lines : list bytes) : Prop :=
  match iter_lines with
  | [] => True
  | l :: _ => nonempty l = true
  end.

(** A record as an output holds it: the line and its terminator. *)
Definition terminated (l : bytes) : bytes := l ++ ["010"%byte].

End Spec.


(** ** Definitions used in the proofs *)

Import Spec.

(** The reader raises [_csv.Error] with one of two messages, and never
    [StopIteration]. *)
Definition csv_error (e : exn) : Prop :=
  e = CsvError field_limit_msg \/ e = CsvError newline_msg.

(** The validator of [app_multithread.py] is that of [app.py] with
    the line kept in the verdict. *)
Definition with_line (line : str) (v : App.Verdict) : Multithread.Verdict :=
  {| Multithread.valid := App.valid v; Multithread.error := App.error v;
     Multithread.line := line |}.

(** ASCII white space, as [PyLong_FromString] skips it. *)
Definition is_space (c : N) : Prop := Py_ISSPACE c = true.

(** What the scan accepts after the character [prev]. *)
Inductive scanned : N -> str -> Prop :=
  | scanned_nil prev : scanned prev []
  | scanned_digit prev d s :
      ascii_digit d = true -> scanned d s -> scanned prev (d :: s)
  | scanned_underscore prev s :
      prev <> underscore -> scanned underscore s -> scanned prev (underscore :: s).

(** The part of [PyLong_FromString] after the sign. *)
Definition parse_unsigned (sign : Z) (s : str) : result Z :=
  match s with
  | c :: _ => if c =? underscore then Raise invalid_literal else
      match scan_digits s 0 0 0%Z with
      | None => Raise invalid_literal
      | Some (prev, digits, acc, rest) =>
          if prev =? underscore then Raise invalid_literal
          else if (PY_LONG_MAX_STR_DIGITS_THRESHOLD <? digits)
                  && (0 <? int_max_str_digits)
                  && (int_max_str_digits <? digits)
          then Raise exceeds_limit
          else if (length rest =? length s)%nat then Raise invalid_literal
          else match skip_space rest with
               | [] => Ok (sign * acc)%Z
               | _ :: _ => Raise invalid_literal
               end
      end
  | [] => Raise invalid_literal
  end.

(** A list of raw lines decodes to a list of [str]. *)
Definition decodes (ls : list bytes) (ss : list str) : Prop :=
  Forall2 (fun l s => decode l = Ok s) ls ss.

(** *** The date rules and the reader, as a user sees them *)

(** The value of a run of decimal digits. *)
Definition digits_value (vs : list N) : Z :=
  fold_left (fun acc v => acc * 10 + Z.of_N v)%Z vs 0%Z.

(** The year, month and day of a field written [dddd/dd/dd]: the year
    in decimal digits of any script, the month in ASCII digits, the
    day in ASCII digits or, after a 1 or a 2, with a last digit of any
    script. *)
Definition date_fields (day : str) : option (Z * Z * Z) :=
  match day with
  | [y1; y2; y3; y4; s1; m1; m2; s2; d1; d2] =>
      if (s1 =? ord "/") && (s2 =? ord "/")
         && ascii_digit m1 && ascii_digit m2 && ascii_digit d1
         && (ascii_digit d2 || (d1 =? ord "1") || (d1 =? ord "2"))
      then
        match Py_UNICODE_TODECIMAL y1, Py_UNICODE_TODECIMAL y2,
              Py_UNICODE_TODECIMAL y3, Py_UNICODE_TODECIMAL y4,
              Py_UNICODE_TODECIMAL d2 with
        | Some a, Some b, Some c, Some d, Some e =>
            Some (digits_value [a; b; c; d],
                  digits_value [m1 - 48; m2 - 48],
                  digits_value [d1 - 48; e])
        | _, _, _, _, _ => None
        end
      else None
  | _ => None
  end.

(** A day of the calendar of [datetime.date]: year 1 to 9999. *)
Definition calendar_date (f : Z * Z * Z) : bool :=
  let '(y, m, d) := f in
  ((1 <=? y) && (y <=? 9999) && (1 <=? m) && (m <=? 12)
   && (1 <=? d) && (d <=? days_in_month y m))%Z.

(** The checks behind the facts on decimal digits, run on the table. *)
Definition zeros_apart : bool :=
  forallb (fun z => (z =? 48) || (128 <=? z)) decimal_zeros.
Definition digits_not_space : bool :=
  forallb (fun z => forallb (fun k => negb (Py_UNICODE_ISSPACE (z + k)))
                      [0; 1; 2; 3; 4; 5; 6; 7; 8; 9])
          decimal_zeros.

(** The parts of [format_regex] for the month and the day. *)
Definition month_re : regex :=
  (chr "1" · rng "0" "2" ∣ chr "0" · rng "1" "9" ∣ rng "1" "9")%re.
Definition day_re : regex :=
  (chr "3" · rng "0" "1" ∣ rng "1" "2" · Digit ∣ chr "0" · rng "1" "9"
   ∣ rng "1" "9" ∣ chr " " · rng "1" "9")%re.

(** Two characters that the month, or the day, of the format matches. *)
Definition month_ok (m1 m2 : N) : bool :=
  ((m1 =? 49) && (48 <=? m2) && (m2 <=? 50))
  || ((m1 =? 48) && (49 <=? m2) && (m2 <=? 57)).
Definition day_ok (d1 d2 : N) : bool :=
  ((d1 =? 51) && (48 <=? d2) && (d2 <=? 49))
  || ((49 <=? d1) && (d1 <=? 50) && Py_UNICODE_ISDECIMAL d2)
  || ((d1 =? 48) && (49 <=? d2) && (d2 <=? 57)).

(** A line split at its commas. *)
Fixpoint split_commas (s : str) : list str :=
  match s with
  | [] => [[]]
  | c :: s' =>
      if c =? delimiter then [] :: split_commas s'
      else match split_commas s' with
           | f :: fs => (c :: f) :: fs
           | [] => [[c]]
           end
  end.

(** A character that the reader takes as it is: no quote, no line
    feed, no carriage return. *)
Definition plain (c : N) : Prop := c <> quotechar /\ c <> LF /\ c <> CR.

(** The fields of [fs], the first one after the characters [f]. *)
Definition continue_field (f : str) (fs : list str) : list str :=
  match fs with
  | f0 :: fs' => (f ++ f0) :: fs'
  | [] => [f]
  end.

(** *** The scheduler: invariants and an executable instance *)

Module Sched.

Import Multithread.

(** The chunk written for a decoded line. *)
Definition encode_line (s : str) : bytes :=
  match encode (s ++ [LF]) with Ok c => c | Raise _ => [] end.

(** What holds of the futures at each point of the handler. *)
Definition window (max_workers : nat) (c : config) : Prop :=
  match c with
  | Failed _ => True
  | Running p st =>
      (forall id b, futures st !! id = Some b -> (id < batch_count st)%nat)
      /\ batch_count st = (size (futures st) + consumed st)%nat
      /\ match p with
         | Filling i => size (futures st) = i /\ (i <= max_workers * 2)%nat
                        /\ consumed st = 0%nat
         | Waiting => (size (futures st) <= max_workers * 2)%nat
         | Popped _ | Written => (S (size (futures st)) <= max_workers * 2)%nat
         | Finished => size (futures st) = 0%nat
         end
  end.

Definition accepted_lines (batch : list str) : list str :=
  filter (fun l => accepts l = true) batch.
Definition rejected_lines (batch : list str) : list str :=
  filter (fun l => accepts l = false) batch.

(** The batches held by the futures. *)
Definition flying (st : State) : list (list str) := (map_to_list (futures st)).*2.

(** Every batch but the last one is full. *)
Definition full_but_last {A} (batch_size : nat) (batches : list (list A)) : Prop :=
  forall pre b, batches = pre ++ [b] ->
    Forall (fun x => length x = batch_size) pre.

(** Where every record is: [R] are the lines after the header block,
    [hdr] the stream after it.  [P] is the part of [R] read so far,
    [submitted] the batches made of it, [done] those written, in the
    order consumed. *)
Definition ledger (batch_size : nat) (R hdr : list bytes) (c : config) : Prop :=
  match c with
  | Failed _ => True
  | Running p st =>
      exists (P : list bytes) (submitted done popped : list (list str)),
        R = P ++ lines_iter st
        /\ decodes (framed P) (concat submitted)
        /\ submitted ≡ₚ done ++ popped ++ flying st
        /\ Forall (fun b => b <> [] /\ (length b <= batch_size)%nat) submitted
        /\ full_but_last batch_size submitted
        /\ (Forall (fun b => length b = batch_size) submitted
            \/ framed (lines_iter st) = [])
        /\ valid_stream st = hdr ++ map encode_line (concat (map accepted_lines done))
        /\ error_stream st = hdr ++ map encode_line (concat (map rejected_lines done))
        /\ valid_count st = N.of_nat (length (concat (map accepted_lines done)))
        /\ error_count st = N.of_nat (length (concat (map rejected_lines done)))
        /\ line_count st = N.of_nat (length hdr) + valid_count st + error_count st
        /\ (forall id b, futures st !! id = Some b -> (id < batch_count st)%nat)
        /\ match p with
           | Popped res => exists b, popped = [b] /\ process_batch b = Ok res
           | _ => popped = []
           end
        /\ match p with
           | Filling i => size (futures st) = i
           | Waiting => futures st = ∅ -> framed (lines_iter st) = []
           | Finished => futures st = ∅ /\ framed (lines_iter st) = []
           | _ => True
           end
  end.

(** One scheduler that can be run: the future that completes first is
    the first one of the map. *)
Definition exec_step (max_workers batch_size : nat) (c : config) : option config :=
  match c with
  | Failed _ => None
  | Running (Filling i) st =>
      if (i <? max_workers * 2)%nat then
        match batches_next batch_size (lines_iter st) with
        | Ok (Some batch, rest) => Some (Running (Filling (S i)) (submit st batch rest))
        | Ok (None, rest) => Some (Running Waiting (set_lines_iter st rest))
        | Raise e => Some (Failed e)
        end
      else if (i =? max_workers * 2)%nat then Some (Running Waiting st)
      else None
  | Running Waiting st =>
      match map_to_list (futures st) with
      | [] => Some (Running Finished st)
      | (id, batch) :: _ =>
          match process_batch batch with
          | Ok res => Some (Running (Popped res) (pop st id))
          | Raise e => Some (Failed e)
          end
      end
  | Running (Popped res) st =>
      match ingest st res with
      | Ok st' => Some (Running Written st')
      | Raise e => Some (Failed e)
      end
  | Running Written st =>
      match batches_next batch_size (lines_iter st) with
      | Ok (Some batch, rest) => Some (Running Waiting (submit st batch rest))
      | Ok (None, rest) => Some (Running Waiting (set_lines_iter st rest))
      | Raise e => Some (Failed e)
      end
  | Running Finished _ => None
  end.

Fixpoint exec (fuel : nat) (max_workers batch_size : nat) (c : config) : config :=
  match fuel with
  | O => c
  | S fuel' =>
      match exec_step max_workers batch_size c with
      | Some c' => exec fuel' max_workers batch_size c'
      | None => c
      end
  end.

(** The steps it takes. *)
Fixpoint exec_count (fuel : nat) (max_workers batch_size : nat) (c : config) : nat :=
  match fuel with
  | O => 0
  | S fuel' =>
      match exec_step max_workers batch_size c with
      | Some c' => S (exec_count fuel' max_workers batch_size c')
      | None => 0
      end
  end.

(** The handler run by that scheduler. *)
Definition run (fuel : nat) (max_workers batch_size : nat) (iter_lines : list bytes)
  : config :=
  match handle_header iter_lines with
  | Ok st => exec fuel max_workers batch_size (Running (Filling 0) st)
  | Raise e => Failed e
  end.

(** How far a configuration is from the end of the run. *)
Definition rank (max_workers : nat) (p : pc) : nat :=
  match p with
  | Filling i => 6 + (max_workers * 2 - i)
  | Popped _ => 5
  | Written => 4
  | Waiting => 2
  | Finished => 0
  end.

Definition measure (max_workers : nat) (c : config) : nat :=
  match c with
  | Running p st =>
      4 * length (framed (lines_iter st)) + 4 * size (futures st)
      + rank max_workers p
  | Failed _ => 0
  end.

(** A line that is, or is not, valid UTF-8. *)
Definition undecodable (l : bytes) : Prop := is_ok (decode l) = false.
Definition decodable (l : bytes) : Prop := is_ok (decode l) = true.

(** The run is over. *)
Definition terminal (c : config) : Prop :=
  match c with
  | Running Finished _ | Failed _ => True
  | _ => False
  end.

(** A decoded line can be written: its encoding does not fail. *)
Definition encodable (s : str) : Prop := is_ok (encode (s ++ [LF])) = true.

(** A stream used in the examples: a header, an accepted record, an
    empty line and two rejected records. *)
Definition example_stream : list bytes :=
  [ blit "no,name,created_date"; blit "1,a,2024/01/01"; [];
    blit "x,a,2024/01/01"; blit "2,b,2024/02/30" ].

(** A finished state of the example stream. *)
Definition example_finished : State :=
  match run 40 1 2 example_stream with
  | Running _ st => st
  | Failed _ => {| lines_iter := []; futures := ∅; batch_count := 0%nat;
                   valid_stream := []; error_stream := []; line_count := 0;
                   valid_count := 0; error_count := 0; consumed := 0%nat |}
  end.

End Sched.
(* ===================================================================== *)
(** * Part II. Properties *)
(* ===================================================================== *)

Import Spec.

(** ** Exceptions of the library calls *)

Lemma bind_Ok {A B} (a : A) (k : A -> result B) : (Ok a ≫= k) = k a.
Proof. reflexivity. Qed.

Lemma bind_Raise {A B} e (k : A -> result B) : (Raise e ≫= k) = Raise e.
Proof. reflexivity. Qed.

Lemma bind_Ok_inv {A B} (m : result A) (k : A -> result B) b :
  m ≫= k = Ok b -> exists a, m = Ok a /\ k a = Ok b.
Proof. destruct m; simpl; [eauto | discriminate]. Qed.

(** [int] and [strptime] raise nothing but [ValueError]. *)
Lemma PyLong_FromString_raises buffer e :
  PyLong_FromString buffer = Raise e -> exists msg, e = ValueError msg.
Proof.
  unfold PyLong_FromString, invalid_literal, exceeds_limit.
  repeat (case_match; try discriminate); intros [= <-]; eauto.
Qed.

Lemma int_raises s e : int s = Raise e -> exists msg, e = ValueError msg.
Proof. apply PyLong_FromString_raises. Qed.

Lemma check_date_fields_raises y m d e :
  check_date_fields y m d = Raise e -> exists msg, e = ValueError msg.
Proof.
  unfold check_date_fields.
  repeat (case_match; try discriminate); intros [= <-]; eauto.
Qed.

Lemma strptime_raises s e : strptime s = Raise e -> exists msg, e = ValueError msg.
Proof.
  unfold strptime.
  destruct (re_match _ _) as [[found rest]|]; [|intros [= <-]; eauto].
  destruct (negb _); [intros [= <-]; eauto|].
  destruct (int (group "Y" found)) as [y|e1] eqn:Hy; simpl;
    [|intros [= <-]; eauto using int_raises].
  destruct (int (group "m" found)) as [m|e1] eqn:Hm; simpl;
    [|intros [= <-]; eauto using int_raises].
  destruct (int (group "d" found)) as [d|e1] eqn:Hd; simpl;
    [|intros [= <-]; eauto using int_raises].
  apply check_date_fields_raises.
Qed.


Lemma parse_add_char_raises r c e : parse_add_char r c = Raise e -> csv_error e.
Proof.
  unfold parse_add_char. case_match; [intros [= <-]; by left | discriminate].
Qed.

Lemma parse_process_char_raises r c e :
  parse_process_char r c = Raise e -> csv_error e.
Proof.
  unfold parse_process_char, process_start_field.
  repeat (case_match; try discriminate);
    try (intros [= <-]; by right);
    try apply parse_add_char_raises;
    destruct (parse_add_char _ _) eqn:Hadd; simpl; try discriminate;
    intros [= <-]; eauto using parse_add_char_raises.
Qed.

Lemma process_chars_raises s : forall r e,
  process_chars r s = Raise e -> csv_error e.
Proof.
  induction s as [|c s IH]; intros r e; simpl; [discriminate|].
  destruct (parse_process_char r (Ch c)) eqn:Hc; simpl;
    [apply IH | intros [= <-]; eauto using parse_process_char_raises].
Qed.

Lemma parse_add_char_state r c r' :
  parse_add_char r c = Ok r' -> state r' = state r.
Proof. unfold parse_add_char. case_match; [discriminate | by intros [= <-]]. Qed.

Lemma EOL_state r r' :
  parse_process_char r EOL = Ok r' ->
  state r' = START_RECORD \/ state r' = IN_QUOTED_FIELD.
Proof.
  unfold parse_process_char, process_start_field.
  destruct (state r) eqn:Hst; intros [= <-]; simpl; auto.
Qed.

Lemma csv_reader_next_raises line e :
  csv_reader_next line = Raise e -> csv_error e.
Proof.
  unfold csv_reader_next.
  destruct (process_chars parse_reset line) as [r|e1] eqn:H1; simpl;
    [|intros [= <-]; eauto using process_chars_raises].
  destruct (parse_process_char r EOL) as [r'|e1] eqn:H2; simpl;
    [|intros [= <-]; eauto using parse_process_char_raises].
  destruct (EOL_state _ _ H2) as [-> | ->]; simpl; [discriminate|].
  rewrite orb_true_r. discriminate.
Qed.

(** ** The validator follows the rules in their order *)

Lemma validate_body_rules line row :
  csv_reader_next line = Ok row ->
  exists v, App.validate_body line = Ok v
            /\ reason v = first_failure rules row
            /\ (App.valid v = true <-> first_failure rules row = None).
Proof.
  intros Hrow. unfold App.validate_body. rewrite Hrow, bind_Ok.
  destruct row as [|no [|name [|day [|x row]]]]; simpl;
    try (eexists; split; [reflexivity|]; split; [reflexivity|]; split; done).
  unfold id_ok, label_ok, date_format_ok, date_valid.
  destruct (bool_decide (no = [])); simpl;
    [eexists; split; [reflexivity|]; split; [reflexivity|]; split; done|].
  destruct (bool_decide (strip no = [])); simpl;
    [eexists; split; [reflexivity|]; split; [reflexivity|]; split; done|].
  destruct (int no) as [z|e] eqn:Hint; simpl.
  2:{ destruct (int_raises _ _ Hint) as [msg ->].
      eexists; split; [reflexivity|]; split; [reflexivity|]; split; done. }
  destruct (20 <? len name); simpl;
    [eexists; split; [reflexivity|]; split; [reflexivity|]; split; done|].
  destruct (re_match date_pattern day); simpl;
    [|eexists; split; [reflexivity|]; split; [reflexivity|]; split; done].
  destruct (strptime day) as [ymd|e] eqn:Hd; simpl.
  2:{ destruct (strptime_raises _ _ Hd) as [msg ->].
      eexists; split; [reflexivity|]; split; [reflexivity|]; split; done. }
  eexists; split; [reflexivity|]; split; [reflexivity|]; split; done.
Qed.

Lemma validate_csv_row_rules line row :
  csv_reader_next line = Ok row ->
  exists v, App.validate_csv_row line = Ok v
            /\ reason v = first_failure rules row
            /\ (App.valid v = true <-> first_failure rules row = None).
Proof.
  intros Hrow. destruct (validate_body_rules _ _ Hrow) as (v & Hv & ?).
  exists v. unfold App.validate_csv_row. by rewrite Hv.
Qed.

(** On a line the reader cannot parse, the verdict carries the text of
    the reader's exception. *)
Lemma validate_csv_row_unparsed line e :
  csv_reader_next line = Raise e ->
  App.validate_csv_row line = Ok (App.rejected (str_exn e)).
Proof.
  intros Hrow. unfold App.validate_csv_row, App.validate_body.
  rewrite Hrow, bind_Raise. by destruct e.
Qed.

(** [validate_csv_row] always returns a verdict. *)
Lemma validate_csv_row_total line : exists v, App.validate_csv_row line = Ok v.
Proof.
  destruct (csv_reader_next line) as [row|e] eqn:Hrow.
  - destruct (validate_csv_row_rules _ _ Hrow) as (v & Hv & _). eauto.
  - eauto using validate_csv_row_unparsed.
Qed.


Lemma multithread_validate_body line :
  Multithread.validate_body line
  = match App.validate_body line with
    | Ok v => Ok (with_line line v)
    | Raise e => Raise e
    end.
Proof.
  unfold Multithread.validate_body, App.validate_body.
  destruct (csv_reader_next line) as [row|e]; simpl; [|done].
  repeat (case_match; simplify_eq/=; try done).
Qed.

Lemma multithread_validate_csv_row line :
  Multithread.validate_csv_row line
  = match App.validate_csv_row line with
    | Ok v => Ok (with_line line v)
    | Raise e => Raise e
    end.
Proof.
  unfold Multithread.validate_csv_row, App.validate_csv_row.
  rewrite multithread_validate_body.
  destruct (App.validate_body line) as [v|e]; [done|].
  by destruct (is_Exception e).
Qed.

(** Case analysis on the comparisons of code points in the goal. *)
Ltac cmp_cases :=
  repeat match goal with
  | |- context [N.leb ?a ?b] =>
      let E := fresh "E" in
      destruct (N.leb a b) eqn:E; [apply N.leb_le in E | apply N.leb_gt in E]
  | |- context [N.ltb ?a ?b] =>
      let E := fresh "E" in
      destruct (N.ltb a b) eqn:E; [apply N.ltb_lt in E | apply N.ltb_ge in E]
  | |- context [N.eqb ?a ?b] =>
      let E := fresh "E" in
      destruct (N.eqb a b) eqn:E; [apply N.eqb_eq in E | apply N.eqb_neq in E]
  end; simpl in *; try done; try lia.

Ltac cmp_hyp H :=
  repeat match type of H with
  | context [N.leb ?a ?b] =>
      let E := fresh "E" in
      destruct (N.leb a b) eqn:E; [apply N.leb_le in E | apply N.leb_gt in E]
  | context [N.ltb ?a ?b] =>
      let E := fresh "E" in
      destruct (N.ltb a b) eqn:E; [apply N.ltb_lt in E | apply N.ltb_ge in E]
  | context [N.eqb ?a ?b] =>
      let E := fresh "E" in
      destruct (N.eqb a b) eqn:E; [apply N.eqb_eq in E | apply N.eqb_neq in E]
  end; simpl in H; try done.

(** ** What [int] reads *)


Lemma skip_space_split s :
  exists ws, s = ws ++ skip_space s /\ Forall is_space ws.
Proof.
  induction s as [|c s (ws & Hs & Hws)]; simpl; [by exists []|].
  destruct (Py_ISSPACE c) eqn:Hc; [|by exists []].
  exists (c :: ws). split; [by rewrite <- app_comm_cons, <- Hs | by constructor].
Qed.

Lemma skip_space_nil s : skip_space s = [] -> Forall is_space s.
Proof.
  intros H. destruct (skip_space_split s) as (ws & Hs & Hws).
  rewrite H, app_nil_r in Hs. by subst.
Qed.

Lemma skip_space_all ws s : Forall is_space ws -> skip_space (ws ++ s) = skip_space s.
Proof. induction 1 as [|c ws Hc _ IH]; simpl; [done|]. by rewrite Hc. Qed.

Lemma skip_space_stop c s : Py_ISSPACE c = false -> skip_space (c :: s) = c :: s.
Proof. simpl. by intros ->. Qed.

Lemma skip_space_all_nil ws : Forall is_space ws -> skip_space ws = [].
Proof. intros H. rewrite <- (app_nil_r ws). by rewrite skip_space_all. Qed.


Lemma ascii_digit_not_underscore d : ascii_digit d = true -> (d =? underscore) = false.
Proof. unfold ascii_digit, underscore, ord. simpl. cmp_cases. Qed.

Lemma ascii_digit_not_space d : ascii_digit d = true -> Py_ISSPACE d = false.
Proof. unfold ascii_digit, Py_ISSPACE. cmp_cases. Qed.

Lemma underscore_not_digit : ascii_digit underscore = false.
Proof. reflexivity. Qed.

Lemma count_digits_nil : count_digits [] = 0%nat.
Proof. reflexivity. Qed.

Lemma count_digits_cons_digit d s :
  ascii_digit d = true -> count_digits (d :: s) = S (count_digits s).
Proof. intros H. unfold count_digits. rewrite filter_cons_True; done. Qed.

Lemma count_digits_cons_other d s :
  ascii_digit d = false -> count_digits (d :: s) = count_digits s.
Proof.
  intros H. unfold count_digits. rewrite filter_cons_False; [done|]. by rewrite H.
Qed.

Lemma last_default_irrelevant (l : str) x d d' :
  List.last (x :: l) d = List.last (x :: l) d'.
Proof. revert x. induction l as [|y l IH]; intros x; [done|]. apply (IH y). Qed.

Lemma last_cons_default (l : str) x d :
  List.last l x = List.last (x :: l) d.
Proof.
  destruct l as [|y l]; [done|].
  transitivity (List.last (y :: l) d); [apply last_default_irrelevant | done].
Qed.

Lemma scan_digits_spec s : forall prev n acc prev' n' acc' rest,
  scan_digits s prev n acc = Some (prev', n', acc', rest) ->
  exists run, s = run ++ rest /\ scanned prev run
              /\ n' = n + N.of_nat (count_digits run)
              /\ prev' = List.last run prev.
Proof.
  induction s as [|c s IH]; intros prev n acc prev' n' acc' rest; simpl.
  { intros [= <- <- <- <-]. exists [].
    split_and!; [done | constructor | rewrite count_digits_nil; lia | done]. }
  destruct (c =? underscore) eqn:Hu.
  - apply N.eqb_eq in Hu as ->.
    destruct (prev =? underscore) eqn:Hp; [discriminate|]. apply N.eqb_neq in Hp.
    intros H. destruct (IH _ _ _ _ _ _ _ H) as (run & -> & Hrun & -> & ->).
    exists (underscore :: run). split_and!.
    + done.
    + by apply scanned_underscore.
    + by rewrite count_digits_cons_other.
    + apply last_cons_default.
  - destruct (ascii_digit c) eqn:Hd.
    + intros H. destruct (IH _ _ _ _ _ _ _ H) as (run & -> & Hrun & -> & ->).
      exists (c :: run). split_and!.
      * done.
      * by apply scanned_digit.
      * rewrite count_digits_cons_digit by done. lia.
      * apply last_cons_default.
    + intros [= <- <- <- <-]. exists [].
      split_and!; [done | constructor | rewrite count_digits_nil; lia | done].
Qed.

(** A scanned run that is not empty, does not start after an
    underscore and does not end in one is a run of digits. *)
Lemma scanned_digit_run run : forall prev,
  scanned prev run -> run <> [] ->
  (forall s, run = underscore :: s -> False) ->
  List.last run prev <> underscore -> digit_run run.
Proof.
  induction run as [run IH] using (induction_ltof1 _ (@length N)); unfold ltof in IH.
  intros prev Hs Hne Hhd Hlast. inversion Hs as [|? d s Hd Hs'|]; subst; [done| |].
  2:{ exfalso. by eapply Hhd. }
  destruct s as [|x s]; [by constructor|].
  inversion Hs' as [|? d' s' Hd' Hs''|? s' Hp Hs'']; subst.
  - apply run_more; [done|]. eapply (IH (x :: s)); [simpl; lia|exact Hs'|done| |].
    + intros s' [= -> _]. by rewrite underscore_not_digit in Hd'.
    + by rewrite (last_default_irrelevant s x d prev).
  - destruct s as [|y s].
    { exfalso. by apply Hlast. }
    apply run_underscore; [done|].
    eapply (IH (y :: s)); [simpl; lia|exact Hs''|done| |].
    + intros s' [= -> _]. inversion Hs''; subst; [by rewrite underscore_not_digit in *|done].
    + by rewrite (last_default_irrelevant s y underscore prev).
Qed.

Lemma digit_run_nonempty run : digit_run run -> run <> [].
Proof. by destruct 1. Qed.

Lemma digit_run_head run : digit_run run -> exists d s, run = d :: s /\ ascii_digit d = true.
Proof. destruct 1; eauto. Qed.

Lemma scan_digits_digit d s prev n acc :
  ascii_digit d = true ->
  scan_digits (d :: s) prev n acc
  = scan_digits s d (n + 1) (acc * 10 + Z.of_N (d - 48))%Z.
Proof. intros Hd. simpl. by rewrite (ascii_digit_not_underscore d Hd), Hd. Qed.

Lemma scan_digits_underscore s prev n acc :
  prev <> underscore ->
  scan_digits (underscore :: s) prev n acc = scan_digits s underscore n acc.
Proof.
  intros Hp. apply N.eqb_neq in Hp.
  change (scan_digits (underscore :: s) prev n acc)
    with (if prev =? underscore then None else scan_digits s underscore n acc).
  by rewrite Hp.
Qed.

Lemma scan_digits_stop tail prev n acc :
  (forall c t, tail = c :: t -> ascii_digit c = false /\ c <> underscore) ->
  scan_digits tail prev n acc = Some (prev, n, acc, tail).
Proof.
  destruct tail as [|c t]; intros Htail; simpl; [done|].
  destruct (Htail c t eq_refl) as [Hc Hu]. apply N.eqb_neq in Hu. by rewrite Hu, Hc.
Qed.

(** The scan reads a run of digits to its end. *)
Lemma scan_digits_run run : digit_run run ->
  forall prev n acc tail,
  (forall c t, tail = c :: t -> ascii_digit c = false /\ c <> underscore) ->
  exists prev' acc',
    scan_digits (run ++ tail) prev n acc
    = Some (prev', n + N.of_nat (count_digits run), acc', tail)
    /\ prev' <> underscore.
Proof.
  induction 1 as [d Hd|d s Hd Hs IH|d s Hd Hs IH]; intros prev n acc tail Htail.
  - change ([d] ++ tail) with (d :: tail).
    rewrite scan_digits_digit, scan_digits_stop by done.
    rewrite count_digits_cons_digit, count_digits_nil by done.
    eexists _, _. split; [f_equal; f_equal; f_equal; f_equal; lia|].
    intros ->. by rewrite underscore_not_digit in Hd.
  - change ((d :: s) ++ tail) with (d :: (s ++ tail)).
    rewrite scan_digits_digit by done.
    destruct (IH d (n + 1) (acc * 10 + Z.of_N (d - 48))%Z tail Htail) as (p & a & -> & Hp).
    rewrite count_digits_cons_digit by done.
    eexists _, _. split; [f_equal; f_equal; f_equal; f_equal; lia|done].
  - change ((d :: underscore :: s) ++ tail) with (d :: underscore :: (s ++ tail)).
    rewrite scan_digits_digit by done.
    rewrite scan_digits_underscore
      by (intros ->; by rewrite underscore_not_digit in Hd).
    destruct (IH underscore (n + 1) (acc * 10 + Z.of_N (d - 48))%Z tail Htail) as (p & a & -> & Hp).
    rewrite count_digits_cons_digit, count_digits_cons_other by done.
    eexists _, _. split; [f_equal; f_equal; f_equal; f_equal; lia|done].
Qed.

Lemma space_not_digit c : Py_ISSPACE c = true -> ascii_digit c = false /\ c <> underscore.
Proof. unfold Py_ISSPACE, ascii_digit, underscore, ord; simpl. cmp_cases. Qed.

Lemma spaces_stop ws :
  Forall is_space ws ->
  forall c t, ws = c :: t -> ascii_digit c = false /\ c <> underscore.
Proof. intros H c t ->. inversion H; subst. by apply space_not_digit. Qed.


Lemma PyLong_FromString_unfold buffer :
  PyLong_FromString buffer
  = match skip_space buffer with
    | c :: s' => if c =? ord "+" then parse_unsigned 1 s'
                 else if c =? ord "-" then parse_unsigned (-1) s'
                 else parse_unsigned 1 (c :: s')
    | [] => Raise invalid_literal
    end.
Proof.
  unfold PyLong_FromString, parse_unsigned.
  destruct (skip_space buffer) as [|c s']; [done|].
  destruct (c =? ord "+"); [done|]. by destruct (c =? ord "-").
Qed.

Lemma parse_unsigned_sound sign s z :
  parse_unsigned sign s = Ok z ->
  exists run ws2, s = run ++ ws2 /\ digit_run run
                  /\ N.of_nat (count_digits run) <= 4300 /\ Forall is_space ws2.
Proof.
  unfold parse_unsigned. destruct s as [|c s']; [done|].
  destruct (c =? underscore) eqn:Hc; [done|]. apply N.eqb_neq in Hc.
  destruct (scan_digits _ _ _ _) as [[[[prev digits] acc] rest]|] eqn:Hscan; [|done].
  destruct (prev =? underscore) eqn:Hprev; [done|]. apply N.eqb_neq in Hprev.
  destruct (_ && _) eqn:Hlim; [done|].
  destruct (length rest =? length (c :: s'))%nat eqn:Hlen; [done|].
  apply Nat.eqb_neq in Hlen.
  destruct (skip_space rest) eqn:Hrest; [|done]. intros _.
  destruct (scan_digits_spec _ _ _ _ _ _ _ _ Hscan) as (run & Hs & Hrun & -> & ->).
  exists run, rest. split_and!.
  - done.
  - eapply scanned_digit_run; [exact Hrun| | |done].
    + intros ->. by rewrite Hs in Hlen.
    + intros t ->. by injection Hs as ->.
  - unfold PY_LONG_MAX_STR_DIGITS_THRESHOLD, int_max_str_digits in Hlim.
    cmp_hyp Hlim; lia.
  - by apply skip_space_nil.
Qed.

Lemma ascii_digit_range d : ascii_digit d = true -> 48 <= d <= 57.
Proof. unfold ascii_digit. cmp_cases. Qed.

Lemma parse_unsigned_complete sign run ws2 :
  digit_run run -> N.of_nat (count_digits run) <= 4300 -> Forall is_space ws2 ->
  exists z, parse_unsigned sign (run ++ ws2) = Ok z.
Proof.
  intros Hrun Hcount Hws.
  destruct (scan_digits_run _ Hrun 0 0 0%Z ws2 (spaces_stop _ Hws))
    as (prev & acc & Hscan & Hprev).
  destruct (digit_run_head _ Hrun) as (d & t & -> & Hdig).
  unfold parse_unsigned.
  change ((d :: t) ++ ws2) with (d :: (t ++ ws2)) in *. cbv beta iota.
  rewrite (ascii_digit_not_underscore d Hdig), Hscan.
  apply N.eqb_neq in Hprev. rewrite Hprev.
  unfold PY_LONG_MAX_STR_DIGITS_THRESHOLD, int_max_str_digits.
  replace (4300 <? 0 + N.of_nat (count_digits (d :: t))) with false
    by (symmetry; apply N.ltb_ge; lia).
  rewrite andb_false_r.
  replace (length ws2 =? length (d :: t ++ ws2))%nat with false.
  2:{ symmetry. apply Nat.eqb_neq. simpl. rewrite length_app. lia. }
  rewrite skip_space_all_nil by done. eauto.
Qed.

Theorem PyLong_FromString_literal buffer :
  (exists z, PyLong_FromString buffer = Ok z) <-> int_literal buffer.
Proof.
  rewrite PyLong_FromString_unfold. split.
  - intros [z Hz]. destruct (skip_space_split buffer) as (ws1 & Hb & Hws1).
    destruct (skip_space buffer) as [|c s'] eqn:Hskip; [done|].
    destruct (c =? ord "+") eqn:Hplus; [|destruct (c =? ord "-") eqn:Hminus].
    + apply N.eqb_eq in Hplus as ->.
      destruct (parse_unsigned_sound _ _ _ Hz) as (run & ws2 & -> & ? & ? & ?).
      exists ws1, [ord "+"], run, ws2. split_and!; auto.
    + apply N.eqb_eq in Hminus as ->.
      destruct (parse_unsigned_sound _ _ _ Hz) as (run & ws2 & -> & ? & ? & ?).
      exists ws1, [ord "-"], run, ws2. split_and!; auto.
    + destruct (parse_unsigned_sound _ _ _ Hz) as (run & ws2 & Hs & ? & ? & ?).
      exists ws1, [], run, ws2. rewrite Hb, Hs. split_and!; auto.
  - intros (ws1 & sign & run & ws2 & -> & Hws1 & Hsign & Hrun & Hcount & Hws2).
    rewrite skip_space_all by done.
    destruct Hsign as [-> | [-> | ->]].
    + destruct (parse_unsigned_complete 1 run ws2 Hrun Hcount Hws2) as [z Hz].
      destruct (digit_run_head _ Hrun) as (d & t & -> & Hdig).
      pose proof (ascii_digit_range d Hdig) as Hd.
      change ([] ++ (d :: t) ++ ws2) with (d :: (t ++ ws2)).
      change ((d :: t) ++ ws2) with (d :: (t ++ ws2)) in Hz.
      rewrite skip_space_stop by by apply ascii_digit_not_space.
      replace (d =? ord "+") with false
        by (symmetry; apply N.eqb_neq; unfold ord; simpl; lia).
      replace (d =? ord "-") with false
        by (symmetry; apply N.eqb_neq; unfold ord; simpl; lia).
      eauto.
    + change ([ord "+"] ++ run ++ ws2) with (ord "+" :: (run ++ ws2)).
      rewrite skip_space_stop by done.
      by apply parse_unsigned_complete.
    + change ([ord "-"] ++ run ++ ws2) with (ord "-" :: (run ++ ws2)).
      rewrite skip_space_stop by done.
      by apply parse_unsigned_complete.
Qed.

Lemma int_literal_iff s :
  (exists z, int s = Ok z) <-> int_literal (TransformDecimalAndSpaceToASCII s).
Proof. apply PyLong_FromString_literal. Qed.

Lemma strip_nil : strip [] = [].
Proof. reflexivity. Qed.

(** Rule 2 of the source in terms of the literals [int] reads. *)
Lemma id_ok_iff no :
  id_ok no = true
  <-> strip no <> [] /\ int_literal (TransformDecimalAndSpaceToASCII no).
Proof.
  unfold id_ok. rewrite <- int_literal_iff.
  rewrite !andb_true_iff, !negb_true_iff, !bool_decide_eq_false.
  split.
  - intros [[_ Hstrip] Hint]. split; [done|].
    destruct (int no); [eauto | done].
  - intros [Hstrip [z Hz]]. rewrite Hz. split_and!; [|done..].
    intros ->. by apply Hstrip.
Qed.

(** When the id passes, no later rule gives the id reason. *)
Lemma first_failure_id no name day :
  first_failure rules [no; name; day] = Some id_null_or_nonint
  <-> id_ok no = false.
Proof.
  simpl. destruct (id_ok no); [|done].
  split; [|done]. by repeat case_match.
Qed.

(** A row that fails no rule is accepted. *)
Lemma validate_accepted line row :
  csv_reader_next line = Ok row -> first_failure rules row = None ->
  App.validate_csv_row line = Ok App.accepted.
Proof.
  intros Hrow Hnone. unfold App.validate_csv_row, App.validate_body.
  rewrite Hrow, bind_Ok.
  destruct row as [|no [|name [|day [|x row]]]]; try done.
  simpl in Hnone. unfold id_ok, label_ok, date_format_ok, date_valid in Hnone.
  cbn [length Nat.eqb negb].
  destruct (bool_decide (no = [])); [done|].
  destruct (bool_decide (strip no = [])); [done|]. simpl in *.
  destruct (int no); [|done]. simpl in *.
  destruct (20 <? len name); [done|]. simpl in *.
  destruct (re_match date_pattern day); [|done]. simpl in *.
  by destruct (strptime day).
Qed.

(** ** Decimal digits *)

Lemma decimal_in_Some zs c v :
  decimal_in zs c = Some v -> exists z, z ∈ zs /\ z <= c <= z + 9 /\ v = c - z.
Proof.
  induction zs as [|z zs IH]; simpl; [done|].
  destruct ((z <=? c) && (c <=? z + 9)) eqn:Hz.
  - intros [= <-]. exists z. apply andb_true_iff in Hz as [H1%N.leb_le H2%N.leb_le].
    split_and!; [left|done|done|done].
  - intros (z' & Hin & H)%IH. exists z'. split; [by right|done].
Qed.

Lemma TODECIMAL_spec c v :
  Py_UNICODE_TODECIMAL c = Some v ->
  v <= 9 /\ Py_UNICODE_ISSPACE c = false
  /\ (c < 128 -> 48 <= c <= 57 /\ v = c - 48).
Proof.
  intros (z & Hin & Hc & ->)%decimal_in_Some. split_and!.
  - lia.
  - assert (digits_not_space = true) as Hall by by vm_compute.
    unfold digits_not_space in Hall. rewrite forallb_forall in Hall.
    apply list_elem_of_In in Hin. specialize (Hall z Hin).
    rewrite forallb_forall in Hall.
    assert (In (c - z) [0; 1; 2; 3; 4; 5; 6; 7; 8; 9]) as Hk.
    { assert (c - z = 0 \/ c - z = 1 \/ c - z = 2 \/ c - z = 3 \/ c - z = 4
              \/ c - z = 5 \/ c - z = 6 \/ c - z = 7 \/ c - z = 8 \/ c - z = 9)
        as Hd by lia.
      simpl. intuition auto. }
    specialize (Hall _ Hk). apply negb_true_iff in Hall.
    by replace (z + (c - z)) with c in Hall by lia.
  - intros Hlt.
    assert (zeros_apart = true) as Hall by by vm_compute.
    unfold zeros_apart in Hall. rewrite forallb_forall in Hall.
    apply list_elem_of_In in Hin. specialize (Hall z Hin).
    apply orb_true_iff in Hall as [->%N.eqb_eq|Hz%N.leb_le]; lia.
Qed.

Lemma ascii_digit_TODECIMAL c :
  ascii_digit c = true -> Py_UNICODE_TODECIMAL c = Some (c - 48).
Proof.
  unfold ascii_digit, Py_UNICODE_TODECIMAL, decimal_zeros. cbn [decimal_in].
  change (48 + 9) with 57. by intros ->.
Qed.

(** ** [int] on a run of decimal digits *)

Lemma transform_loop_digits s vs :
  Forall2 (fun c v => Py_UNICODE_TODECIMAL c = Some v) s vs ->
  transform_loop s = map (fun v => 48 + v) vs.
Proof.
  induction 1 as [|c v s vs Hc _ IH]; simpl; [done|].
  destruct (TODECIMAL_spec _ _ Hc) as (Hv & Hsp & Hascii).
  rewrite IH, Hsp, Hc.
  destruct (c <? 127) eqn:E; [|done].
  apply N.ltb_lt in E. destruct Hascii as [? ->]; [lia|].
  f_equal. lia.
Qed.

Lemma transform_digits s vs :
  Forall2 (fun c v => Py_UNICODE_TODECIMAL c = Some v) s vs ->
  TransformDecimalAndSpaceToASCII s = map (fun v => 48 + v) vs.
Proof.
  intros H. unfold TransformDecimalAndSpaceToASCII.
  destruct (forallb (fun c => c <? 128) s) eqn:Hall;
    [|by apply transform_loop_digits].
  induction H as [|c v s vs Hc _ IH]; simpl in *; [done|].
  apply andb_true_iff in Hall as [Hlt%N.ltb_lt Hall].
  destruct (TODECIMAL_spec _ _ Hc) as (_ & _ & Hascii).
  destruct (Hascii Hlt) as [? ->]. rewrite IH by done. f_equal. lia.
Qed.

Lemma scan_digits_values vs : forall prev n acc,
  Forall (fun v => v <= 9) vs ->
  exists prev',
    scan_digits (map (fun v => 48 + v) vs) prev n acc
    = Some (prev', n + N.of_nat (length vs),
            fold_left (fun acc v => acc * 10 + Z.of_N v)%Z vs acc, [])
    /\ (vs = [] /\ prev' = prev \/ ascii_digit prev' = true).
Proof.
  induction vs as [|v vs IH]; intros prev n acc Hall.
  { simpl. exists prev. rewrite N.add_0_r. split; [done|by left]. }
  apply Forall_cons in Hall as [Hv Hall].
  assert (ascii_digit (48 + v) = true) as Hd.
  { unfold ascii_digit. apply andb_true_iff. split; apply N.leb_le; lia. }
  cbn [map length fold_left].
  rewrite scan_digits_digit by done.
  destruct (IH (48 + v) (n + 1) (acc * 10 + Z.of_N (48 + v - 48))%Z Hall)
    as (prev' & Hscan & Hprev).
  replace (48 + v - 48) with v in Hscan by lia.
  replace (n + 1 + N.of_nat (length vs)) with (n + N.of_nat (S (length vs)))
    in Hscan by lia.
  exists prev'. split; [by replace (48 + v - 48) with v by lia|].
  right. by destruct Hprev as [[_ ->]|].
Qed.

Lemma PyLong_FromString_digits vs :
  vs <> [] -> Forall (fun v => v <= 9) vs -> (length vs <= 640)%nat ->
  PyLong_FromString (map (fun v => 48 + v) vs) = Ok (digits_value vs).
Proof.
  intros Hne Hall Hlen. destruct vs as [|v vs]; [done|]. clear Hne.
  rewrite PyLong_FromString_unfold.
  pose proof Hall as Hall'. apply Forall_cons in Hall' as [Hv _].
  assert (ascii_digit (48 + v) = true) as Hd.
  { unfold ascii_digit. apply andb_true_iff. split; apply N.leb_le; lia. }
  simpl map. rewrite skip_space_stop by by apply ascii_digit_not_space.
  assert ((48 + v =? ord "+") = false) as -> by (apply N.eqb_neq; cbn; lia).
  assert ((48 + v =? ord "-") = false) as -> by (apply N.eqb_neq; cbn; lia).
  unfold parse_unsigned.
  rewrite (ascii_digit_not_underscore _ Hd).
  destruct (scan_digits_values (v :: vs) 0 0 0%Z Hall) as (prev' & Hscan & Hprev).
  simpl map in Hscan. rewrite Hscan.
  destruct Hprev as [[? _]|Hprev]; [done|].
  rewrite (ascii_digit_not_underscore _ Hprev).
  assert ((PY_LONG_MAX_STR_DIGITS_THRESHOLD <? 0 + N.of_nat (length (v :: vs)))
          = false) as ->.
  { apply N.ltb_ge. unfold PY_LONG_MAX_STR_DIGITS_THRESHOLD. lia. }
  simpl. unfold digits_value. f_equal. simpl.
  destruct (fold_left _ vs _); done.
Qed.

Lemma int_digits s vs :
  Forall2 (fun c v => Py_UNICODE_TODECIMAL c = Some v) s vs ->
  s <> [] -> (length s <= 640)%nat ->
  int s = Ok (digits_value vs).
Proof.
  intros H Hne Hlen. unfold int. rewrite (transform_digits _ _ H).
  apply Forall2_length in H as Hl.
  apply PyLong_FromString_digits.
  - intros ->. by destruct s.
  - clear -H. induction H as [|c v s vs Hc _ IH]; constructor; [|done].
    by destruct (TODECIMAL_spec _ _ Hc).
  - lia.
Qed.

(** ** The regular expression of [strptime] on [dddd/dd/dd] *)

Lemma ISDECIMAL_TODECIMAL c :
  Py_UNICODE_ISDECIMAL c = true -> exists v, Py_UNICODE_TODECIMAL c = Some v.
Proof. unfold Py_UNICODE_ISDECIMAL. destruct (Py_UNICODE_TODECIMAL c); eauto; done. Qed.

Lemma ISDECIMAL_ascii c :
  Py_UNICODE_ISDECIMAL c = true -> c < 128 -> 48 <= c <= 57.
Proof.
  intros [v Hv]%ISDECIMAL_TODECIMAL Hlt.
  destruct (TODECIMAL_spec _ _ Hv) as (_ & _ & H). by destruct (H Hlt).
Qed.

Lemma take_consumed {A} (p s : list A) :
  take (length (p ++ s) - length s) (p ++ s) = p.
Proof.
  rewrite length_app. replace (length p + length s - length s)%nat
    with (length p) by lia.
  by rewrite take_app_length.
Qed.

Lemma year_group {A} y1 y2 y3 y4 s g (k : str -> groups -> option A) :
  backtrack (Group "Y" (Digit · Digit · Digit · Digit)) (y1 :: y2 :: y3 :: y4 :: s) g k
  = if Py_UNICODE_ISDECIMAL y1 && Py_UNICODE_ISDECIMAL y2
       && Py_UNICODE_ISDECIMAL y3 && Py_UNICODE_ISDECIMAL y4
    then k s (("Y"%char, [y1; y2; y3; y4]) :: g) else None.
Proof.
  cbn [backtrack].
  destruct (Py_UNICODE_ISDECIMAL y1); [|done].
  destruct (Py_UNICODE_ISDECIMAL y2); [|done].
  destruct (Py_UNICODE_ISDECIMAL y3); [|done].
  destruct (Py_UNICODE_ISDECIMAL y4); [|done].
  pose proof (take_consumed [y1; y2; y3; y4] s) as Ht. cbn [app] in Ht.
  cbn [andb]. by rewrite Ht.
Qed.

Lemma month_group {A} m1 m2 s g (k : str -> groups -> option A) :
  (forall g', k (m2 :: s) g' = None) ->
  backtrack (Group "m" month_re) (m1 :: m2 :: s) g k
  = if month_ok m1 m2 then k s (("m"%char, [m1; m2]) :: g) else None.
Proof.
  intros Hk. unfold month_re, month_ok, chr, rng.
  change (ord "1") with 49. change (ord "0") with 48.
  change (ord "2") with 50. change (ord "9") with 57.
  cbn [backtrack].
  pose proof (take_consumed [m1; m2] s) as Ht. cbn [app] in Ht.
  rewrite Ht, !Hk.
  destruct (m1 =? 49) eqn:E1; [apply N.eqb_eq in E1 as ->|].
  - change (49 =? 48) with false. cbn [andb orb].
    destruct ((48 <=? m2) && (m2 <=? 50)); [|done].
    by destruct (k s _).
  - cbn [andb orb].
    destruct (m1 =? 48) eqn:E2; cbn [andb orb].
    + destruct ((49 <=? m2) && (m2 <=? 57)); [|by destruct (_ && _)].
      destruct (k s _); [done|by destruct (_ && _)].
    + by destruct ((49 <=? m1) && (m1 <=? 57)).
Qed.

Ltac cmp_split :=
  repeat match goal with
  | |- context [N.eqb ?a ?b] => destruct (N.eqb_spec a b); try subst; try lia
  | |- context [N.leb ?a ?b] => destruct (N.leb_spec a b); try lia
  end.

Lemma day_group d1 d2 tail g :
  Py_UNICODE_ISDECIMAL d1 = true ->
  backtrack (Group "d" day_re) (d1 :: d2 :: tail) g (fun s' g' => Some (g', s'))
  = if day_ok d1 d2 then Some (("d"%char, [d1; d2]) :: g, tail)
    else if (49 <=? d1) && (d1 <=? 57)
         then Some (("d"%char, [d1]) :: g, d2 :: tail)
         else None.
Proof.
  intros Hd1.
  assert (d1 <> 32) as Hns by (intros ->; by vm_compute in Hd1).
  unfold day_re, day_ok, chr, rng.
  change (ord "1") with 49. change (ord "0") with 48.
  change (ord "2") with 50. change (ord "9") with 57.
  change (ord "3") with 51. change (ord " ") with 32.
  cbn [backtrack].
  pose proof (take_consumed [d1; d2] tail) as Ht2. cbn [app] in Ht2.
  pose proof (take_consumed [d1] (d2 :: tail)) as Ht1. cbn [app] in Ht1.
  rewrite Ht2, Ht1. clear Ht1 Ht2 Hd1.
  destruct (Py_UNICODE_ISDECIMAL d2); cmp_split; cbn [andb orb]; try done; lia.
Qed.

Lemma backtrack_Seq {A} r1 r2 s g (k : str -> groups -> option A) :
  backtrack (Seq r1 r2) s g k
  = backtrack r1 s g (fun s' g' => backtrack r2 s' g' k).
Proof. reflexivity. Qed.

Lemma backtrack_slash {A} c s g (k : str -> groups -> option A) :
  backtrack slash (c :: s) g k = if c =? 47 then k s g else None.
Proof. reflexivity. Qed.

Lemma ISDECIMAL_not_slash c : Py_UNICODE_ISDECIMAL c = true -> (c =? 47) = false.
Proof.
  intros Hc. apply N.eqb_neq. intros ->. by vm_compute in Hc.
Qed.

Lemma format_regex_match y1 y2 y3 y4 m1 m2 d1 d2 tail :
  Py_UNICODE_ISDECIMAL y1 = true -> Py_UNICODE_ISDECIMAL y2 = true ->
  Py_UNICODE_ISDECIMAL y3 = true -> Py_UNICODE_ISDECIMAL y4 = true ->
  Py_UNICODE_ISDECIMAL m2 = true -> Py_UNICODE_ISDECIMAL d1 = true ->
  re_match format_regex (y1 :: y2 :: y3 :: y4 :: 47 :: m1 :: m2 :: 47 :: d1 :: d2 :: tail)
  = if month_ok m1 m2 then
      if day_ok d1 d2 then
        Some ([("d"%char, [d1; d2]); ("m"%char, [m1; m2]);
               ("Y"%char, [y1; y2; y3; y4])], tail)
      else if (49 <=? d1) && (d1 <=? 57) then
        Some ([("d"%char, [d1]); ("m"%char, [m1; m2]);
               ("Y"%char, [y1; y2; y3; y4])], d2 :: tail)
      else None
    else None.
Proof.
  intros Hy1 Hy2 Hy3 Hy4 Hm2 Hd1. unfold re_match.
  change format_regex
    with (Group "Y" (Digit · Digit · Digit · Digit) · slash
          · Group "m" month_re · slash · Group "d" day_re)%re.
  rewrite !backtrack_Seq, year_group, Hy1, Hy2, Hy3, Hy4. cbn [andb].
  rewrite backtrack_slash. change (47 =? 47) with true. cbv beta iota.
  rewrite month_group.
  2:{ intros g'. by rewrite backtrack_slash, (ISDECIMAL_not_slash _ Hm2). }
  destruct (month_ok m1 m2); [|done].
  rewrite backtrack_slash. change (47 =? 47) with true. cbv beta iota.
  by rewrite day_group.
Qed.

Lemma strptime_fields y1 y2 y3 y4 m1 m2 d1 d2 vy1 vy2 vy3 vy4 vm1 vm2 vd1 vd2 :
  Py_UNICODE_TODECIMAL y1 = Some vy1 -> Py_UNICODE_TODECIMAL y2 = Some vy2 ->
  Py_UNICODE_TODECIMAL y3 = Some vy3 -> Py_UNICODE_TODECIMAL y4 = Some vy4 ->
  Py_UNICODE_TODECIMAL m1 = Some vm1 -> Py_UNICODE_TODECIMAL m2 = Some vm2 ->
  Py_UNICODE_TODECIMAL d1 = Some vd1 -> Py_UNICODE_TODECIMAL d2 = Some vd2 ->
  month_ok m1 m2 = true -> day_ok d1 d2 = true ->
  strptime [y1; y2; y3; y4; 47; m1; m2; 47; d1; d2]
  = check_date_fields (digits_value [vy1; vy2; vy3; vy4])
      (digits_value [vm1; vm2]) (digits_value [vd1; vd2]).
Proof.
  intros Hy1 Hy2 Hy3 Hy4 Hm1 Hm2 Hd1 Hd2 Hm Hd.
  assert (forall c v, Py_UNICODE_TODECIMAL c = Some v ->
                      Py_UNICODE_ISDECIMAL c = true) as Hdec.
  { intros c v H. unfold Py_UNICODE_ISDECIMAL. by rewrite H. }
  unfold strptime. rewrite format_regex_match, Hm, Hd by eauto.
  cbn [length Nat.eqb negb].
  change (group "Y" _) with [y1; y2; y3; y4].
  change (group "m" _) with [m1; m2].
  change (group "d" _) with [d1; d2].
  rewrite (int_digits [y1; y2; y3; y4] [vy1; vy2; vy3; vy4]);
    [|by repeat constructor|done|simpl; lia].
  rewrite bind_Ok.
  rewrite (int_digits [m1; m2] [vm1; vm2]);
    [|by repeat constructor|done|simpl; lia].
  rewrite bind_Ok.
  rewrite (int_digits [d1; d2] [vd1; vd2]);
    [|by repeat constructor|done|simpl; lia].
  by rewrite bind_Ok.
Qed.

Lemma strptime_mismatch y1 y2 y3 y4 m1 m2 d1 d2 tail :
  Py_UNICODE_ISDECIMAL y1 = true -> Py_UNICODE_ISDECIMAL y2 = true ->
  Py_UNICODE_ISDECIMAL y3 = true -> Py_UNICODE_ISDECIMAL y4 = true ->
  Py_UNICODE_ISDECIMAL m2 = true -> Py_UNICODE_ISDECIMAL d1 = true ->
  month_ok m1 m2 && day_ok d1 d2 && bool_decide (tail = []) = false ->
  is_ok (strptime (y1 :: y2 :: y3 :: y4 :: 47 :: m1 :: m2 :: 47 :: d1 :: d2 :: tail))
  = false.
Proof.
  intros Hy1 Hy2 Hy3 Hy4 Hm2 Hd1 Hbad.
  unfold strptime. rewrite format_regex_match by done.
  destruct (month_ok m1 m2); [|done].
  destruct (day_ok d1 d2).
  - destruct tail; [done|]. done.
  - by destruct ((49 <=? d1) && (d1 <=? 57)).
Qed.

(** ** The pattern of the validator *)

Lemma date_pattern_shape day :
  date_format_ok day = true
  <-> exists y1 y2 y3 y4 m1 m2 d1 d2 tail,
        day = y1 :: y2 :: y3 :: y4 :: 47 :: m1 :: m2 :: 47 :: d1 :: d2 :: tail
        /\ (tail = [] \/ tail = [LF])
        /\ Py_UNICODE_ISDECIMAL y1 = true /\ Py_UNICODE_ISDECIMAL y2 = true
        /\ Py_UNICODE_ISDECIMAL y3 = true /\ Py_UNICODE_ISDECIMAL y4 = true
        /\ Py_UNICODE_ISDECIMAL m1 = true /\ Py_UNICODE_ISDECIMAL m2 = true
        /\ Py_UNICODE_ISDECIMAL d1 = true /\ Py_UNICODE_ISDECIMAL d2 = true.
Proof.
  unfold date_format_ok, re_match, date_pattern, slash.
  change (ord "/") with 47. split.
  - cbn [backtrack].
    destruct day as [|y1 day]; [done|].
    destruct (Py_UNICODE_ISDECIMAL y1) eqn:Hy1; [|done].
    destruct day as [|y2 day]; [done|].
    destruct (Py_UNICODE_ISDECIMAL y2) eqn:Hy2; [|done].
    destruct day as [|y3 day]; [done|].
    destruct (Py_UNICODE_ISDECIMAL y3) eqn:Hy3; [|done].
    destruct day as [|y4 day]; [done|].
    destruct (Py_UNICODE_ISDECIMAL y4) eqn:Hy4; [|done].
    destruct day as [|s1 day]; [done|].
    destruct (N.eqb_spec s1 47) as [->|]; [|done].
    destruct day as [|m1 day]; [done|].
    destruct (Py_UNICODE_ISDECIMAL m1) eqn:Hm1; [|done].
    destruct day as [|m2 day]; [done|].
    destruct (Py_UNICODE_ISDECIMAL m2) eqn:Hm2; [|done].
    destruct day as [|s2 day]; [done|].
    destruct (N.eqb_spec s2 47) as [->|]; [|done].
    destruct day as [|d1 day]; [done|].
    destruct (Py_UNICODE_ISDECIMAL d1) eqn:Hd1; [|done].
    destruct day as [|d2 day]; [done|].
    destruct (Py_UNICODE_ISDECIMAL d2) eqn:Hd2; [|done].
    intros Hend. exists y1, y2, y3, y4, m1, m2, d1, d2, day.
    split_and!; try done.
    destruct day as [|c [|??]]; [by left| |done].
    destruct (N.eqb_spec c LF) as [->|]; [by right|done].
  - intros (y1 & y2 & y3 & y4 & m1 & m2 & d1 & d2 & tail & -> & Htail
            & Hy1 & Hy2 & Hy3 & Hy4 & Hm1 & Hm2 & Hd1 & Hd2).
    cbn [backtrack]. rewrite Hy1, Hy2, Hy3, Hy4, Hm1, Hm2, Hd1, Hd2.
    by destruct Htail as [-> | ->].
Qed.

(** ** The calendar *)

Lemma days_in_month_le y m : (days_in_month y m <= 31)%Z.
Proof.
  unfold days_in_month, DAYS_IN_MONTH.
  repeat case_match; lia.
Qed.

Lemma check_date_fields_ok y m d :
  check_date_fields y m d
  = if calendar_date (y, m, d) then Ok (y, m, d) else check_date_fields y m d.
Proof.
  unfold check_date_fields, calendar_date, MINYEAR, MAXYEAR.
  destruct (1 <=? y)%Z, (y <=? 9999)%Z, (1 <=? m)%Z, (m <=? 12)%Z,
    (1 <=? d)%Z, (d <=? days_in_month y m)%Z; done.
Qed.

Lemma check_date_fields_is_ok y m d :
  is_ok (check_date_fields y m d) = calendar_date (y, m, d).
Proof.
  unfold check_date_fields, calendar_date, MINYEAR, MAXYEAR.
  destruct (1 <=? y)%Z, (y <=? 9999)%Z, (1 <=? m)%Z, (m <=? 12)%Z,
    (1 <=? d)%Z, (d <=? days_in_month y m)%Z; done.
Qed.

(** ** The two date rules *)

Lemma ascii_digit_iff c : ascii_digit c = true <-> 48 <= c <= 57.
Proof.
  unfold ascii_digit. rewrite andb_true_iff, !N.leb_le. done.
Qed.

Lemma TODECIMAL_ISDECIMAL c v :
  Py_UNICODE_TODECIMAL c = Some v -> Py_UNICODE_ISDECIMAL c = true.
Proof. intros H. unfold Py_UNICODE_ISDECIMAL. by rewrite H. Qed.

Lemma date_fields_inv day f :
  date_fields day = Some f ->
  exists y1 y2 y3 y4 m1 m2 d1 d2 vy1 vy2 vy3 vy4 vd2,
    day = [y1; y2; y3; y4; 47; m1; m2; 47; d1; d2]
    /\ 48 <= m1 <= 57 /\ 48 <= m2 <= 57 /\ 48 <= d1 <= 57
    /\ (48 <= d2 <= 57 \/ d1 = 49 \/ d1 = 50)
    /\ Py_UNICODE_TODECIMAL y1 = Some vy1 /\ Py_UNICODE_TODECIMAL y2 = Some vy2
    /\ Py_UNICODE_TODECIMAL y3 = Some vy3 /\ Py_UNICODE_TODECIMAL y4 = Some vy4
    /\ Py_UNICODE_TODECIMAL d2 = Some vd2
    /\ f = (digits_value [vy1; vy2; vy3; vy4],
            digits_value [m1 - 48; m2 - 48],
            digits_value [d1 - 48; vd2]).
Proof.
  unfold date_fields.
  destruct day as [|y1 [|y2 [|y3 [|y4 [|s1 [|m1 [|m2 [|s2 [|d1 [|d2 [|??]]]]]]]]]]];
    try done.
  change (ord "/") with 47. change (ord "1") with 49. change (ord "2") with 50.
  destruct (N.eqb_spec s1 47) as [->|]; [|done].
  destruct (N.eqb_spec s2 47) as [->|]; [|done].
  cbn [andb].
  destruct (ascii_digit m1) eqn:Hm1; [|done].
  destruct (ascii_digit m2) eqn:Hm2; [|done].
  destruct (ascii_digit d1) eqn:Hd1; [|done].
  cbn [andb].
  destruct (ascii_digit d2 || (d1 =? 49) || (d1 =? 50)) eqn:Hd2; [|done].
  destruct (Py_UNICODE_TODECIMAL y1) as [vy1|] eqn:Hy1; [|done].
  destruct (Py_UNICODE_TODECIMAL y2) as [vy2|] eqn:Hy2; [|done].
  destruct (Py_UNICODE_TODECIMAL y3) as [vy3|] eqn:Hy3; [|done].
  destruct (Py_UNICODE_TODECIMAL y4) as [vy4|] eqn:Hy4; [|done].
  destruct (Py_UNICODE_TODECIMAL d2) as [vd2|] eqn:Hvd2; [|done].
  intros [= <-].
  exists y1, y2, y3, y4, m1, m2, d1, d2, vy1, vy2, vy3, vy4, vd2.
  apply ascii_digit_iff in Hm1, Hm2, Hd1.
  split; [done|]. split; [done|]. split; [done|]. split; [done|].
  split; [|done].
  apply orb_true_iff in Hd2 as [Hd2|Hd2%N.eqb_eq]; [|right; by right].
  apply orb_true_iff in Hd2 as [Hd2%ascii_digit_iff|Hd2%N.eqb_eq];
    [by left|right; by left].
Qed.

Lemma date_fields_intro y1 y2 y3 y4 m1 m2 d1 d2 vy1 vy2 vy3 vy4 vd2 :
  48 <= m1 <= 57 -> 48 <= m2 <= 57 -> 48 <= d1 <= 57 ->
  (48 <= d2 <= 57 \/ d1 = 49 \/ d1 = 50) ->
  Py_UNICODE_TODECIMAL y1 = Some vy1 -> Py_UNICODE_TODECIMAL y2 = Some vy2 ->
  Py_UNICODE_TODECIMAL y3 = Some vy3 -> Py_UNICODE_TODECIMAL y4 = Some vy4 ->
  Py_UNICODE_TODECIMAL d2 = Some vd2 ->
  date_fields [y1; y2; y3; y4; 47; m1; m2; 47; d1; d2]
  = Some (digits_value [vy1; vy2; vy3; vy4],
          digits_value [m1 - 48; m2 - 48],
          digits_value [d1 - 48; vd2]).
Proof.
  intros Hm1%ascii_digit_iff Hm2%ascii_digit_iff Hd1%ascii_digit_iff Hd2
         Hy1 Hy2 Hy3 Hy4 Hvd2.
  unfold date_fields.
  change (ord "/") with 47. change (ord "1") with 49. change (ord "2") with 50.
  change (47 =? 47) with true.
  rewrite Hm1, Hm2, Hd1, Hy1, Hy2, Hy3, Hy4, Hvd2. cbn [andb].
  assert (ascii_digit d2 || (d1 =? 49) || (d1 =? 50) = true) as ->; [|done].
  rewrite !orb_true_iff, ascii_digit_iff, !N.eqb_eq. tauto.
Qed.

Lemma month_ok_iff m1 m2 :
  48 <= m1 <= 57 -> 48 <= m2 <= 57 ->
  month_ok m1 m2 = true
  <-> (1 <= digits_value [(m1 - 48)%N; (m2 - 48)%N] <= 12)%Z.
Proof.
  intros H1 H2. unfold month_ok, digits_value. cbn [fold_left].
  rewrite orb_true_iff, !andb_true_iff, !N.eqb_eq, !N.leb_le. lia.
Qed.

Lemma day_ok_bound d1 d2 vd2 :
  48 <= d1 <= 57 -> (48 <= d2 <= 57 \/ d1 = 49 \/ d1 = 50) ->
  Py_UNICODE_TODECIMAL d2 = Some vd2 ->
  day_ok d1 d2 = true <-> (1 <= digits_value [(d1 - 48)%N; vd2] <= 31)%Z.
Proof.
  intros H1 H2 Hv.
  destruct (TODECIMAL_spec _ _ Hv) as (Hle & _ & Hascii).
  unfold day_ok, digits_value. cbn [fold_left].
  rewrite (TODECIMAL_ISDECIMAL _ _ Hv).
  rewrite !orb_true_iff, !andb_true_iff, !N.eqb_eq, !N.leb_le.
  destruct H2 as [H2|H2]; [|lia].
  destruct Hascii as [_ ->]; lia.
Qed.

Lemma date_fields_format day f :
  date_fields day = Some f -> date_format_ok day = true.
Proof.
  intros (y1 & y2 & y3 & y4 & m1 & m2 & d1 & d2 & vy1 & vy2 & vy3 & vy4 & vd2
          & -> & Hm1 & Hm2 & Hd1 & _ & Hy1 & Hy2 & Hy3 & Hy4 & Hvd2 & _)%date_fields_inv.
  apply date_pattern_shape.
  exists y1, y2, y3, y4, m1, m2, d1, d2, [].
  apply ascii_digit_iff, ascii_digit_TODECIMAL in Hm1, Hm2, Hd1.
  split_and!; try done; try (by left); by eapply TODECIMAL_ISDECIMAL.
Qed.

Lemma date_fields_strptime day f :
  date_fields day = Some f ->
  is_ok (strptime day) = calendar_date f
  /\ (calendar_date f = true -> strptime day = Ok f).
Proof.
  intros (y1 & y2 & y3 & y4 & m1 & m2 & d1 & d2 & vy1 & vy2 & vy3 & vy4 & vd2
          & -> & Hm1 & Hm2 & Hd1 & Hd2 & Hy1 & Hy2 & Hy3 & Hy4 & Hvd2 & ->)%date_fields_inv.
  pose proof (month_ok_iff m1 m2 Hm1 Hm2) as Hmonth.
  pose proof (day_ok_bound d1 d2 vd2 Hd1 Hd2 Hvd2) as Hday.
  pose proof Hm1 as Hvm1. pose proof Hm2 as Hvm2. pose proof Hd1 as Hvd1.
  apply ascii_digit_iff, ascii_digit_TODECIMAL in Hvm1, Hvm2, Hvd1.
  destruct (month_ok m1 m2 && day_ok d1 d2) eqn:Hok.
  - apply andb_true_iff in Hok as [Hmok Hdok].
    rewrite (strptime_fields y1 y2 y3 y4 m1 m2 d1 d2 _ _ _ _ _ _ _ _
               Hy1 Hy2 Hy3 Hy4 Hvm1 Hvm2 Hvd1 Hvd2 Hmok Hdok).
    split; [apply check_date_fields_is_ok|].
    intros Hcal. by rewrite check_date_fields_ok, Hcal.
  - assert (calendar_date
              (digits_value [vy1; vy2; vy3; vy4],
               digits_value [m1 - 48; m2 - 48], digits_value [d1 - 48; vd2])
            = false) as Hcal.
    { apply not_true_is_false. unfold calendar_date.
      rewrite !andb_true_iff, !Z.leb_le. intros Hc.
      pose proof (days_in_month_le (digits_value [vy1; vy2; vy3; vy4])
                    (digits_value [m1 - 48; m2 - 48])) as Hdim.
      apply andb_false_iff in Hok as [Hno|Hno];
        apply not_true_iff_false in Hno; apply Hno; [apply Hmonth|apply Hday]; lia. }
    rewrite Hcal. split; [|done].
    apply strptime_mismatch; try (by eapply TODECIMAL_ISDECIMAL).
    by rewrite Hok.
Qed.

Lemma date_rules_fields day :
  date_format_ok day = true -> date_valid day = true ->
  exists f, date_fields day = Some f.
Proof.
  intros (y1 & y2 & y3 & y4 & m1 & m2 & d1 & d2 & tail & -> & Htail
          & Hy1 & Hy2 & Hy3 & Hy4 & Hm1 & Hm2 & Hd1 & Hd2)%date_pattern_shape Hval.
  unfold date_valid in Hval.
  destruct (month_ok m1 m2 && day_ok d1 d2 && bool_decide (tail = [])) eqn:Hok.
  2:{ by rewrite strptime_mismatch in Hval. }
  apply andb_true_iff in Hok as [Hok Ht]. apply bool_decide_eq_true in Ht as ->.
  apply andb_true_iff in Hok as [Hmok Hdok].
  apply ISDECIMAL_TODECIMAL in Hy1 as [vy1 Hy1], Hy2 as [vy2 Hy2],
    Hy3 as [vy3 Hy3], Hy4 as [vy4 Hy4].
  pose proof Hd2 as Hd2'. apply ISDECIMAL_TODECIMAL in Hd2' as [vd2 Hvd2].
  eexists. apply (date_fields_intro y1 y2 y3 y4 m1 m2 d1 d2 vy1 vy2 vy3 vy4 vd2);
    try done.
  - unfold month_ok in Hmok.
    rewrite orb_true_iff, !andb_true_iff, !N.eqb_eq, !N.leb_le in Hmok. lia.
  - unfold month_ok in Hmok.
    rewrite orb_true_iff, !andb_true_iff, !N.eqb_eq, !N.leb_le in Hmok. lia.
  - unfold day_ok in Hdok.
    rewrite !orb_true_iff, !andb_true_iff, !N.eqb_eq, !N.leb_le in Hdok. lia.
  - unfold day_ok in Hdok.
    rewrite !orb_true_iff, !andb_true_iff, !N.eqb_eq, !N.leb_le in Hdok. lia.
Qed.

(** ** The reader on a line without quotes *)

Lemma plain_tests c :
  plain c -> (c =? quotechar) = false /\ (c =? LF) = false /\ (c =? CR) = false.
Proof. intros (H1 & H2 & H3). by rewrite !N.eqb_neq. Qed.

Lemma split_commas_nonempty s : split_commas s <> [].
Proof. destruct s as [|c s]; simpl; [done|]. by repeat case_match. Qed.

Lemma process_plain s : forall r,
  Forall plain s ->
  state r = START_FIELD \/ state r = IN_FIELD ->
  len (field r) + len s <= field_limit ->
  exists r', process_chars r s = Ok r'
             /\ (state r' = START_FIELD \/ state r' = IN_FIELD)
             /\ fields r' ++ [field r']
                = fields r ++ continue_field (field r) (split_commas s).
Proof.
  induction s as [|c s IH]; intros r Hplain Hst Hlen.
  { exists r. split; [reflexivity|]. split; [exact Hst|].
    simpl. rewrite app_nil_r. reflexivity. }
  apply Forall_cons in Hplain as [Hc Hplain].
  destruct (plain_tests c Hc) as (Hq & Hlf & Hcr).
  assert (len (c :: s) = 1 + len s) as Hlen'.
  { unfold len. simpl length. lia. }
  rewrite Hlen' in Hlen.
  assert (exists r1, parse_process_char r (Ch c) = Ok r1
                     /\ (state r1 = START_FIELD \/ state r1 = IN_FIELD)
                     /\ ((c =? delimiter) = true /\ fields r1 = fields r ++ [field r]
                         /\ field r1 = []
                         \/ (c =? delimiter) = false /\ fields r1 = fields r
                            /\ field r1 = field r ++ [c])) as (r1 & Hr1 & Hst1 & Hcase).
  { unfold parse_process_char, process_start_field, parse_add_char, is_newline.
    rewrite Hlf, Hcr, Hq. cbn [orb].
    assert ((field_limit <=? len (field r)) = false) as Hlim
      by (apply N.leb_gt; lia).
    destruct Hst as [Hs | Hs]; rewrite Hs; destruct (c =? delimiter) eqn:Hd;
      rewrite ?Hlim, ?bind_Ok; eexists; (split; [reflexivity|]); simpl;
      (split; [rewrite ?Hs; first [by left | by right]
              |first [by left | by right]]). }
  destruct (IH r1 Hplain Hst1) as (r' & Hr' & Hst' & Hfields).
  { destruct Hcase as [(_ & _ & ->)|(_ & _ & ->)]; unfold len in *;
      rewrite ?length_app; simpl length; lia. }
  exists r'. simpl. rewrite Hr1, bind_Ok. split; [done|]. split; [done|].
  rewrite Hfields.
  destruct Hcase as [(-> & -> & ->)|(-> & -> & ->)].
  - rewrite <- app_assoc. simpl. f_equal. rewrite app_nil_r. f_equal.
    pose proof (split_commas_nonempty s). by destruct (split_commas s).
  - f_equal. destruct (split_commas s); simpl; by rewrite <- ?app_assoc.
Qed.

Lemma first_failure_None row :
  first_failure rules row = None
  <-> exists no name day,
        row = [no; name; day] /\ id_ok no = true /\ label_ok name = true
        /\ date_format_ok day = true /\ date_valid day = true.
Proof.
  split.
  - destruct row as [|no [|name [|day [|x row]]]]; try done.
    simpl.
    destruct (id_ok no) eqn:Hid; [|done].
    destruct (label_ok name) eqn:Hname; [|done].
    destruct (date_format_ok day) eqn:Hfmt; [|done].
    destruct (date_valid day) eqn:Hval; [|done].
    intros _. by exists no, name, day.
  - intros (no & name & day & -> & Hid & Hname & Hfmt & Hval).
    simpl. by rewrite Hid, Hname, Hfmt, Hval.
Qed.


(** ** The UTF-8 codec: what was decoded encodes to the same bytes *)

Lemma utf8_encode_app c s bs bs' :
  utf8_encode_char c = Some bs -> utf8_encode s = Some bs' ->
  utf8_encode (c :: s) = Some (bs ++ bs').
Proof. simpl. by intros -> ->. Qed.

Ltac cmp_all :=
  repeat match goal with
  | H : context [N.leb ?a ?b] |- _ =>
      let E := fresh "E" in
      destruct (N.leb a b) eqn:E; [apply N.leb_le in E | apply N.leb_gt in E]
  | H : context [N.ltb ?a ?b] |- _ =>
      let E := fresh "E" in
      destruct (N.ltb a b) eqn:E; [apply N.ltb_lt in E | apply N.ltb_ge in E]
  | H : context [N.eqb ?a ?b] |- _ =>
      let E := fresh "E" in
      destruct (N.eqb a b) eqn:E; [apply N.eqb_eq in E | apply N.eqb_neq in E]
  end; simpl in *; try done.

Lemma encode_char_1 b : b < 0x80 -> utf8_encode_char b = Some [b].
Proof. intros H. unfold utf8_encode_char. apply N.ltb_lt in H. by rewrite H. Qed.

Lemma encode_char_2 b1 b2 :
  0xC2 <= b1 <= 0xDF -> 0x80 <= b2 <= 0xBF ->
  utf8_encode_char ((b1 - 0xC0) * 64 + (b2 - 0x80)) = Some [b1; b2].
Proof.
  intros H1 H2. unfold utf8_encode_char.
  set (c := (b1 - 0xC0) * 64 + (b2 - 0x80)).
  assert (c / 64 = b1 - 0xC0 /\ c mod 64 = b2 - 0x80) as [Hq Hr].
  { subst c. split.
    - rewrite N.div_add_l by done. rewrite N.div_small by lia. lia.
    - rewrite N.add_comm, N.Div0.mod_add. apply N.mod_small. lia. }
  replace (c <? 0x80) with false by (symmetry; apply N.ltb_ge; lia).
  replace (c <? 0x800) with true by (symmetry; apply N.ltb_lt; lia).
  rewrite Hq, Hr. f_equal. repeat (apply (f_equal2 cons); [lia|]). done.
Qed.

Lemma encode_char_3 b1 b2 b3 :
  0xE0 <= b1 <= 0xEF ->
  (if b1 =? 0xE0 then 0xA0 else 0x80) <= b2 ->
  b2 <= (if b1 =? 0xED then 0x9F else 0xBF) ->
  0x80 <= b3 <= 0xBF ->
  utf8_encode_char ((b1 - 0xE0) * 4096 + (b2 - 0x80) * 64 + (b3 - 0x80))
  = Some [b1; b2; b3].
Proof.
  intros H1 Hlo Hhi H3. unfold utf8_encode_char.
  assert (0x80 <= b2 <= 0xBF) as H2 by (cmp_all; lia).
  set (c := (b1 - 0xE0) * 4096 + (b2 - 0x80) * 64 + (b3 - 0x80)).
  assert (c / 64 = (b1 - 0xE0) * 64 + (b2 - 0x80)) as Hq1.
  { subst c. replace ((b1 - 224) * 4096 + (b2 - 128) * 64 + (b3 - 128))
      with (((b1 - 224) * 64 + (b2 - 128)) * 64 + (b3 - 128)) by lia.
    rewrite N.div_add_l by done. rewrite (N.div_small (b3 - 128)) by lia. lia. }
  assert (c mod 64 = b3 - 0x80) as Hr1.
  { subst c. replace ((b1 - 224) * 4096 + (b2 - 128) * 64 + (b3 - 128))
      with ((b3 - 128) + ((b1 - 224) * 64 + (b2 - 128)) * 64) by lia.
    rewrite N.Div0.mod_add. apply N.mod_small. lia. }
  assert (c / 4096 = b1 - 0xE0) as Hq2.
  { change 4096 with (64 * 64). rewrite <- N.Div0.div_div, Hq1.
    rewrite N.div_add_l by done. rewrite N.div_small by lia. lia. }
  assert ((c / 64) mod 64 = b2 - 0x80) as Hr2.
  { rewrite Hq1, N.add_comm, N.Div0.mod_add. apply N.mod_small. lia. }
  assert (0x800 <= c < 0x10000 /\ ~ (0xD800 <= c <= 0xDFFF)) as (Hc1 & Hc2).
  { subst c. cmp_all; lia. }
  replace (c <? 0x80) with false by (symmetry; apply N.ltb_ge; lia).
  replace (c <? 0x800) with false by (symmetry; apply N.ltb_ge; lia).
  replace (c <? 0x10000) with true by (symmetry; apply N.ltb_lt; lia).
  replace ((0xD800 <=? c) && (c <=? 0xDFFF)) with false.
  2:{ symmetry. apply andb_false_iff.
      destruct (N.leb_spec 0xD800 c); [right; apply N.leb_gt; lia | by left]. }
  rewrite Hq2, Hr2, Hr1. f_equal. repeat (apply (f_equal2 cons); [lia|]). done.
Qed.

Lemma encode_char_4 b1 b2 b3 b4 :
  0xF0 <= b1 <= 0xF4 ->
  (if b1 =? 0xF0 then 0x90 else 0x80) <= b2 ->
  b2 <= (if b1 =? 0xF4 then 0x8F else 0xBF) ->
  0x80 <= b3 <= 0xBF -> 0x80 <= b4 <= 0xBF ->
  utf8_encode_char ((b1 - 0xF0) * 262144 + (b2 - 0x80) * 4096
                    + (b3 - 0x80) * 64 + (b4 - 0x80))
  = Some [b1; b2; b3; b4].
Proof.
  intros H1 Hlo Hhi H3 H4. unfold utf8_encode_char.
  assert (0x80 <= b2 <= 0xBF) as H2 by (cmp_all; lia).
  set (c := (b1 - 0xF0) * 262144 + (b2 - 0x80) * 4096 + (b3 - 0x80) * 64 + (b4 - 0x80)).
  assert (c / 64 = ((b1 - 0xF0) * 64 + (b2 - 0x80)) * 64 + (b3 - 0x80)) as Hq1.
  { subst c.
    replace ((b1 - 240) * 262144 + (b2 - 128) * 4096 + (b3 - 128) * 64 + (b4 - 128))
      with ((((b1 - 240) * 64 + (b2 - 128)) * 64 + (b3 - 128)) * 64 + (b4 - 128)) by lia.
    rewrite N.div_add_l by done. rewrite (N.div_small (b4 - 128)) by lia. lia. }
  assert (c mod 64 = b4 - 0x80) as Hr1.
  { subst c.
    replace ((b1 - 240) * 262144 + (b2 - 128) * 4096 + (b3 - 128) * 64 + (b4 - 128))
      with ((b4 - 128) + (((b1 - 240) * 64 + (b2 - 128)) * 64 + (b3 - 128)) * 64) by lia.
    rewrite N.Div0.mod_add. apply N.mod_small. lia. }
  assert (c / 4096 = (b1 - 0xF0) * 64 + (b2 - 0x80)) as Hq2.
  { change 4096 with (64 * 64). rewrite <- N.Div0.div_div, Hq1.
    rewrite N.div_add_l by done. rewrite (N.div_small (b3 - 128)) by lia. lia. }
  assert ((c / 64) mod 64 = b3 - 0x80) as Hr2.
  { rewrite Hq1, N.add_comm, N.Div0.mod_add. apply N.mod_small. lia. }
  assert (c / 262144 = b1 - 0xF0) as Hq3.
  { change 262144 with (4096 * 64). rewrite <- N.Div0.div_div, Hq2.
    rewrite N.div_add_l by done. rewrite N.div_small by lia. lia. }
  assert ((c / 4096) mod 64 = b2 - 0x80) as Hr3.
  { rewrite Hq2, N.add_comm, N.Div0.mod_add. apply N.mod_small. lia. }
  assert (0x10000 <= c < 0x110000) as Hc.
  { subst c. cmp_all; lia. }
  replace (c <? 0x80) with false by (symmetry; apply N.ltb_ge; lia).
  replace (c <? 0x800) with false by (symmetry; apply N.ltb_ge; lia).
  replace (c <? 0x10000) with false by (symmetry; apply N.ltb_ge; lia).
  replace (c <? 0x110000) with true by (symmetry; apply N.ltb_lt; lia).
  rewrite Hq3, Hr3, Hr2, Hr1.
  f_equal. repeat (apply (f_equal2 cons); [lia|]). done.
Qed.

Lemma continuation_range b : continuation b = true -> 0x80 <= b <= 0xBF.
Proof. unfold continuation. intros H. cmp_all; lia. Qed.

Lemma fmap_cons_Some {A} (x : A) (o : option (list A)) l :
  cons x <$> o = Some l -> exists l', o = Some l' /\ l = x :: l'.
Proof. destruct o; simpl; [intros [= <-]; eauto | done]. Qed.

(** Encoding what was decoded gives the bytes back. *)
Lemma utf8_decode_encode bs : forall s,
  utf8_decode bs = Some s -> utf8_encode s = Some bs.
Proof.
  induction bs as [bs IH] using (induction_ltof1 _ (@length N)); unfold ltof in IH.
  destruct bs as [|b1 r1]; [by intros s [= <-]|].
  intros s. simpl.
  destruct (b1 <? 0x80) eqn:E1.
  { intros (s' & Hs' & ->)%fmap_cons_Some. apply N.ltb_lt in E1.
    apply (utf8_encode_app b1 s' [b1] r1); [by apply encode_char_1|].
    apply IH; [simpl; lia | done]. }
  destruct ((0xC2 <=? b1) && (b1 <=? 0xDF)) eqn:E2.
  { destruct r1 as [|b2 r2]; [done|].
    destruct (continuation b2) eqn:C2; [|done].
    intros (s' & Hs' & ->)%fmap_cons_Some.
    apply andb_true_iff in E2 as [?%N.leb_le ?%N.leb_le].
    apply continuation_range in C2.
    apply (utf8_encode_app _ s' [b1; b2] r2); [by apply encode_char_2|].
    apply IH; [simpl; lia | done]. }
  destruct ((0xE0 <=? b1) && (b1 <=? 0xEF)) eqn:E3.
  { destruct r1 as [|b2 [|b3 r3]]; [done..|].
    destruct (_ && continuation b3) eqn:C; [|done].
    intros (s' & Hs' & ->)%fmap_cons_Some.
    apply andb_true_iff in E3 as [?%N.leb_le ?%N.leb_le].
    apply andb_true_iff in C as [[?%N.leb_le ?%N.leb_le]%andb_true_iff ?%continuation_range].
    apply (utf8_encode_app _ s' [b1; b2; b3] r3); [by apply encode_char_3|].
    apply IH; [simpl; lia | done]. }
  destruct ((0xF0 <=? b1) && (b1 <=? 0xF4)) eqn:E4; [|done].
  destruct r1 as [|b2 [|b3 [|b4 r4]]]; [done..|].
  destruct (_ && continuation b4) eqn:C; [|done].
  intros (s' & Hs' & ->)%fmap_cons_Some.
  apply andb_true_iff in E4 as [?%N.leb_le ?%N.leb_le].
  apply andb_true_iff in C as [[[?%N.leb_le ?%N.leb_le]%andb_true_iff
                                 ?%continuation_range]%andb_true_iff ?%continuation_range].
  apply (utf8_encode_app _ s' [b1; b2; b3; b4] r4); [by apply encode_char_4|].
  apply IH; [simpl; lia | done].
Qed.

Lemma byte_of_to_N b : byte_of_N (Byte.to_N b) = b.
Proof. unfold byte_of_N. by rewrite Byte.of_to_N. Qed.

Lemma decode_encode b s : decode b = Ok s -> encode s = Ok b.
Proof.
  unfold decode, encode. destruct (utf8_decode _) as [s'|] eqn:Hd; [|done].
  intros [= <-]. rewrite (utf8_decode_encode _ _ Hd).
  f_equal. rewrite <- list_fmap_compose.
  rewrite <- (list_fmap_id b) at 2. apply list_fmap_ext. intros ? x _. apply byte_of_to_N.
Qed.

Lemma utf8_encode_snoc s bs c cs :
  utf8_encode s = Some bs -> utf8_encode_char c = Some cs ->
  utf8_encode (s ++ [c]) = Some (bs ++ cs).
Proof.
  revert bs. induction s as [|x s IH]; intros bs; simpl.
  - intros [= <-] ->. by rewrite app_nil_r.
  - destruct (utf8_encode_char x) as [xs|]; [|done].
    destruct (utf8_encode s) as [bs'|]; [|done].
    intros [= <-] Hc. rewrite (IH bs' eq_refl Hc). by rewrite app_assoc.
Qed.

(** The chunk written for a line: the line and a line feed. *)
Lemma decode_encode_line b s :
  decode b = Ok s -> encode (s ++ [LF]) = Ok (b ++ ["010"%byte]).
Proof.
  unfold decode, encode. destruct (utf8_decode _) as [s'|] eqn:Hd; [|done].
  intros [= <-].
  rewrite (utf8_encode_snoc s' _ LF [LF] (utf8_decode_encode _ _ Hd) eq_refl).
  f_equal. rewrite map_app. f_equal.
  rewrite <- list_fmap_compose.
  rewrite <- (list_fmap_id b) at 2. apply list_fmap_ext. intros ? x _. apply byte_of_to_N.
Qed.

(** ** The loop of [app.py] *)

Lemma accepts_record_decoded l s v :
  decode l = Ok s -> App.validate_csv_row s = Ok v ->
  accepts_record l = App.valid v.
Proof. intros Hd Hv. unfold accepts_record, accepts. by rewrite Hd, Hv. Qed.

Lemma framed_cons_empty l ls : nonempty l = false -> framed (l :: ls) = framed ls.
Proof. intros H. unfold framed. rewrite filter_cons_False; [done | by rewrite H]. Qed.

Lemma framed_cons_nonempty l ls :
  nonempty l = true -> framed (l :: ls) = l :: framed ls.
Proof. intros H. unfold framed. by rewrite filter_cons_True. Qed.

Lemma accepted_cons_True l ls :
  accepts_record l = true -> accepted_records (l :: ls) = l :: accepted_records ls.
Proof. intros H. unfold accepted_records. by rewrite filter_cons_True. Qed.

Lemma accepted_cons_False l ls :
  accepts_record l = false -> accepted_records (l :: ls) = accepted_records ls.
Proof. intros H. unfold accepted_records. rewrite filter_cons_False; [done | by rewrite H]. Qed.

Lemma rejected_cons_True l ls :
  accepts_record l = true -> rejected_records (l :: ls) = rejected_records ls.
Proof. intros H. unfold rejected_records. rewrite filter_cons_False; [done | by rewrite H]. Qed.

Lemma rejected_cons_False l ls :
  accepts_record l = false -> rejected_records (l :: ls) = l :: rejected_records ls.
Proof. intros H. unfold rejected_records. by rewrite filter_cons_True. Qed.

(** One turn of the loop on a data record. *)
Lemma loop_body_data st l st' :
  App.is_header st = false -> nonempty l = true ->
  App.loop_body st l = Ok st' ->
  App.is_header st' = false
  /\ App.line_count st' = App.line_count st + 1
  /\ (if accepts_record l
      then App.valid_stream st' = App.valid_stream st ++ [terminated l]
           /\ App.error_stream st' = App.error_stream st
           /\ App.valid_count st' = App.valid_count st + 1
           /\ App.error_count st' = App.error_count st
      else App.valid_stream st' = App.valid_stream st
           /\ App.error_stream st' = App.error_stream st ++ [terminated l]
           /\ App.valid_count st' = App.valid_count st
           /\ App.error_count st' = App.error_count st + 1).
Proof.
  intros Hh Hl. unfold App.loop_body. unfold nonempty in Hl. rewrite Hl.
  destruct (decode l) as [s|e] eqn:Hd; [|done]. rewrite bind_Ok. cbv beta.
  destruct (App.is_header st) eqn:Hh'; [done|].
  destruct (validate_csv_row_total s) as [v Hv]. rewrite Hv, bind_Ok. cbv beta.
  rewrite (accepts_record_decoded _ _ _ Hd Hv).
  rewrite (decode_encode_line _ _ Hd), !bind_Ok.
  destruct (App.valid v); intros [= <-]; simpl; done.
Qed.

Lemma loop_data lines : forall st st',
  App.is_header st = false ->
  App.loop st lines = Ok st' ->
  App.is_header st' = false
  /\ App.valid_stream st'
     = App.valid_stream st ++ map terminated (accepted_records (framed lines))
  /\ App.error_stream st'
     = App.error_stream st ++ map terminated (rejected_records (framed lines))
  /\ App.line_count st' = App.line_count st + N.of_nat (length (framed lines))
  /\ App.valid_count st'
     = App.valid_count st + N.of_nat (length (accepted_records (framed lines)))
  /\ App.error_count st'
     = App.error_count st + N.of_nat (length (rejected_records (framed lines))).
Proof.
  induction lines as [|l lines IH]; intros st st' Hh; simpl.
  { intros [= <-]. rewrite !app_nil_r, !N.add_0_r. done. }
  intros (st1 & H1 & Hloop)%bind_Ok_inv.
  destruct (nonempty l) eqn:Hl.
  - destruct (loop_body_data _ _ _ Hh Hl H1) as (Hh1 & Hc & Hacc).
    destruct (IH _ _ Hh1 Hloop) as (Hh' & Hv & He & Hlc & Hvc & Hec).
    rewrite framed_cons_nonempty by done.
    destruct (accepts_record l) eqn:Ha; destruct Hacc as (Hv1 & He1 & Hvc1 & Hec1).
    + rewrite accepted_cons_True, rejected_cons_True by done. simpl.
      rewrite Hv, He, Hlc, Hvc, Hec, Hv1, He1, Hc, Hvc1, Hec1.
      rewrite <- !app_assoc. split_and!; try done; lia.
    + rewrite accepted_cons_False, rejected_cons_False by done. simpl.
      rewrite Hv, He, Hlc, Hvc, Hec, Hv1, He1, Hc, Hvc1, Hec1.
      rewrite <- !app_assoc. split_and!; try done; lia.
  - rewrite framed_cons_empty by done.
    unfold App.loop_body in H1. unfold nonempty in Hl.
    apply negb_false_iff in Hl. rewrite Hl in H1. simpl in H1.
    injection H1 as <-. by apply IH.
Qed.

(** The whole loop, from the initial state. *)
Lemma loop_init lines st :
  App.loop App.init lines = Ok st ->
  App.valid_stream st
  = map terminated (header lines ++ accepted_records (data_records lines))
  /\ App.error_stream st
     = map terminated (header lines ++ rejected_records (data_records lines))
  /\ App.line_count st = N.of_nat (length (framed lines))
  /\ App.valid_count st = N.of_nat (length (accepted_records (data_records lines)))
  /\ App.error_count st = N.of_nat (length (rejected_records (data_records lines))).
Proof.
  unfold header, data_records.
  induction lines as [|l lines IH]; simpl.
  { by intros [= <-]. }
  intros (st1 & H1 & Hloop)%bind_Ok_inv.
  destruct (nonempty l) eqn:Hl.
  - rewrite framed_cons_nonempty by done. simpl. rewrite drop_0.
    unfold App.loop_body in H1. unfold nonempty in Hl. rewrite Hl in H1.
    simpl in H1.
    destruct (decode l) as [s|e] eqn:Hd; [|done]. rewrite bind_Ok in H1.
    rewrite (decode_encode_line _ _ Hd), bind_Ok in H1. injection H1 as <-.
    apply loop_data in Hloop as (_ & Hv & He & Hlc & Hvc & Hec); [|done].
    simpl in *. rewrite Hv, He, Hlc, Hvc, Hec. split_and!; try done; lia.
  - rewrite framed_cons_empty by done.
    unfold App.loop_body in H1. unfold nonempty in Hl.
    apply negb_false_iff in Hl. rewrite Hl in H1. simpl in H1.
    injection H1 as <-. by apply IH.
Qed.

(** The loop ends without an exception when every record decodes. *)
Lemma loop_total lines : forall st,
  Forall (fun l => is_ok (decode l) = true) (framed lines) ->
  exists st', App.loop st lines = Ok st'.
Proof.
  induction lines as [|l lines IH]; intros st Hdec; simpl; [eauto|].
  destruct (nonempty l) eqn:Hl.
  - rewrite framed_cons_nonempty in Hdec by done.
    apply Forall_cons in Hdec as [Hd Hdec].
    destruct (decode l) as [s|] eqn:Hs; [|done].
    unfold App.loop_body. unfold nonempty in Hl. rewrite Hl, Hs, bind_Ok.
    cbv beta. rewrite (decode_encode_line _ _ Hs).
    destruct (App.is_header st).
    + rewrite !bind_Ok. by apply IH.
    + destruct (validate_csv_row_total s) as [v ->]. rewrite bind_Ok. cbv beta.
      destruct (App.valid v); rewrite !bind_Ok; by apply IH.
  - rewrite framed_cons_empty in Hdec by done.
    unfold App.loop_body. unfold nonempty in Hl.
    apply negb_false_iff in Hl. rewrite Hl. simpl. by apply IH.
Qed.

(** ** When the handler of [app.py] raises *)

Lemma decode_raises l e : decode l = Raise e -> e = UnicodeDecodeError.
Proof. unfold decode. by destruct (utf8_decode _); intros [= <-]. Qed.

Lemma loop_body_raises st l e :
  App.loop_body st l = Raise e ->
  e = UnicodeDecodeError /\ nonempty l = true /\ is_ok (decode l) = false.
Proof.
  unfold App.loop_body, nonempty.
  destruct (negb (length l =? 0)%nat); [|done].
  destruct (decode l) as [s|e'] eqn:Hd.
  - rewrite bind_Ok. cbv beta. rewrite (decode_encode_line _ _ Hd).
    destruct (App.is_header st); [done|].
    destruct (validate_csv_row_total s) as [v ->]. rewrite bind_Ok. cbv beta.
    by destruct (App.valid v).
  - intros [= <-]. by rewrite (decode_raises _ _ Hd).
Qed.

Lemma loop_raises lines : forall st e,
  App.loop st lines = Raise e ->
  e = UnicodeDecodeError
  /\ Exists (fun l => is_ok (decode l) = false) (framed lines).
Proof.
  induction lines as [|l lines IH]; intros st e; simpl; [done|].
  destruct (App.loop_body st l) as [st1|e1] eqn:H1.
  - rewrite bind_Ok. intros [-> Hex]%IH. split; [done|].
    destruct (nonempty l) eqn:Hl.
    + rewrite framed_cons_nonempty by done. by right.
    + by rewrite framed_cons_empty.
  - intros [= <-]. apply loop_body_raises in H1 as (-> & Hl & Hd).
    split; [done|]. rewrite framed_cons_nonempty by done. by left.
Qed.

Lemma loop_Ok_decodes lines : forall st st',
  App.loop st lines = Ok st' ->
  Forall (fun l => is_ok (decode l) = true) (framed lines).
Proof.
  induction lines as [|l lines IH]; intros st st'; simpl; [constructor|].
  intros (st1 & H1 & Hloop)%bind_Ok_inv.
  destruct (nonempty l) eqn:Hl.
  - rewrite framed_cons_nonempty by done. constructor; [|by eapply IH].
    unfold App.loop_body in H1. unfold nonempty in Hl. rewrite Hl in H1.
    by destruct (decode l).
  - rewrite framed_cons_empty by done. by eapply IH.
Qed.

(** ** [process_batch] and the batcher of [app_multithread.py] *)

Lemma multithread_validate_accepts l :
  exists v, Multithread.validate_csv_row l = Ok v
            /\ Multithread.valid v = accepts l /\ Multithread.line v = l.
Proof.
  rewrite multithread_validate_csv_row. unfold accepts.
  destruct (validate_csv_row_total l) as [v ->]. by eexists.
Qed.

Lemma process_batch_loop_spec lines : forall valid_lines error_lines,
  Multithread.process_batch_loop lines valid_lines error_lines
  = Ok (valid_lines ++ filter (fun l => accepts l = true) lines,
        error_lines ++ filter (fun l => accepts l = false) lines).
Proof.
  induction lines as [|l lines IH]; intros vs es; simpl.
  { by rewrite !app_nil_r. }
  destruct (multithread_validate_accepts l) as (v & -> & Hv & Hl).
  rewrite bind_Ok. cbv beta. rewrite Hv, Hl.
  destruct (accepts l) eqn:Ha; rewrite IH.
  - rewrite filter_cons_True, filter_cons_False by (by rewrite ?Ha).
    by rewrite <- app_assoc.
  - rewrite filter_cons_False, filter_cons_True by (by rewrite ?Ha).
    by rewrite <- app_assoc.
Qed.

Lemma process_batch_spec batch :
  Multithread.process_batch batch
  = Ok (filter (fun l => accepts l = true) batch,
        filter (fun l => accepts l = false) batch).
Proof. apply process_batch_loop_spec. Qed.


Lemma framed_app l1 l2 : framed (l1 ++ l2) = framed l1 ++ framed l2.
Proof. apply filter_app. Qed.

Lemma decoded_lines_next_Some it s rest :
  Multithread.decoded_lines_next it = Ok (Some s, rest) ->
  exists P l, it = P ++ l :: rest /\ framed P = [] /\ nonempty l = true
              /\ decode l = Ok s.
Proof.
  induction it as [|l it IH]; simpl; [done|].
  destruct (negb (length l =? 0)%nat) eqn:Hl.
  - destruct (decode l) as [s'|] eqn:Hd; [|done]. intros [= <- <-].
    by exists [], l.
  - intros (P & l' & -> & HP & Hl' & Hd)%IH.
    exists (l :: P), l'. split_and!; try done.
    by rewrite framed_cons_empty.
Qed.

Lemma decoded_lines_next_None it rest :
  Multithread.decoded_lines_next it = Ok (None, rest) ->
  framed it = [] /\ rest = [].
Proof.
  induction it as [|l it IH]; simpl; [by intros [= <-]|].
  destruct (negb (length l =? 0)%nat) eqn:Hl.
  - by destruct (decode l).
  - intros [Hf ->]%IH. by rewrite framed_cons_empty.
Qed.

Lemma islice_spec n : forall it batch rest,
  Multithread.islice n it = Ok (batch, rest) ->
  exists P, it = P ++ rest /\ decodes (framed P) batch
            /\ (length batch <= n)%nat
            /\ ((length batch < n)%nat -> rest = []).
Proof.
  induction n as [|n IH]; intros it batch rest; simpl.
  { intros [= <- <-]. exists []. split_and!; [done|constructor|done|lia]. }
  intros ([[s|] rest1] & Hnext & Hk)%bind_Ok_inv.
  - apply bind_Ok_inv in Hk as ([batch' rest'] & Hn & [= <- <-]).
    apply decoded_lines_next_Some in Hnext as (P & l & -> & HP & Hl & Hd).
    apply IH in Hn as (P' & -> & Hdec & Hlen & Hend).
    exists (P ++ l :: P'). split_and!.
    + by rewrite <- app_assoc.
    + rewrite framed_app, HP, framed_cons_nonempty by done. simpl. by constructor.
    + simpl. lia.
    + simpl. intros ?. apply Hend. lia.
  - injection Hk as <- <-.
    apply decoded_lines_next_None in Hnext as [Hf ->].
    exists it. rewrite app_nil_r, Hf. split_and!; [done|constructor|simpl; lia|done].
Qed.

Lemma batches_next_Some B it batch rest :
  Multithread.batches_next B it = Ok (Some batch, rest) ->
  exists P, it = P ++ rest /\ decodes (framed P) batch
            /\ batch <> [] /\ (length batch <= B)%nat.
Proof.
  unfold Multithread.batches_next.
  intros ([b r] & (P & -> & Hdec & Hlen & _)%islice_spec & Hk)%bind_Ok_inv.
  simpl in Hk. destruct b as [|s b]; [done|]. injection Hk as <- <-.
  by exists P.
Qed.

Lemma batches_next_Some_full B it batch rest :
  Multithread.batches_next B it = Ok (Some batch, rest) ->
  length batch = B \/ rest = [].
Proof.
  unfold Multithread.batches_next.
  intros ([b r] & (P & -> & Hdec & Hlen & Hend)%islice_spec & Hk)%bind_Ok_inv.
  simpl in Hk. destruct b as [|s b]; [done|]. injection Hk as <- <-.
  destruct (decide (length (s :: b) = B)) as [|Hne]; [by left|].
  right. apply Hend. lia.
Qed.

Lemma batches_next_None B it rest :
  (0 < B)%nat ->
  Multithread.batches_next B it = Ok (None, rest) ->
  framed it = [] /\ rest = [].
Proof.
  intros HB. unfold Multithread.batches_next.
  intros ([b r] & (P & -> & Hdec & Hlen & Hend)%islice_spec & Hk)%bind_Ok_inv.
  simpl in Hk. destruct b as [|s b]; [|done]. injection Hk as <-.
  rewrite Hend by (simpl; lia). rewrite app_nil_r.
  split; [|done]. by inversion Hdec.
Qed.

Lemma batches_next_suffix B it o rest :
  Multithread.batches_next B it = Ok (o, rest) -> exists P, it = P ++ rest.
Proof.
  unfold Multithread.batches_next.
  intros ([b r] & (P & -> & _)%islice_spec & Hk)%bind_Ok_inv.
  simpl in Hk. destruct b; injection Hk as <- <-; eauto.
Qed.

Lemma batches_next_Some_shorter B it batch rest :
  Multithread.batches_next B it = Ok (Some batch, rest) ->
  (length (framed rest) < length (framed it))%nat.
Proof.
  intros (P & -> & Hdec & Hne & _)%batches_next_Some.
  rewrite framed_app, length_app.
  apply Forall2_length in Hdec. destruct batch; [done|]. simpl in Hdec. lia.
Qed.

Lemma batches_next_shorter B it o rest :
  Multithread.batches_next B it = Ok (o, rest) ->
  (length (framed rest) <= length (framed it))%nat.
Proof.
  intros (P & ->)%batches_next_suffix. rewrite framed_app, length_app. lia.
Qed.


(** ** The sink of [app_multithread.py] *)

Import Sched.


Lemma encode_line_decoded l s : decode l = Ok s -> encode_line s = terminated l.
Proof. intros Hd. unfold encode_line. by rewrite (decode_encode_line _ _ Hd). Qed.

Import Multithread.

Lemma write_valid_spec ls : forall st st',
  write_valid st ls = Ok st' ->
  valid_stream st' = valid_stream st ++ map encode_line ls
  /\ error_stream st' = error_stream st
  /\ valid_count st' = valid_count st + N.of_nat (length ls)
  /\ error_count st' = error_count st
  /\ line_count st' = line_count st + N.of_nat (length ls)
  /\ lines_iter st' = lines_iter st /\ futures st' = futures st
  /\ batch_count st' = batch_count st /\ consumed st' = consumed st.
Proof.
  induction ls as [|l ls IH]; intros st st'; simpl.
  { intros [= <-]. rewrite app_nil_r, !N.add_0_r. done. }
  intros (chunk & Hc & Hw)%bind_Ok_inv.
  apply IH in Hw as (Hv & He & Hvc & Hec & Hlc & Hli & Hf & Hbc & Hco).
  simpl in *. unfold encode_line at 1. rewrite Hc.
  rewrite Hv, He, Hvc, Hec, Hlc, Hli, Hf, Hbc, Hco, <- app_assoc.
  split_and!; try done; lia.
Qed.

Lemma write_error_spec ls : forall st st',
  write_error st ls = Ok st' ->
  valid_stream st' = valid_stream st
  /\ error_stream st' = error_stream st ++ map encode_line ls
  /\ valid_count st' = valid_count st
  /\ error_count st' = error_count st + N.of_nat (length ls)
  /\ line_count st' = line_count st + N.of_nat (length ls)
  /\ lines_iter st' = lines_iter st /\ futures st' = futures st
  /\ batch_count st' = batch_count st /\ consumed st' = consumed st.
Proof.
  induction ls as [|l ls IH]; intros st st'; simpl.
  { intros [= <-]. rewrite app_nil_r, !N.add_0_r. done. }
  intros (chunk & Hc & Hw)%bind_Ok_inv.
  apply IH in Hw as (Hv & He & Hvc & Hec & Hlc & Hli & Hf & Hbc & Hco).
  simpl in *. unfold encode_line at 1. rewrite Hc.
  rewrite Hv, He, Hvc, Hec, Hlc, Hli, Hf, Hbc, Hco, <- app_assoc.
  split_and!; try done; lia.
Qed.

Lemma ingest_spec st res st' :
  ingest st res = Ok st' ->
  valid_stream st' = valid_stream st ++ map encode_line res.1
  /\ error_stream st' = error_stream st ++ map encode_line res.2
  /\ valid_count st' = valid_count st + N.of_nat (length res.1)
  /\ error_count st' = error_count st + N.of_nat (length res.2)
  /\ line_count st'
     = line_count st + N.of_nat (length res.1) + N.of_nat (length res.2)
  /\ lines_iter st' = lines_iter st /\ futures st' = futures st
  /\ batch_count st' = batch_count st /\ consumed st' = consumed st.
Proof.
  unfold ingest. intros (st1 & H1 & H2)%bind_Ok_inv.
  apply write_valid_spec in H1 as (Hv & He & Hvc & Hec & Hlc & Hli & Hf & Hbc & Hco).
  apply write_error_spec in H2 as (Hv' & He' & Hvc' & Hec' & Hlc' & Hli' & Hf' & Hbc' & Hco').
  rewrite Hv', He', Hvc', Hec', Hlc', Hli', Hf', Hbc', Hco'.
  rewrite Hv, He, Hvc, Hec, Hlc, Hli, Hf, Hbc, Hco. done.
Qed.

(** ** The window of the scheduler *)

Section Window.

Variables max_workers batch_size : nat.


Lemma submit_fresh st :
  (forall id b, futures st !! id = Some b -> (id < batch_count st)%nat) ->
  futures st !! batch_count st = None.
Proof.
  intros Hk. destruct (futures st !! batch_count st) as [b|] eqn:Hb; [|done].
  apply Hk in Hb. lia.
Qed.

Lemma window_step c c' :
  step max_workers batch_size c c' -> window max_workers c -> window max_workers c'.
Proof.
  destruct 1; simpl; try done.
  - (* fill_submit *)
    intros (Hk & Hbc & Hs & Hi & Hco). pose proof (submit_fresh _ Hk) as Hfresh.
    rewrite map_size_insert_None by done. split_and!; try lia.
    intros id b [[-> _]|[_ Hb]]%lookup_insert_Some; [lia|]. apply Hk in Hb. lia.
  - intros (Hk & Hbc & Hs & Hi & Hco). split_and!; try done; lia.
  - intros (Hk & Hbc & Hs & Hi & Hco). split_and!; try done; lia.
  - intros (Hk & Hbc & Hs). split_and!; try done. by rewrite H, map_size_empty.
  - (* complete *)
    intros (Hk & Hbc & Hs).
    rewrite map_size_delete_Some by eauto.
    assert (size (futures st) <> 0)%nat.
    { intros Hz%map_size_empty_iff. by rewrite Hz in H. }
    split_and!; try lia.
    intros id' b [_ Hb]%lookup_delete_Some. by eapply Hk.
  - (* write *)
    intros (Hk & Hbc & Hs).
    apply ingest_spec in H as (_ & _ & _ & _ & _ & _ & Hf & Hb & Hco).
    by rewrite Hf, Hb, Hco.
  - (* submit *)
    intros (Hk & Hbc & Hs). pose proof (submit_fresh _ Hk) as Hfresh.
    rewrite map_size_insert_None by done. split_and!; try lia.
    intros id b [[-> _]|[_ Hb]]%lookup_insert_Some; [lia|]. apply Hk in Hb. lia.
  - intros (Hk & Hbc & Hs). split_and!; try done; lia.
Qed.

Lemma window_rtc c c' :
  rtc (step max_workers batch_size) c c' -> window max_workers c -> window max_workers c'.
Proof. induction 1; eauto using window_step. Qed.

Lemma window_init iter_lines st :
  handle_header iter_lines = Ok st -> window max_workers (Running (Filling 0) st).
Proof.
  unfold handle_header.
  destruct iter_lines as [|l ls]; [intros [= <-]; simpl|].
  { split_and!; first [done | lia | by rewrite map_size_empty]. }
  destruct (negb _); [|intros [= <-]; simpl].
  - intros (s & _ & (chunk & _ & [= <-])%bind_Ok_inv)%bind_Ok_inv. simpl.
    split_and!; first [done | lia | by rewrite map_size_empty].
  - split_and!; first [done | lia | by rewrite map_size_empty].
Qed.

Lemma window_in_flight c :
  window max_workers c ->
  (in_flight c <= max_workers * 2)%nat
  /\ match c with
     | Running _ st => (batch_count st <= max_workers * 2 + consumed st)%nat
     | Failed _ => True
     end.
Proof.
  destruct c as [p st|e]; simpl; [|lia].
  intros (Hk & Hbc & Hp). destruct p; simpl; lia.
Qed.

End Window.

(** ** The ledger of the scheduler: where every record is *)


Section Ledger.

Variables max_workers batch_size : nat.
Hypothesis workers_pos : (0 < max_workers)%nat.
Hypothesis batch_pos : (0 < batch_size)%nat.

(** The lines after the header block and the stream after it. *)
Variable R : list bytes.
Variable hdr : list bytes.


Lemma flying_submit st batch rest :
  futures st !! batch_count st = None ->
  flying (submit st batch rest) ≡ₚ batch :: flying st.
Proof.
  intros Hfresh. unfold flying, submit. simpl.
  by rewrite map_to_list_insert.
Qed.

Lemma flying_pop st id batch :
  futures st !! id = Some batch ->
  flying st ≡ₚ batch :: flying (pop st id).
Proof.
  intros Hid. unfold flying, pop. simpl.
  by rewrite <- (map_to_list_delete _ _ _ Hid).
Qed.

Lemma full_but_last_snoc {A} B (bs : list (list A)) b :
  Forall (fun x => length x = B) bs -> full_but_last B (bs ++ [b]).
Proof. intros Hall pre b' [<- _]%app_inj_tail. done. Qed.

Lemma ledger_submit st P submitted done batch rest :
  (forall id b, futures st !! id = Some b -> (id < batch_count st)%nat) ->
  R = P ++ lines_iter st ->
  decodes (framed P) (concat submitted) ->
  submitted ≡ₚ done ++ [] ++ flying st ->
  Forall (fun b => b <> [] /\ (length b <= batch_size)%nat) submitted ->
  (Forall (fun b => length b = batch_size) submitted
   \/ framed (lines_iter st) = []) ->
  batches_next batch_size (lines_iter st) = Ok (Some batch, rest) ->
  exists P' submitted',
    R = P' ++ rest
    /\ decodes (framed P') (concat submitted')
    /\ submitted' ≡ₚ done ++ [] ++ flying (submit st batch rest)
    /\ Forall (fun b => b <> [] /\ (length b <= batch_size)%nat) submitted'
    /\ full_but_last batch_size submitted'
    /\ (Forall (fun b => length b = batch_size) submitted'
        \/ framed rest = [])
    /\ (forall id b, futures (submit st batch rest) !! id = Some b ->
          (id < batch_count (submit st batch rest))%nat).
Proof.
  intros Hk HR Hdec Hperm Hall Hdry Hnext.
  assert (Forall (fun b => length b = batch_size) submitted) as Hfull.
  { destruct Hdry as [|Hdry]; [done|].
    apply batches_next_Some_shorter in Hnext. rewrite Hdry in Hnext.
    simpl in Hnext. lia. }
  pose proof (batches_next_Some_full _ _ _ _ Hnext) as Hlast.
  apply batches_next_Some in Hnext as (Q & Hit & HQ & Hne & Hlen).
  exists (P ++ Q), (submitted ++ [batch]). split_and!.
  - by rewrite HR, Hit, app_assoc.
  - rewrite framed_app, concat_app. simpl. rewrite app_nil_r.
    by apply Forall2_app.
  - rewrite flying_submit by by apply submit_fresh.
    rewrite Hperm. simpl. rewrite <- app_assoc. apply Permutation_app_head.
    symmetry. apply Permutation_cons_append.
  - apply Forall_app. split; [done|]. by repeat constructor.
  - by apply full_but_last_snoc.
  - destruct Hlast as [Hlast| ->]; [left|by right].
    apply Forall_app. split; [done|]. by repeat constructor.
  - simpl. intros id b [[<- _]|[_ Hb]]%lookup_insert_Some; [lia|].
    apply Hk in Hb. lia.
Qed.

Lemma ledger_stop st P submitted rest :
  R = P ++ lines_iter st ->
  decodes (framed P) (concat submitted) ->
  batches_next batch_size (lines_iter st) = Ok (None, rest) ->
  exists P', R = P' ++ rest /\ decodes (framed P') (concat submitted)
             /\ framed rest = [].
Proof.
  intros HR Hdec [Hf ->]%batches_next_None; [|done].
  exists (P ++ lines_iter st). rewrite app_nil_r, framed_app, Hf, app_nil_r. done.
Qed.

Lemma ledger_step c c' :
  step max_workers batch_size c c' -> ledger batch_size R hdr c -> ledger batch_size R hdr c'.
Proof.
  destruct 1; simpl; try done.
  - (* fill_submit *)
    intros (P & sub & dn & pp & HR & Hdec & Hperm & Hall & Hfull & Hdry & Hv & He & Hvc & Hec & Hlc
            & Hk & -> & Hsz).
    destruct (ledger_submit _ _ _ _ _ _ Hk HR Hdec Hperm Hall Hdry H0)
      as (P' & sub' & ? & ? & ? & ? & ? & ? & ?).
    exists P', sub', dn, []. split_and!; try done.
    simpl. rewrite map_size_insert_None by by apply submit_fresh. by rewrite Hsz.
  - (* fill_stop *)
    intros (P & sub & dn & pp & HR & Hdec & Hperm & Hall & Hfull & Hdry & Hv & He & Hvc & Hec & Hlc
            & Hk & -> & Hsz).
    destruct (ledger_stop _ _ _ _ HR Hdec H0) as (P' & ? & ? & ?).
    exists P', sub, dn, []. split_and!; try done. by right.
  - (* fill_done *)
    intros (P & sub & dn & pp & HR & Hdec & Hperm & Hall & Hfull & Hdry & Hv & He & Hvc & Hec & Hlc
            & Hk & -> & Hsz).
    exists P, sub, dn, []. split_and!; try done.
    intros Hempty. rewrite Hempty, map_size_empty in Hsz. lia.
  - (* done *)
    intros (P & sub & dn & pp & HR & Hdec & Hperm & Hall & Hfull & Hdry & Hv & He & Hvc & Hec & Hlc
            & Hk & -> & Hdr).
    exists P, sub, dn, []. split_and!; try done. by apply Hdr.
  - (* complete *)
    intros (P & sub & dn & pp & HR & Hdec & Hperm & Hall & Hfull & Hdry & Hv & He & Hvc & Hec & Hlc
            & Hk & -> & Hdr).
    exists P, sub, dn, [batch]. split_and!; try done.
    + rewrite Hperm, (flying_pop _ _ _ H). done.
    + intros id' b [_ Hb]%lookup_delete_Some. by eapply Hk.
    + eauto.
  - (* write *)
    intros (P & sub & dn & pp & HR & Hdec & Hperm & Hall & Hfull & Hdry & Hv & He & Hvc & Hec & Hlc
            & Hk & (b & -> & Hres) & _).
    rewrite process_batch_spec in Hres. injection Hres as <-.
    apply ingest_spec in H as (Hv' & He' & Hvc' & Hec' & Hlc' & Hli & Hf & Hb & Hco).
    simpl in *.
    exists P, sub, (dn ++ [b]), []. rewrite !map_app, !concat_app. simpl.
    rewrite !app_nil_r, !map_app, !length_app.
    rewrite Hv', He', Hvc', Hec', Hlc', Hli, Hb, Hlc, Hv, He, Hvc, Hec.
    unfold accepted_lines, rejected_lines, flying. rewrite Hf.
    split_and!; try done; try lia.
    + rewrite Hperm. unfold flying. by rewrite <- !app_assoc.
    + by rewrite <- app_assoc.
    + by rewrite <- app_assoc.
  - (* submit *)
    intros (P & sub & dn & pp & HR & Hdec & Hperm & Hall & Hfull & Hdry & Hv & He & Hvc & Hec & Hlc
            & Hk & -> & _).
    destruct (ledger_submit _ _ _ _ _ _ Hk HR Hdec Hperm Hall Hdry H)
      as (P' & sub' & ? & ? & ? & ? & ? & ? & ?).
    exists P', sub', dn, []. split_and!; try done.
    simpl. intros Hempty. by apply insert_non_empty in Hempty.
  - (* submit_stop *)
    intros (P & sub & dn & pp & HR & Hdec & Hperm & Hall & Hfull & Hdry & Hv & He & Hvc & Hec & Hlc
            & Hk & -> & _).
    destruct (ledger_stop _ _ _ _ HR Hdec H) as (P' & ? & ? & ?).
    exists P', sub, dn, []. split_and!; try done. by right.
Qed.

Lemma ledger_rtc c c' :
  rtc (step max_workers batch_size) c c' -> ledger batch_size R hdr c -> ledger batch_size R hdr c'.
Proof. induction 1; eauto using ledger_step. Qed.

End Ledger.

(** ** What a finished run leaves in the two streams *)

Lemma concat_Permutation {A} (l k : list (list A)) : l ≡ₚ k -> concat l ≡ₚ concat k.
Proof.
  induction 1 as [|x l k _ IH|x y l|l k m _ IH1 _ IH2]; simpl.
  - done.
  - by rewrite IH.
  - by rewrite !app_assoc, (Permutation_app_comm x y).
  - by rewrite IH1.
Qed.

Lemma decodes_concat_split ss : forall bs,
  decodes bs (concat ss) ->
  exists bss, bs = concat bss /\ Forall2 decodes bss ss.
Proof.
  induction ss as [|s ss IH]; intros bs; simpl.
  - intros ->%Forall2_nil_inv_r. by exists [].
  - intros (b1 & b2 & H1 & H2 & ->)%Forall2_app_inv_r.
    destruct (IH _ H2) as (bss & -> & Hbss).
    exists (b1 :: bss). split; [done|]. by constructor.
Qed.

Lemma decodes_accepted bs ss :
  decodes bs ss ->
  map encode_line (accepted_lines ss) = map terminated (accepted_records bs)
  /\ map encode_line (rejected_lines ss) = map terminated (rejected_records bs).
Proof.
  unfold accepted_lines, rejected_lines.
  induction 1 as [|l s bs ss Hd _ [IH1 IH2]]; [done|].
  assert (accepts_record l = accepts s) as Ha.
  { unfold accepts_record. by rewrite Hd. }
  destruct (accepts s) eqn:Hs.
  - rewrite accepted_cons_True, rejected_cons_True by done.
    rewrite filter_cons_True, filter_cons_False by (by rewrite ?Hs).
    simpl. by rewrite IH1, IH2, (encode_line_decoded _ _ Hd).
  - rewrite accepted_cons_False, rejected_cons_False by done.
    rewrite filter_cons_False, filter_cons_True by (by rewrite ?Hs).
    simpl. by rewrite IH1, IH2, (encode_line_decoded _ _ Hd).
Qed.

Lemma decodes_batches bss sss :
  Forall2 decodes bss sss ->
  map encode_line (concat (map accepted_lines sss))
  = map terminated (concat (map accepted_records bss))
  /\ map encode_line (concat (map rejected_lines sss))
     = map terminated (concat (map rejected_records bss)).
Proof.
  induction 1 as [|bs ss bss sss Hd _ [IH1 IH2]]; [done|]. simpl.
  destruct (decodes_accepted _ _ Hd) as [H1 H2].
  by rewrite !map_app, IH1, IH2, H1, H2.
Qed.

Lemma decodes_length bs ss : decodes bs ss -> length bs = length ss.
Proof. apply Forall2_length. Qed.

Lemma length_map_terminated (l : list bytes) : length (map terminated l) = length l.
Proof. apply length_map. Qed.

(** The state a finished run ends in, in terms of the raw records. *)
Lemma ledger_finished batch_size R hdr st :
  ledger batch_size R hdr (Running Finished st) ->
  exists batches consumed_order : list (list bytes),
    concat batches = framed R
    /\ consumed_order ≡ₚ batches
    /\ Forall (fun b => b <> [] /\ (length b <= batch_size)%nat) batches
    /\ full_but_last batch_size batches
    /\ valid_stream st
       = hdr ++ map terminated (concat (map accepted_records consumed_order))
    /\ error_stream st
       = hdr ++ map terminated (concat (map rejected_records consumed_order))
    /\ valid_count st
       = N.of_nat (length (concat (map accepted_records consumed_order)))
    /\ error_count st
       = N.of_nat (length (concat (map rejected_records consumed_order)))
    /\ line_count st = N.of_nat (length hdr) + valid_count st + error_count st.
Proof.
  intros (P & sub & dn & pp & HR & Hdec & Hperm & Hall & Hfull & Hdry & Hv & He & Hvc & Hec & Hlc
          & Hk & -> & Hempty & Hdrained).
  unfold flying in Hperm. rewrite Hempty, map_to_list_empty in Hperm.
  simpl in Hperm. rewrite app_nil_r in Hperm.
  destruct (decodes_concat_split _ _ Hdec) as (bss & Hbss & Hdecs).
  assert (Forall2 (flip decodes) sub bss) as Hflip by by apply Forall2_flip.
  destruct (Permutation_Forall2 Hperm Hflip) as (dn_raw & Hp & Hdn).
  apply Forall2_flip in Hdn.
  destruct (decodes_batches _ _ Hdn) as [H1 H2].
  exists bss, dn_raw. split_and!.
  - rewrite HR, framed_app, Hdrained, app_nil_r. done.
  - done.
  - clear -Hall Hdecs. induction Hdecs as [|b s bss sub Hd _ IH]; [constructor|].
    apply Forall_cons in Hall as [[Hne Hlen] Hall].
    constructor; [|by apply IH].
    rewrite (decodes_length _ _ Hd). split; [|done].
    intros ->. inversion Hd. by subst.
  - intros pre b Hsplit. rewrite Hsplit in Hdecs.
    apply Forall2_app_inv_l in Hdecs as (pre' & last' & Hpre & Hlast & Hsub).
    apply Forall2_length in Hlast as Hone. destruct last' as [|b' [|??]]; try done.
    specialize (Hfull _ _ Hsub).
    clear -Hpre Hfull. induction Hpre as [|x y pre pre' Hd _ IH]; [constructor|].
    apply Forall_cons in Hfull as [Hy Hfull].
    constructor; [|by apply IH]. by rewrite (decodes_length _ _ Hd).
  - by rewrite Hv, H1.
  - by rewrite He, H2.
  - rewrite Hvc, <- (length_map encode_line), H1, length_map. done.
  - rewrite Hec, <- (length_map encode_line), H2, length_map. done.
  - done.
Qed.

(** ** Runs of the handler of [app_multithread.py] *)

Lemma exec_step_sound W B c c' : exec_step W B c = Some c' -> step W B c c'.
Proof.
  destruct c as [[i| |res| |] st|e]; simpl; try done.
  - destruct (Nat.ltb_spec i (W * 2)) as [Hi|Hi].
    + destruct (batches_next B (lines_iter st)) as [[[batch|] rest]|e] eqn:Hb;
        intros [= <-]; by econstructor.
    + destruct (Nat.eqb_spec i (W * 2)) as [->|]; [|done].
      intros [= <-]. constructor.
  - destruct (map_to_list (futures st)) as [|[id batch] l] eqn:Hl.
    + intros [= <-]. constructor. by apply map_to_list_empty_iff.
    + assert (futures st !! id = Some batch) as Hid.
      { apply elem_of_map_to_list. rewrite Hl. left. }
      destruct (process_batch batch) eqn:Hp; intros [= <-]; by econstructor.
  - destruct (ingest st res) eqn:Hi; intros [= <-]; by econstructor.
  - destruct (batches_next B (lines_iter st)) as [[[batch|] rest]|e] eqn:Hb;
      intros [= <-]; by econstructor.
Qed.

Lemma exec_sound fuel W B : forall c, rtc (step W B) c (exec fuel W B c).
Proof.
  induction fuel as [|fuel IH]; intros c; simpl; [done|].
  destruct (exec_step W B c) as [c'|] eqn:Hc; [|done].
  eapply rtc_l; [by apply exec_step_sound | apply IH].
Qed.

Lemma run_sound fuel W B iter_lines : runs_to W B iter_lines (run fuel W B iter_lines).
Proof.
  unfold runs_to, run. destruct (handle_header iter_lines); [apply exec_sound | done].
Qed.

Lemma handle_header_spec iter_lines st :
  handle_header iter_lines = Ok st ->
  lines_iter st = drop 1 iter_lines
  /\ valid_stream st = map terminated (first_line_header iter_lines)
  /\ error_stream st = map terminated (first_line_header iter_lines)
  /\ futures st = ∅ /\ batch_count st = 0%nat
  /\ line_count st = N.of_nat (length (first_line_header iter_lines))
  /\ valid_count st = 0 /\ error_count st = 0.
Proof.
  unfold handle_header, first_line_header.
  destruct iter_lines as [|l ls]; [by intros [= <-]|]. simpl. rewrite drop_0.
  destruct (nonempty l) eqn:Hl; unfold nonempty in Hl.
  - rewrite Hl. rewrite framed_cons_nonempty by done.
    intros (s & Hd & Hk)%bind_Ok_inv.
    rewrite (decode_encode_line _ _ Hd), bind_Ok in Hk. by injection Hk as <-.
  - rewrite Hl. rewrite framed_cons_empty by done. by intros [= <-].
Qed.

Lemma ledger_init B iter_lines st :
  handle_header iter_lines = Ok st ->
  ledger B (drop 1 iter_lines) (map terminated (first_line_header iter_lines))
    (Running (Filling 0) st).
Proof.
  intros (Hli & Hv & He & Hf & Hb & Hlc & Hvc & Hec)%handle_header_spec.
  exists [], [], [], []. split_and!.
  - by rewrite Hli.
  - apply Forall2_nil_2.
  - unfold flying. by rewrite Hf, map_to_list_empty.
  - constructor.
  - by intros [|??] ?.
  - left. constructor.
  - rewrite Hv. simpl. by rewrite app_nil_r.
  - rewrite He. simpl. by rewrite app_nil_r.
  - by rewrite Hvc.
  - by rewrite Hec.
  - rewrite Hlc, Hvc, Hec, length_map. lia.
  - intros id b. by rewrite Hf, lookup_empty.
  - done.
  - by rewrite Hf, map_size_empty.
Qed.

(** Every finished run, whatever the order in which the workers
    completed: the streams hold the header, then batch by batch in the
    order consumed the accepted (rejected) records of the batch. *)
Lemma multithread_finished W B iter_lines st :
  (0 < W)%nat -> (0 < B)%nat ->
  runs_to W B iter_lines (Running Finished st) ->
  exists batches consumed_order : list (list bytes),
    concat batches = records_after_first_line iter_lines
    /\ consumed_order ≡ₚ batches
    /\ Forall (fun b => b <> [] /\ (length b <= B)%nat) batches
    /\ full_but_last B batches
    /\ valid_stream st
       = map terminated (first_line_header iter_lines
                         ++ concat (map accepted_records consumed_order))
    /\ error_stream st
       = map terminated (first_line_header iter_lines
                         ++ concat (map rejected_records consumed_order))
    /\ valid_count st
       = N.of_nat (length (concat (map accepted_records consumed_order)))
    /\ error_count st
       = N.of_nat (length (concat (map rejected_records consumed_order)))
    /\ line_count st
       = N.of_nat (length (first_line_header iter_lines))
         + valid_count st + error_count st.
Proof.
  intros HW HB. unfold runs_to.
  destruct (handle_header iter_lines) as [st0|e] eqn:Hh; [|done].
  intros Hrun. pose proof (ledger_init B _ _ Hh) as Hinit.
  pose proof (ledger_rtc W B HW HB _ _ _ _ Hrun Hinit) as Hfin.
  apply ledger_finished in Hfin
    as (batches & order & ? & ? & ? & ? & Hv & He & ? & ? & Hlc).
  exists batches, order. rewrite !map_app, Hv, He, Hlc, length_map. done.
Qed.


(** ** The two outputs partition the records *)

Lemma accepted_rejected_partition rs :
  accepted_records rs ++ rejected_records rs ≡ₚ rs.
Proof.
  induction rs as [|l rs IH]; [done|].
  destruct (accepts_record l) eqn:Ha.
  - rewrite accepted_cons_True, rejected_cons_True by done. simpl. by rewrite IH.
  - rewrite accepted_cons_False, rejected_cons_False by done.
    rewrite <- Permutation_middle. by rewrite IH.
Qed.

Lemma accepted_rejected_disjoint rs l :
  l ∈ accepted_records rs -> l ∉ rejected_records rs.
Proof.
  unfold accepted_records, rejected_records.
  intros [Ha _]%list_elem_of_filter [Hr _]%list_elem_of_filter. congruence.
Qed.

Lemma accepted_rejected_length rs :
  (length (accepted_records rs) + length (rejected_records rs) = length rs)%nat.
Proof. by rewrite <- length_app, accepted_rejected_partition. Qed.

Lemma accepted_sublist rs : accepted_records rs `sublist_of` rs.
Proof. apply sublist_filter. Qed.

Lemma rejected_sublist rs : rejected_records rs `sublist_of` rs.
Proof. apply sublist_filter. Qed.

Lemma accepted_concat (bs : list (list bytes)) :
  concat (map accepted_records bs) = accepted_records (concat bs).
Proof.
  unfold accepted_records. induction bs as [|b bs IH]; [done|].
  simpl. by rewrite filter_app, IH.
Qed.

Lemma rejected_concat (bs : list (list bytes)) :
  concat (map rejected_records bs) = rejected_records (concat bs).
Proof.
  unfold rejected_records. induction bs as [|b bs IH]; [done|].
  simpl. by rewrite filter_app, IH.
Qed.

Lemma accepted_Permutation rs rs' :
  rs ≡ₚ rs' -> accepted_records rs ≡ₚ accepted_records rs'.
Proof. unfold accepted_records. by intros ->. Qed.

Lemma rejected_Permutation rs rs' :
  rs ≡ₚ rs' -> rejected_records rs ≡ₚ rejected_records rs'.
Proof. unfold rejected_records. by intros ->. Qed.

(** A stream that starts with a record: both handlers take the same
    header and the same data records. *)
Lemma starts_with_record_framing iter_lines :
  starts_with_record iter_lines ->
  first_line_header iter_lines = header iter_lines
  /\ records_after_first_line iter_lines = data_records iter_lines.
Proof.
  unfold first_line_header, records_after_first_line, header, data_records.
  destruct iter_lines as [|l ls]; [done|]. simpl. intros Hl.
  rewrite !framed_cons_nonempty by done. simpl. by rewrite !drop_0.
Qed.

Lemma header_length iter_lines : (length (header iter_lines) <= 1)%nat.
Proof. unfold header. rewrite length_take. lia. Qed.

(** ** The accepted and rejected lines of a batch *)

Lemma accepted_lines_sublist batch : accepted_lines batch `sublist_of` batch.
Proof. apply sublist_filter. Qed.

Lemma rejected_lines_sublist batch : rejected_lines batch `sublist_of` batch.
Proof. apply sublist_filter. Qed.

Lemma accepted_rejected_lines_partition batch :
  accepted_lines batch ++ rejected_lines batch ≡ₚ batch.
Proof.
  unfold accepted_lines, rejected_lines.
  induction batch as [|l batch IH]; [done|].
  destruct (accepts l) eqn:Ha.
  - rewrite filter_cons_True, filter_cons_False by (by rewrite ?Ha).
    simpl. by rewrite IH.
  - rewrite filter_cons_False, filter_cons_True by (by rewrite ?Ha).
    rewrite <- Permutation_middle. by rewrite IH.
Qed.

Lemma accepted_rejected_lines_disjoint batch l :
  l ∈ accepted_lines batch -> l ∉ rejected_lines batch.
Proof.
  unfold accepted_lines, rejected_lines.
  intros [Ha _]%list_elem_of_filter [Hr _]%list_elem_of_filter. congruence.
Qed.

(** ** Termination and failures of the scheduler *)




Lemma decoded_lines_next_raises it e :
  decoded_lines_next it = Raise e ->
  e = UnicodeDecodeError /\ Exists undecodable (framed it).
Proof.
  induction it as [|l it IH]; simpl; [done|].
  destruct (nonempty l) eqn:Hl; unfold nonempty in Hl; rewrite Hl.
  - rewrite framed_cons_nonempty by done.
    destruct (decode l) as [s|e'] eqn:Hd; [done|]. intros [= <-].
    split; [by eapply decode_raises|]. left. unfold undecodable. by rewrite Hd.
  - rewrite framed_cons_empty by done. apply IH.
Qed.

Lemma islice_raises n : forall it e,
  islice n it = Raise e ->
  e = UnicodeDecodeError /\ Exists undecodable (framed it).
Proof.
  induction n as [|n IH]; intros it e; simpl; [done|].
  destruct (decoded_lines_next it) as [[[s|] rest]|e'] eqn:Hn; simpl.
  - destruct (islice n rest) as [r|e'] eqn:Hi; [done|]. intros [= <-].
    apply IH in Hi as [-> Hex]. split; [done|].
    apply decoded_lines_next_Some in Hn as (P & l & -> & _ & Hl & _).
    rewrite framed_app, framed_cons_nonempty by done.
    apply Exists_app. right. by right.
  - done.
  - intros [= <-]. by apply decoded_lines_next_raises.
Qed.

Lemma batches_next_raises B it e :
  batches_next B it = Raise e ->
  e = UnicodeDecodeError /\ Exists undecodable (framed it).
Proof.
  unfold batches_next. destruct (islice B it) as [r|e'] eqn:Hi.
  - simpl. by destruct r.1.
  - intros [= <-]. by eapply islice_raises.
Qed.

Lemma size_insert_le (m : gmap nat (list str)) k b :
  (size (<[k:=b]> m) <= S (size m))%nat.
Proof. rewrite map_size_insert. destruct (m !! k); simpl; lia. Qed.

(** Every step brings the run nearer to its end. *)
Lemma step_decreases W B c c' :
  step W B c c' -> (measure W c' < measure W c)%nat.
Proof.
  destruct 1; simpl; try lia.
  - pose proof (batches_next_Some_shorter _ _ _ _ H0).
    pose proof (size_insert_le (futures st) (batch_count st) batch). lia.
  - pose proof (batches_next_shorter _ _ _ _ H0). lia.
  - rewrite map_size_delete_Some by eauto.
    assert (size (futures st) <> 0)%nat.
    { intros Hz%map_size_empty_iff. by rewrite Hz in H. }
    lia.
  - apply ingest_spec in H as (_ & _ & _ & _ & _ & -> & -> & _). lia.
  - pose proof (batches_next_Some_shorter _ _ _ _ H).
    pose proof (size_insert_le (futures st) (batch_count st) batch). lia.
  - pose proof (batches_next_shorter _ _ _ _ H). lia.
Qed.

(** A run has at most as many steps as the measure of its start. *)
Lemma nsteps_bounded W B n c c' :
  nsteps (step W B) n c c' -> (n + measure W c' <= measure W c)%nat.
Proof.
  induction 1 as [|n c1 c2 c3 Hs _ IH]; [lia|].
  apply step_decreases in Hs. lia.
Qed.

(** The executable scheduler takes a step wherever a step exists. *)
Lemma exec_step_progress W B c :
  window W c -> ~ terminal c -> exists c', exec_step W B c = Some c'.
Proof.
  destruct c as [[i| |res| |] st|e]; simpl; try done; intros Hw _.
  - destruct Hw as (_ & _ & _ & Hi & _).
    destruct (Nat.ltb_spec i (W * 2)).
    + destruct (batches_next B (lines_iter st)) as [[[?|] ?]|?]; eauto.
    + assert (i = W * 2)%nat as -> by lia. rewrite Nat.eqb_refl. eauto.
  - destruct (map_to_list (futures st)) as [|[id batch] ?]; [eauto|].
    destruct (process_batch batch); eauto.
  - destruct (ingest st res); eauto.
  - destruct (batches_next B (lines_iter st)) as [[[?|] ?]|?]; eauto.
Qed.

(** From every configuration the handler can reach, the executable
    scheduler runs to the end within [measure] steps. *)
Lemma exec_terminal W B : forall fuel c,
  window W c -> (measure W c <= fuel)%nat -> terminal (exec fuel W B c).
Proof.
  induction fuel as [|fuel IH]; intros c Hw Hm; simpl.
  - destruct c as [[i| |res| |] st|e]; simpl in *; try done; lia.
  - destruct (exec_step W B c) as [c'|] eqn:Hc.
    + pose proof (exec_step_sound _ _ _ _ Hc) as Hs.
      apply IH; [by eapply window_step|].
      apply step_decreases in Hs. lia.
    + destruct c as [[i| |res| |] st|e]; try done;
        (destruct (exec_step_progress W B _ Hw) as [c' Hc']; [by intros []|congruence]).
Qed.


Lemma decodes_encodable bs ss : decodes bs ss -> Forall encodable ss.
Proof.
  induction 1 as [|l s bs ss Hd _ IH]; constructor; [|done].
  unfold encodable. by rewrite (decode_encode_line _ _ Hd).
Qed.

Lemma Forall_filter_keeps {A} (P : A -> Prop) (Q : A -> Prop)
    `{forall x, Decision (Q x)} (l : list A) :
  Forall P l -> Forall P (filter Q l).
Proof.
  rewrite !Forall_forall. intros Hall x [_ Hin]%list_elem_of_filter. by apply Hall.
Qed.

Lemma Forall_concat_elem {A} (P : A -> Prop) (ls : list (list A)) l :
  Forall P (concat ls) -> l ∈ ls -> Forall P l.
Proof.
  induction ls as [|k ls IH]; simpl; [by intros _ ?%elem_of_nil|].
  intros [Hk Hls]%Forall_app [->|Hin]%elem_of_cons; [done|]. by apply IH.
Qed.

Lemma write_valid_total ls : forall st,
  Forall encodable ls -> exists st', write_valid st ls = Ok st'.
Proof.
  induction ls as [|l ls IH]; intros st Hall; simpl; [eauto|].
  apply Forall_cons in Hall as [Hl Hall]. unfold encodable in Hl.
  destruct (encode (l ++ [LF])); [|done]. rewrite bind_Ok. by apply IH.
Qed.

Lemma write_error_total ls : forall st,
  Forall encodable ls -> exists st', write_error st ls = Ok st'.
Proof.
  induction ls as [|l ls IH]; intros st Hall; simpl; [eauto|].
  apply Forall_cons in Hall as [Hl Hall]. unfold encodable in Hl.
  destruct (encode (l ++ [LF])); [|done]. rewrite bind_Ok. by apply IH.
Qed.

Lemma ingest_total st batch :
  Forall encodable batch ->
  exists st', ingest st (accepted_lines batch, rejected_lines batch) = Ok st'.
Proof.
  intros Hall. unfold ingest. simpl.
  destruct (write_valid_total (accepted_lines batch) st) as [st1 ->].
  { unfold accepted_lines. by apply Forall_filter_keeps. }
  rewrite bind_Ok. apply write_error_total.
  unfold rejected_lines. by apply Forall_filter_keeps.
Qed.

(** A step into failure: some line of [R] is not valid UTF-8. *)
Lemma ledger_failed W B R hdr c e :
  ledger B R hdr c -> step W B c (Failed e) ->
  e = UnicodeDecodeError /\ Exists undecodable (framed R).
Proof.
  intros Hl Hs.
  inversion Hs as [ | | i st e' Hi Hb | | | | st id batch e' Hid Hpb | | st res e' Hin
                  | | | st e' Hb ]; subst; simpl in Hl;
    destruct Hl as (P & sub & dn & pp & HR & Hdec & Hperm & Hall & Hfull & Hdry & Hv & He & Hvc
                    & Hec & Hlc & Hk & Hpp & Hp).
  - apply batches_next_raises in Hb as [-> Hex]. split; [done|].
    rewrite HR, framed_app. apply Exists_app. by right.
  - by rewrite process_batch_spec in Hpb.
  - destruct Hpp as (b & -> & Hres).
    rewrite process_batch_spec in Hres. injection Hres as <-.
    destruct (ingest_total st b) as [st' Hst'];
      [|unfold accepted_lines, rejected_lines in Hst'; congruence].
    apply decodes_encodable in Hdec.
    assert (b ∈ sub) as Hbs.
    { rewrite Hperm. apply elem_of_app. right. apply elem_of_app. left. left. }
    by eapply Forall_concat_elem.
  - apply batches_next_raises in Hb as [-> Hex]. split; [done|].
    rewrite HR, framed_app. apply Exists_app. by right.
Qed.

Lemma handle_header_raises iter_lines e :
  handle_header iter_lines = Raise e ->
  e = UnicodeDecodeError /\ Exists undecodable (framed iter_lines).
Proof.
  unfold handle_header. destruct iter_lines as [|l ls]; [done|].
  destruct (nonempty l) eqn:Hl; unfold nonempty in Hl; rewrite Hl; [|done].
  rewrite framed_cons_nonempty by done.
  destruct (decode l) as [s|e'] eqn:Hd.
  - rewrite bind_Ok. by rewrite (decode_encode_line _ _ Hd).
  - intros [= <-]. split; [by eapply decode_raises|].
    left. unfold undecodable. by rewrite Hd.
Qed.

Lemma framed_drop_Exists (P : bytes -> Prop) iter_lines :
  Exists P (framed (drop 1 iter_lines)) -> Exists P (framed iter_lines).
Proof.
  destruct iter_lines as [|l ls]; [done|]. simpl. rewrite drop_0. intros H.
  destruct (nonempty l) eqn:Hl.
  - rewrite framed_cons_nonempty by done. by right.
  - by rewrite framed_cons_empty.
Qed.

Lemma runs_to_failed W B iter_lines e :
  (0 < W)%nat -> (0 < B)%nat ->
  runs_to W B iter_lines (Failed e) ->
  e = UnicodeDecodeError /\ Exists undecodable (framed iter_lines).
Proof.
  intros HW HB. unfold runs_to.
  destruct (handle_header iter_lines) as [st0|e0] eqn:Hh.
  - intros Hrun. apply rtc_inv_r in Hrun as [[=]|(c & Hrun & Hs)].
    pose proof (ledger_rtc W B HW HB _ _ _ _ Hrun (ledger_init B _ _ Hh)) as Hl.
    destruct (ledger_failed _ _ _ _ _ _ Hl Hs) as [-> Hex].
    split; [done|]. by apply framed_drop_Exists.
  - intros [= <-]. by apply handle_header_raises.
Qed.

Lemma handle_header_total iter_lines :
  Forall decodable (framed iter_lines) ->
  exists st, handle_header iter_lines = Ok st.
Proof.
  intros Hall.
  destruct (handle_header iter_lines) as [st|e] eqn:Hh; [eauto|].
  apply handle_header_raises in Hh as [_ Hex].
  apply Exists_exists in Hex as (l & Hin & Hl).
  rewrite Forall_forall in Hall. specialize (Hall l Hin).
  unfold decodable, undecodable in *. congruence.
Qed.

Lemma measure_init iter_lines st W :
  handle_header iter_lines = Ok st ->
  measure W (Running (Filling 0) st)
  = (4 * length (records_after_first_line iter_lines) + W * 2 + 6)%nat.
Proof.
  intros (Hli & _ & _ & Hf & _)%handle_header_spec.
  simpl. rewrite Hli, Hf, map_size_empty. unfold records_after_first_line. lia.
Qed.
(** ** Runs of the scheduler: helper facts *)

Lemma exec_nsteps fuel W B : forall c,
  nsteps (step W B) (exec_count fuel W B c) c (exec fuel W B c).
Proof.
  induction fuel as [|fuel IH]; intros c; simpl; [constructor|].
  destruct (exec_step W B c) as [c'|] eqn:Hc; [|constructor].
  econstructor; [by apply exec_step_sound|apply IH].
Qed.

(** The records fit in one batch: there is one batch, or none. *)
Lemma one_batch {A} B (batches order : list (list A)) :
  Forall (fun b => b <> [] /\ (length b <= B)%nat) batches ->
  full_but_last B batches ->
  (length (concat batches) <= B)%nat ->
  order ≡ₚ batches ->
  order = batches /\ (batches = [] \/ batches = [concat batches]).
Proof.
  intros Hall Hfull Hlen Hperm.
  destruct batches as [|b1 [|b2 rest]].
  - apply Permutation_nil_r in Hperm. subst. by split; [|left].
  - apply Permutation_singleton_r in Hperm. subst. split; [done|right].
    simpl. by rewrite app_nil_r.
  - exfalso.
    destruct (exists_last (l:=b2 :: rest)) as (pre & b & Hsplit); [done|].
    rewrite Hsplit in *.
    specialize (Hfull (b1 :: pre) b eq_refl).
    apply Forall_cons in Hfull as [H1 _].
    apply Forall_cons in Hall as [_ Hall].
    apply Forall_app in Hall as [_ Hall].
    apply Forall_cons in Hall as [[Hne _] _].
    simpl in Hlen. rewrite concat_app, !length_app in Hlen. simpl in Hlen.
    destruct b; [done|]. simpl in Hlen. lia.
Qed.

Lemma runs_to_window W B iter_lines c :
  runs_to W B iter_lines c -> window W c.
Proof.
  unfold runs_to. destruct (handle_header iter_lines) as [st0|e] eqn:Hh.
  - intros Hrun. eapply window_rtc; [done|]. by eapply window_init.
  - by intros ->.
Qed.

Lemma example_run : runs_to 1 2 example_stream (Running Finished example_finished).
Proof.
  pose proof (run_sound 40 1 2 example_stream) as Hrun.
  assert (run 40 1 2 example_stream = Running Finished example_finished) as <-
    by by vm_compute.
  exact Hrun.
Qed.

Lemma decodes_decodable bs ss : decodes bs ss -> Forall decodable bs.
Proof.
  induction 1 as [|b s bs ss Hd _ IH]; constructor; [|done].
  unfold decodable. by rewrite Hd.
Qed.

Lemma ledger_finished_decodable batch_size R hdr st :
  ledger batch_size R hdr (Running Finished st) -> Forall decodable (framed R).
Proof.
  intros (P & sub & dn & pp & HR & Hdec & _ & _ & _ & _ & _ & _ & _ & _ & _
          & _ & _ & _ & Hdrained).
  rewrite HR, framed_app, Hdrained, app_nil_r. by eapply decodes_decodable.
Qed.

Lemma framed_first_line iter_lines :
  framed iter_lines
  = first_line_header iter_lines ++ records_after_first_line iter_lines.
Proof.
  unfold first_line_header, records_after_first_line.
  by rewrite <- framed_app, take_drop.
Qed.

Lemma handle_header_decodable iter_lines st :
  handle_header iter_lines = Ok st ->
  Forall decodable (first_line_header iter_lines).
Proof.
  destruct iter_lines as [|l rest]; [constructor|].
  unfold handle_header, first_line_header, framed, nonempty. simpl.
  rewrite filter_cons.
  destruct (negb (length l =? 0)%nat) eqn:Hl.
  - rewrite decide_True by done.
    intros (s & Hs & _)%bind_Ok_inv. repeat constructor.
    unfold decodable. by rewrite Hs.
  - rewrite decide_False by (by intros ?). constructor.
Qed.

(** A finished run has decoded every non-empty line. *)
Lemma runs_to_finished_decodable W B iter_lines st :
  (0 < W)%nat -> (0 < B)%nat ->
  runs_to W B iter_lines (Running Finished st) ->
  Forall decodable (framed iter_lines).
Proof.
  intros HW HB. unfold runs_to.
  destruct (handle_header iter_lines) as [st0|e] eqn:Hh; [|done].
  intros Hrun. pose proof (ledger_init B _ _ Hh) as Hinit.
  pose proof (ledger_rtc W B HW HB _ _ _ _ Hrun Hinit) as Hfin.
  rewrite framed_first_line. apply Forall_app. split.
  - by eapply handle_header_decodable.
  - by eapply ledger_finished_decodable.
Qed.

Lemma decodable_not_undecodable ls :
  Forall decodable ls -> ~ Exists undecodable ls.
Proof.
  intros Hall (l & Hin & Hun)%Exists_exists.
  rewrite Forall_forall in Hall. specialize (Hall l Hin).
  unfold decodable, undecodable in *. congruence.
Qed.

(** When every non-empty line is valid UTF-8, the run of the
    executable scheduler finishes. *)
Lemma run_finishes W B iter_lines :
  (0 < W)%nat -> (0 < B)%nat ->
  Forall decodable (framed iter_lines) ->
  exists fuel st, run fuel W B iter_lines = Running Finished st.
Proof.
  intros HW HB Hall.
  destruct (handle_header_total _ Hall) as [st0 Hh].
  exists (measure W (Running (Filling 0) st0)).
  pose proof (run_sound (measure W (Running (Filling 0) st0)) W B iter_lines) as Hrun.
  unfold run in *. rewrite Hh in *.
  pose proof (exec_terminal W B (measure W (Running (Filling 0) st0))
                (Running (Filling 0) st0)
                (window_init W iter_lines st0 Hh) (le_n _)) as Hterm.
  destruct (exec _ W B (Running (Filling 0) st0)) as [[]|e] eqn:Hexec;
    try done; [by eexists|].
  exfalso. apply (decodable_not_undecodable _ Hall).
  by eapply (runs_to_failed W B iter_lines e).
Qed.


Lemma Forall_decodable ls :
  Forall decodable ls <-> forallb (fun l => is_ok (decode l)) ls = true.
Proof.
  rewrite forallb_forall, Forall_forall. unfold decodable.
  split; intros H l Hl; apply H; by apply list_elem_of_In.
Qed.

(* ===================================================================== *)
(** * Part III. The claims *)
(* ===================================================================== *)

(** ** The record validator *)

(** C2: for every record (a line the reader parses into a row),
    [validate_csv_row] returns the verdict of the first rule, in the
    order field count, id, label length, date format, date validity,
    that the row fails, and accepts when it fails none; the validator
    of [app_multithread.py] returns the same verdict with the line.
    In particular a row whose id passes, whose label is longer than 20
    characters and whose day does not match the pattern is rejected as
    label-too-long. *)
Theorem C2_rules_in_order line row :
  csv_reader_next line = Ok row ->
  exists v,
    App.validate_csv_row line = Ok v
    /\ Multithread.validate_csv_row line = Ok (with_line line v)
    /\ reason v = first_failure rules row
    /\ (App.valid v = true <-> first_failure rules row = None)
    /\ (forall no name day,
          row = [no; name; day] -> id_ok no = true ->
          20 < len name -> re_match date_pattern day = None ->
          App.valid v = false /\ reason v = Some label_too_long).
Proof.
  intros Hrow. destruct (validate_csv_row_rules _ _ Hrow) as (v & Hv & Hr & Hvalid).
  exists v. split_and!; try done.
  - by rewrite multithread_validate_csv_row, Hv.
  - intros no name day -> Hid Hlen Hfmt.
    assert (first_failure rules [no; name; day] = Some label_too_long) as Hff.
    { simpl. rewrite Hid. unfold label_ok.
      apply N.ltb_lt in Hlen. by rewrite Hlen. }
    split; [|by rewrite Hr].
    destruct (App.valid v); [|done].
    destruct Hvalid as [Hvalid _]. by rewrite Hvalid in Hff.
Qed.

Lemma C2_rules_in_order_witness :
  exists v,
    App.validate_csv_row (lit "1,aaaaaaaaaaaaaaaaaaaaa,2024-02-29") = Ok v
    /\ App.valid v = false /\ reason v = Some label_too_long.
Proof.
  destruct (C2_rules_in_order (lit "1,aaaaaaaaaaaaaaaaaaaaa,2024-02-29")
              [lit "1"; lit "aaaaaaaaaaaaaaaaaaaaa"; lit "2024-02-29"] eq_refl)
    as (v & Hv & _ & _ & _ & Hlabel).
  exists v. split; [exact Hv|].
  apply (Hlabel _ _ _ eq_refl); reflexivity.
Defined.

(** C3, as worded, fails: the id [1_000] is no plain base-10 integer,
    yet the record is accepted. *)
Lemma C3_counterexample :
  csv_reader_next (lit "1_000,ok,2024/01/01")
    = Ok [lit "1_000"; lit "ok"; lit "2024/01/01"]
  /\ id_rule_as_worded (lit "1_000") = false
  /\ App.validate_csv_row (lit "1_000,ok,2024/01/01") = Ok App.accepted.
Proof. by vm_compute. Qed.

(** C3 (amended): for every record with exactly three fields, the id
    passes exactly when it is not empty after trimming white space and
    is a literal that [int] reads: on the buffer [int] parses (white
    space turned to spaces and decimal digits to ASCII digits), white
    space, an optional sign, one to 4300 digits with single
    underscores allowed between digits, white space.  Any other id
    yields a rejected verdict with the reason id-null-or-nonint. *)
Theorem C3_id_rule line no name day :
  csv_reader_next line = Ok [no; name; day] ->
  exists v,
    App.validate_csv_row line = Ok v
    /\ (strip no <> [] /\ int_literal (TransformDecimalAndSpaceToASCII no)
        -> reason v <> Some id_null_or_nonint)
    /\ (~ (strip no <> [] /\ int_literal (TransformDecimalAndSpaceToASCII no))
        -> App.valid v = false /\ reason v = Some id_null_or_nonint).
Proof.
  intros Hrow. destruct (validate_csv_row_rules _ _ Hrow) as (v & Hv & Hr & Hvalid).
  exists v. split; [done|]. rewrite <- id_ok_iff, Hr, first_failure_id. split.
  - intros ->. done.
  - intros Hid. apply not_true_is_false in Hid. split; [|done].
    destruct (App.valid v); [|done].
    destruct Hvalid as [Hvalid _].
    pose proof (proj2 (first_failure_id no name day) Hid) as Hff.
    by rewrite Hvalid in Hff.
Qed.

Lemma C3_id_rule_witness :
  exists v,
    App.validate_csv_row (lit "1_000,ok,2024/01/01") = Ok v
    /\ reason v <> Some id_null_or_nonint.
Proof.
  destruct (C3_id_rule (lit "1_000,ok,2024/01/01")
              (lit "1_000") (lit "ok") (lit "2024/01/01") eq_refl)
    as (v & Hv & Hpass & _).
  exists v. split; [exact Hv|]. apply Hpass. split; [by vm_compute|].
  exists [], [], (lit "1_000"), [].
  split; [reflexivity|]. split; [constructor|]. split; [by left|].
  split; [|split; [by vm_compute | constructor]].
  apply run_underscore; [reflexivity|].
  apply run_more; [reflexivity|]. apply run_more; [reflexivity|].
  apply run_digit. reflexivity.
Defined.

(** C5, as worded, fails: the line [a<CR>b] cannot be parsed, and its
    verdict carries the text of the reader's exception, which is none
    of the five reasons (so not malformed-row). *)
Lemma C5_counterexample :
  csv_reader_next (lit "a" ++ [CR] ++ lit "b") = Raise (CsvError newline_msg)
  /\ App.validate_csv_row (lit "a" ++ [CR] ++ lit "b")
     = Ok (App.rejected newline_msg)
  /\ reason (App.rejected newline_msg) = None
  /\ reason (App.rejected newline_msg) <> Some malformed_row.
Proof. by vm_compute. Qed.

(** C5 (amended): for every input line, [validate_csv_row] returns a
    verdict and propagates no exception.  A line the reader parses
    gets a verdict that is accepted or carries one of the five
    reasons.  A line the reader cannot parse gets a rejected verdict
    whose error is the text of the reader's exception (a field past
    the size limit, or a new-line character in an unquoted field);
    that text is outside the five reasons. *)
Theorem C5_total line :
  exists v,
    App.validate_csv_row line = Ok v
    /\ (forall row, csv_reader_next line = Ok row ->
          (App.valid v = true /\ App.error v = None)
          \/ (App.valid v = false /\ exists r, reason v = Some r))
    /\ (forall e, csv_reader_next line = Raise e ->
          App.valid v = false /\ App.error v = Some (str_exn e)
          /\ csv_error e /\ reason v = None).
Proof.
  destruct (csv_reader_next line) as [row|e] eqn:Hrow.
  - destruct (validate_csv_row_rules _ _ Hrow) as (v & Hv & Hr & Hvalid).
    exists v. split; [done|]. split; [|done]. intros ? [= <-].
    destruct (first_failure rules row) as [r|] eqn:Hff.
    + right. split; [|eauto]. destruct (App.valid v); [|done].
      destruct Hvalid as [Hvalid _]. by specialize (Hvalid eq_refl).
    + left. pose proof (validate_accepted _ _ Hrow Hff) as Hacc.
      rewrite Hv in Hacc. by injection Hacc as ->.
  - exists (App.rejected (str_exn e)).
    split; [by apply validate_csv_row_unparsed|]. split; [done|].
    intros ? [= <-]. split_and!; try done.
    + by eapply csv_reader_next_raises.
    + by destruct (csv_reader_next_raises _ _ Hrow) as [-> | ->].
Qed.

(** C8: a record with id 007 and label ok is accepted when its day is
    2024/02/29, and rejected as date-invalid when its day is
    2023/02/29. *)
Theorem C8_leap_day line day :
  csv_reader_next line = Ok [lit "007"; lit "ok"; day] ->
  (day = lit "2024/02/29" -> App.validate_csv_row line = Ok App.accepted)
  /\ (day = lit "2023/02/29" ->
      App.validate_csv_row line = Ok (App.rejected "created_date is invalid date")
      /\ reason (App.rejected "created_date is invalid date") = Some date_invalid).
Proof.
  intros Hrow. unfold App.validate_csv_row, App.validate_body.
  rewrite Hrow, bind_Ok. split; intros ->; by vm_compute.
Qed.

Lemma C8_leap_day_witness :
  App.validate_csv_row (lit "007,ok,2024/02/29") = Ok App.accepted.
Proof.
  exact (proj1 (C8_leap_day (lit "007,ok,2024/02/29") (lit "2024/02/29") eq_refl)
           eq_refl).
Defined.

(** C9: a record whose id and day pass their rules is accepted when
    its label is the empty string, and for every label of at most 20
    characters: no lower bound and no non-blank test applies to the
    label. *)
Theorem C9_empty_label line no name day :
  csv_reader_next line = Ok [no; name; day] ->
  id_ok no = true -> date_format_ok day = true -> date_valid day = true ->
  (name = [] \/ len name <= 20) ->
  App.validate_csv_row line = Ok App.accepted.
Proof.
  intros Hrow Hid Hfmt Hvalid Hname. apply (validate_accepted _ _ Hrow).
  simpl. rewrite Hid, Hfmt, Hvalid. unfold label_ok.
  replace (20 <? len name) with false; [done|].
  symmetry. apply N.ltb_ge. destruct Hname as [-> | H]; [by vm_compute | done].
Qed.

Lemma C9_empty_label_witness :
  App.validate_csv_row (lit "1,,2024/01/01") = Ok App.accepted.
Proof.
  apply (C9_empty_label (lit "1,,2024/01/01") (lit "1") [] (lit "2024/01/01"));
    [reflexivity | reflexivity | reflexivity | reflexivity | by left].
Defined.

Import Sched Multithread.

(* ===================================================================== *)
(** * Part IV. Further properties of the handlers *)
(* ===================================================================== *)

(** ** [app.py]: the handler *)

(** X1: when the handler of [app.py] returns, the object it uploads as
    valid is the first non-empty line followed by the accepted data
    records, and the object it uploads as error is the first non-empty
    line followed by the rejected ones; each record is there with its
    own bytes and one line feed, in the order of the input. *)
Theorem app_handler_outputs iter_lines r :
  App.lambda_handler iter_lines = Ok r ->
  App.valid_output r
  = concat (map terminated (header iter_lines
                            ++ accepted_records (data_records iter_lines)))
  /\ App.error_output r
     = concat (map terminated (header iter_lines
                               ++ rejected_records (data_records iter_lines)))
  /\ accepted_records (data_records iter_lines) `sublist_of` data_records iter_lines
  /\ rejected_records (data_records iter_lines) `sublist_of` data_records iter_lines.
Proof.
  unfold App.lambda_handler.
  intros (st & (Hv & He & _)%loop_init & [= <-])%bind_Ok_inv. simpl.
  rewrite Hv, He. split_and!; [done|done|apply accepted_sublist|apply rejected_sublist].
Qed.

Lemma app_handler_outputs_witness :
  exists r,
    App.lambda_handler example_stream = Ok r
    /\ App.valid_output r
       = blit "no,name,created_date" ++ ["010"%byte]
         ++ blit "1,a,2024/01/01" ++ ["010"%byte]
    /\ App.error_output r
       = blit "no,name,created_date" ++ ["010"%byte]
         ++ blit "x,a,2024/01/01" ++ ["010"%byte]
         ++ blit "2,b,2024/02/30" ++ ["010"%byte].
Proof.
  destruct (App.lambda_handler example_stream) as [r|e] eqn:Hr;
    [|by vm_compute in Hr].
  exists r. split; [done|].
  destruct (app_handler_outputs example_stream r Hr) as (Hv & He & _).
  rewrite Hv, He. split; by vm_compute.
Defined.

(** X2: the counters of [app.py]: [total_lines] counts every non-empty
    line, the header with them; [valid_lines] and [error_lines] count
    the accepted and the rejected data records, and add up to the
    non-empty lines after the first. *)
Theorem app_handler_counters iter_lines r :
  App.lambda_handler iter_lines = Ok r ->
  App.total_lines r = N.of_nat (length (framed iter_lines))
  /\ App.valid_lines r
     = N.of_nat (length (accepted_records (data_records iter_lines)))
  /\ App.error_lines r
     = N.of_nat (length (rejected_records (data_records iter_lines)))
  /\ App.valid_lines r + App.error_lines r
     = N.of_nat (length (data_records iter_lines))
  /\ App.total_lines r
     = N.of_nat (length (header iter_lines)) + App.valid_lines r + App.error_lines r.
Proof.
  unfold App.lambda_handler.
  intros (st & (_ & _ & Hlc & Hvc & Hec)%loop_init & [= <-])%bind_Ok_inv. simpl.
  rewrite Hlc, Hvc, Hec.
  pose proof (accepted_rejected_length (data_records iter_lines)) as Hlen.
  assert (length (header iter_lines) + length (data_records iter_lines)
          = length (framed iter_lines))%nat as Hsplit.
  { unfold header, data_records. by rewrite <- length_app, take_drop. }
  split_and!; try done; lia.
Qed.

Lemma app_handler_counters_witness :
  exists r,
    App.lambda_handler example_stream = Ok r
    /\ App.total_lines r = 4 /\ App.valid_lines r = 1 /\ App.error_lines r = 2.
Proof.
  destruct (App.lambda_handler example_stream) as [r|e] eqn:Hr;
    [|by vm_compute in Hr].
  exists r. split; [done|].
  destruct (app_handler_counters example_stream r Hr) as (Ht & Hv & He & _).
  rewrite Ht, Hv, He. split_and!; by vm_compute.
Defined.

(** X3: the handler of [app.py] returns exactly when every non-empty
    line is valid UTF-8; otherwise it raises, and what it raises is
    the decoding error.  Validation never makes it raise. *)
Theorem app_handler_returns_iff iter_lines :
  ((exists r, App.lambda_handler iter_lines = Ok r)
   <-> Forall decodable (framed iter_lines))
  /\ (forall e, App.lambda_handler iter_lines = Raise e ->
        e = UnicodeDecodeError /\ Exists undecodable (framed iter_lines)).
Proof.
  unfold App.lambda_handler. split; [split|].
  - intros [r (st & Hloop & _)%bind_Ok_inv]. by eapply loop_Ok_decodes.
  - intros Hall. destruct (loop_total iter_lines App.init Hall) as [st ->].
    rewrite bind_Ok. eauto.
  - intros e. destruct (App.loop App.init iter_lines) as [st|e'] eqn:Hloop; [done|].
    intros [= <-]. by eapply loop_raises.
Qed.

(** ** The two validators *)

(** X4: on every line, parsed or not, the validator of
    [app_multithread.py] returns the verdict of the validator of
    [app.py], with the line itself under the key [line]. *)
Theorem validators_agree line :
  exists v,
    App.validate_csv_row line = Ok v
    /\ Multithread.validate_csv_row line
       = Ok {| valid := App.valid v; error := App.error v; line := line |}.
Proof.
  destruct (validate_csv_row_total line) as [v Hv]. exists v. split; [done|].
  by rewrite multithread_validate_csv_row, Hv.
Qed.

(** ** [app_multithread.py]: the worker and the batcher *)

(** X5: [process_batch] never raises; the two lists it returns are
    the lines of the batch the validator accepts and those it rejects,
    each in the order of the batch, and every line of the batch is in
    one of them. *)
Theorem process_batch_partition batch :
  exists valid_lines error_lines,
    process_batch batch = Ok (valid_lines, error_lines)
    /\ valid_lines `sublist_of` batch
    /\ error_lines `sublist_of` batch
    /\ valid_lines ++ error_lines ≡ₚ batch
    /\ (length valid_lines + length error_lines = length batch)%nat
    /\ (forall l, l ∈ valid_lines
          <-> l ∈ batch /\ exists v, validate_csv_row l = Ok v /\ valid v = true)
    /\ (forall l, l ∈ error_lines
          <-> l ∈ batch /\ exists v, validate_csv_row l = Ok v /\ valid v = false).
Proof.
  exists (accepted_lines batch), (rejected_lines batch).
  pose proof (accepted_rejected_lines_partition batch) as Hperm.
  split_and!.
  - apply process_batch_spec.
  - apply accepted_lines_sublist.
  - apply rejected_lines_sublist.
  - done.
  - rewrite <- length_app. by apply Permutation_length.
  - intros l. unfold accepted_lines. rewrite list_elem_of_filter.
    destruct (multithread_validate_accepts l) as (v & Hv & Hvalid & _).
    split.
    + intros [Hacc Hin]. split; [done|]. exists v. by rewrite Hvalid.
    + intros [Hin (v' & Hv' & Hvalid')]. split; [|done]. congruence.
  - intros l. unfold rejected_lines. rewrite list_elem_of_filter.
    destruct (multithread_validate_accepts l) as (v & Hv & Hvalid & _).
    split.
    + intros [Hacc Hin]. split; [done|]. exists v. by rewrite Hvalid.
    + intros [Hin (v' & Hv' & Hvalid')]. split; [|done]. congruence.
Qed.

(** X6: one [next] on the batch generator.  It yields the next
    non-empty lines of the stream, decoded, in order: at most
    [batch_size] of them, at least one, and fewer than [batch_size]
    only when the stream is used up; the empty lines between them are
    dropped.  It stops when no non-empty line is left (or at once, the
    stream untouched, for a batch size of 0), and it raises only the
    decoding error of a line that is not valid UTF-8. *)
Theorem batch_generator_next batch_size lines_iter :
  match batches_next batch_size lines_iter with
  | Ok (Some batch, rest) =>
      exists taken, lines_iter = taken ++ rest
                    /\ decodes (framed taken) batch
                    /\ batch <> [] /\ (length batch <= batch_size)%nat
                    /\ ((length batch < batch_size)%nat -> rest = [])
  | Ok (None, rest) =>
      (framed lines_iter = [] /\ rest = [])
      \/ (batch_size = 0%nat /\ rest = lines_iter)
  | Raise e => e = UnicodeDecodeError /\ Exists undecodable (framed lines_iter)
  end.
Proof.
  destruct (batches_next batch_size lines_iter) as [[[batch|] rest]|e] eqn:Hnext.
  - unfold batches_next in Hnext.
    apply bind_Ok_inv in Hnext
      as ([b r] & (taken & -> & Hdec & Hlen & Hend)%islice_spec & Hk).
    simpl in Hk. destruct b as [|s b]; [done|]. injection Hk as <- <-.
    by exists taken.
  - destruct batch_size as [|n].
    + right. split; [done|]. by injection Hnext as <-.
    + left. eapply batches_next_None; [|done]. lia.
  - by apply batches_next_raises in Hnext.
Qed.

(** ** [app_multithread.py]: the scheduler *)

(** X7: at every point of every run of the handler, whatever the
    order in which the workers complete, there are at most
    [2 * max_workers] batches in flight (submitted and not yet
    written), and the number of batches submitted so far is the number
    of results consumed plus those in flight. *)
Theorem scheduler_window max_workers batch_size iter_lines c :
  runs_to max_workers batch_size iter_lines c ->
  (in_flight c <= max_workers * 2)%nat
  /\ match c with
     | Running p st =>
         (batch_count st <= max_workers * 2 + consumed st)%nat
         /\ batch_count st = (size (futures st) + consumed st)%nat
         /\ (forall id b, futures st !! id = Some b -> (id < batch_count st)%nat)
     | Failed _ => True
     end.
Proof.
  intros Hw%runs_to_window.
  destruct (window_in_flight _ _ Hw) as [Hin Hcount].
  split; [done|]. destruct c as [p st|e]; [|done].
  destruct Hw as (Hids & Hbc & _). done.
Qed.

Lemma scheduler_window_witness :
  (in_flight (run 3 1 1 example_stream) <= 1 * 2)%nat
  /\ in_flight (run 3 1 1 example_stream) = 2%nat.
Proof.
  split; [|by vm_compute].
  apply (scheduler_window 1 1 example_stream), run_sound.
Defined.

(** X8: every run of the scheduler ends, and none gets stuck: from
    the header block a run takes at most
    [4 * records + 2 * max_workers + 6] steps, and a configuration it
    reaches either is final (the handler has left the pool, or an
    exception has left the handler) or has a next step. *)
Theorem scheduler_terminates max_workers batch_size iter_lines st0 :
  handle_header iter_lines = Ok st0 ->
  (forall n c,
      nsteps (step max_workers batch_size) n (Running (Filling 0) st0) c ->
      (n <= 4 * length (records_after_first_line iter_lines)
            + max_workers * 2 + 6)%nat)
  /\ (forall c,
        rtc (step max_workers batch_size) (Running (Filling 0) st0) c ->
        terminal c \/ exists c', step max_workers batch_size c c').
Proof.
  intros Hh. split.
  - intros n c Hn%nsteps_bounded. rewrite (measure_init _ _ _ Hh) in Hn. lia.
  - intros c Hrun.
    assert (window max_workers c) as Hw.
    { eapply window_rtc; [done|]. by eapply window_init. }
    assert (terminal c \/ ~ terminal c) as [|Hnt]
      by (destruct c as [[]|]; simpl; tauto).
    { by left. }
    right.
    destruct (exec_step_progress max_workers batch_size c Hw Hnt) as [c' Hc'].
    exists c'. by apply exec_step_sound.
Qed.

Lemma scheduler_terminates_witness :
  exists st0 n c,
    handle_header example_stream = Ok st0
    /\ nsteps (step 1 2) n (Running (Filling 0) st0) c
    /\ n = 10%nat
    /\ (n <= 4 * 3 + 1 * 2 + 6)%nat.
Proof.
  eexists _, (exec_count 40 1 2 _), _.
  split; [by vm_compute|]. split; [apply exec_nsteps|]. split; [by vm_compute|].
  eapply (scheduler_terminates 1 2 example_stream); [by vm_compute|].
  apply exec_nsteps.
Defined.

(** ** [app_multithread.py]: what a run returns *)

(** X9: what [lambda_handler] of [app_multithread.py] returns,
    whatever the order in which the workers complete.  The records
    (the non-empty lines after the first line) are cut, in order, into
    batches of [BATCH_SIZE], the last one possibly shorter; each
    output is the first line, when it is not empty, followed batch by
    batch, in the order the results were consumed, by the accepted
    (rejected) records of the batch in their order, every line with
    its own bytes and one line feed. *)
Theorem multithread_handler_outputs iter_lines r :
  lambda_handler_returns iter_lines r ->
  exists batches consumed_order : list (list bytes),
    concat batches = records_after_first_line iter_lines
    /\ Forall (fun b => b <> [] /\ (length b <= BATCH_SIZE)%nat) batches
    /\ full_but_last BATCH_SIZE batches
    /\ consumed_order ≡ₚ batches
    /\ valid_output r
       = concat (map terminated
                   (first_line_header iter_lines
                    ++ concat (map accepted_records consumed_order)))
    /\ error_output r
       = concat (map terminated
                   (first_line_header iter_lines
                    ++ concat (map rejected_records consumed_order)))
    /\ valid_lines r
       = N.of_nat (length (concat (map accepted_records consumed_order)))
    /\ error_lines r
       = N.of_nat (length (concat (map rejected_records consumed_order)))
    /\ total_lines r
       = N.of_nat (length (first_line_header iter_lines))
         + valid_lines r + error_lines r.
Proof.
  intros (st & Hrun & ->).
  assert (0 < MAX_WORKERS)%nat as HW by (unfold MAX_WORKERS; lia).
  assert (0 < BATCH_SIZE)%nat as HB by (unfold BATCH_SIZE; lia).
  destruct (multithread_finished _ _ _ _ HW HB Hrun)
    as (batches & order & Hcat & Hperm & Hall & Hfull & Hv & He & Hvc & Hec & Hlc).
  exists batches, order. unfold response. simpl.
  rewrite Hv, He. split_and!; done.
Qed.

Lemma multithread_handler_outputs_witness :
  exists r,
    lambda_handler_returns example_stream r
    /\ valid_lines r = 1 /\ error_lines r = 2 /\ total_lines r = 4.
Proof.
  assert (lambda_handler_returns example_stream
            (response (match run 40 MAX_WORKERS BATCH_SIZE example_stream with
                       | Running _ st => st
                       | Failed _ => example_finished
                       end))) as Hret.
  { eexists. split; [|reflexivity].
    pose proof (run_sound 40 MAX_WORKERS BATCH_SIZE example_stream) as Hrun.
    assert (run 40 MAX_WORKERS BATCH_SIZE example_stream
            = Running Finished
                (match run 40 MAX_WORKERS BATCH_SIZE example_stream with
                 | Running _ st => st
                 | Failed _ => example_finished
                 end)) as <- by by vm_compute.
    exact Hrun. }
  eexists. split; [exact Hret|].
  destruct (multithread_handler_outputs _ _ Hret) as (_ & _ & _).
  by vm_compute.
Defined.

(** X10: conservation in [app_multithread.py].  When the stream does
    not start with an empty line, every finished run, for any number
    of workers, any batch size and any completion order, has written
    the header to both outputs and every data record to exactly one:
    the accepted output holds the accepted records and the rejected
    output the rejected ones, each once, up to the order of the
    batches; the counters say how many, and [line_count] counts the
    header with them. *)
Theorem multithread_conservation max_workers batch_size iter_lines st :
  (0 < max_workers)%nat -> (0 < batch_size)%nat ->
  starts_with_record iter_lines ->
  runs_to max_workers batch_size iter_lines (Running Finished st) ->
  valid_count st + error_count st = N.of_nat (length (data_records iter_lines))
  /\ line_count st = N.of_nat (length (framed iter_lines))
  /\ exists A E,
       valid_stream st = map terminated (header iter_lines ++ A)
       /\ error_stream st = map terminated (header iter_lines ++ E)
       /\ valid_count st = N.of_nat (length A)
       /\ error_count st = N.of_nat (length E)
       /\ A ≡ₚ accepted_records (data_records iter_lines)
       /\ E ≡ₚ rejected_records (data_records iter_lines)
       /\ A ++ E ≡ₚ data_records iter_lines
       /\ (forall l, l ∈ A -> l ∉ E).
Proof.
  intros HW HB [Hh Hd]%starts_with_record_framing Hrun.
  destruct (multithread_finished _ _ _ _ HW HB Hrun)
    as (batches & order & Hcat & Hperm & _ & _ & Hv & He & Hvc & Hec & Hlc).
  rewrite Hh in *. rewrite Hd in Hcat.
  assert (concat (map accepted_records order)
          ≡ₚ accepted_records (data_records iter_lines)) as HA.
  { rewrite accepted_concat, <- Hcat.
    by apply accepted_Permutation, concat_Permutation. }
  assert (concat (map rejected_records order)
          ≡ₚ rejected_records (data_records iter_lines)) as HE.
  { rewrite rejected_concat, <- Hcat.
    by apply rejected_Permutation, concat_Permutation. }
  assert (length (header iter_lines) + length (data_records iter_lines)
          = length (framed iter_lines))%nat as Hlen.
  { unfold header, data_records. by rewrite <- length_app, take_drop. }
  pose proof (accepted_rejected_length (data_records iter_lines)) as Hsum.
  apply Permutation_length in HA as HAl. apply Permutation_length in HE as HEl.
  split_and!.
  - rewrite Hvc, Hec. lia.
  - rewrite Hlc, Hvc, Hec. lia.
  - exists (concat (map accepted_records order)),
           (concat (map rejected_records order)).
    split_and!; try done.
    + rewrite HA, HE. apply accepted_rejected_partition.
    + intros l. rewrite HA, HE. apply accepted_rejected_disjoint.
Qed.

Lemma multithread_conservation_witness :
  valid_count example_finished + error_count example_finished = 3
  /\ line_count example_finished = 4.
Proof.
  destruct (multithread_conservation 1 2 example_stream example_finished)
    as (Hsum & Hlc & _); [lia|lia|by vm_compute|apply example_run|].
  split; [exact Hsum|exact Hlc].
Defined.

(** X11: the stream starts with an empty line.  [app_multithread.py]
    then writes no header: every non-empty line of the stream, the
    intended header with them, is validated as a data record, written
    to one of the two outputs and counted. *)
Theorem multithread_blank_first_line max_workers batch_size rest st :
  (0 < max_workers)%nat -> (0 < batch_size)%nat ->
  runs_to max_workers batch_size ([] :: rest) (Running Finished st) ->
  valid_count st + error_count st = N.of_nat (length (framed rest))
  /\ line_count st = N.of_nat (length (framed rest))
  /\ exists A E,
       valid_stream st = map terminated A
       /\ error_stream st = map terminated E
       /\ A ≡ₚ accepted_records (framed rest)
       /\ E ≡ₚ rejected_records (framed rest)
       /\ (forall h, header rest = [h] -> h ∈ A \/ h ∈ E).
Proof.
  intros HW HB Hrun.
  destruct (multithread_finished _ _ _ _ HW HB Hrun)
    as (batches & order & Hcat & Hperm & _ & _ & Hv & He & Hvc & Hec & Hlc).
  change (first_line_header ([] :: rest)) with (@nil bytes) in *.
  change (records_after_first_line ([] :: rest)) with (framed rest) in *.
  simpl in Hv, He, Hlc.
  assert (concat (map accepted_records order)
          ≡ₚ accepted_records (framed rest)) as HA.
  { rewrite accepted_concat, <- Hcat.
    by apply accepted_Permutation, concat_Permutation. }
  assert (concat (map rejected_records order)
          ≡ₚ rejected_records (framed rest)) as HE.
  { rewrite rejected_concat, <- Hcat.
    by apply rejected_Permutation, concat_Permutation. }
  pose proof (accepted_rejected_length (framed rest)) as Hsum.
  apply Permutation_length in HA as HAl. apply Permutation_length in HE as HEl.
  split_and!.
  - rewrite Hvc, Hec. lia.
  - rewrite Hlc, Hvc, Hec. lia.
  - exists (concat (map accepted_records order)),
           (concat (map rejected_records order)).
    split_and!; try done.
    intros h Hh. rewrite HA, HE, <- elem_of_app.
    rewrite (accepted_rejected_partition (framed rest)).
    unfold header in Hh. destruct (framed rest) as [|h' fr]; [done|].
    simpl in Hh. rewrite take_0 in Hh. injection Hh as ->. left.
Qed.

Lemma multithread_blank_first_line_witness :
  exists st,
    runs_to 1 2 ([] :: example_stream) (Running Finished st)
    /\ line_count st = 4 /\ valid_count st = 1 /\ error_count st = 3.
Proof.
  pose proof (run_sound 40 1 2 ([] :: example_stream)) as Hrun.
  set (st := match run 40 1 2 ([] :: example_stream) with
             | Running _ st => st
             | Failed _ => example_finished
             end).
  assert (run 40 1 2 ([] :: example_stream) = Running Finished st) as Heq
    by by vm_compute.
  rewrite Heq in Hrun.
  exists st. split; [exact Hrun|].
  destruct (multithread_blank_first_line 1 2 example_stream st) as (_ & _ & _);
    [lia|lia|exact Hrun|].
  split_and!; by vm_compute.
Defined.

(** X12: the two handlers on a stream that does not start with an
    empty line.  A finished run of [app_multithread.py], for any
    number of workers, batch size and completion order, has the
    counters of [app.py] and has written the same lines to each
    output, in an order that may differ from one batch to another;
    when the data records fit in one batch the outputs are the same
    byte for byte. *)
Theorem handlers_agree max_workers batch_size iter_lines st ast :
  (0 < max_workers)%nat -> (0 < batch_size)%nat ->
  starts_with_record iter_lines ->
  runs_to max_workers batch_size iter_lines (Running Finished st) ->
  App.loop App.init iter_lines = Ok ast ->
  line_count st = App.line_count ast
  /\ valid_count st = App.valid_count ast
  /\ error_count st = App.error_count ast
  /\ valid_stream st ≡ₚ App.valid_stream ast
  /\ error_stream st ≡ₚ App.error_stream ast
  /\ ((length (data_records iter_lines) <= batch_size)%nat ->
      valid_stream st = App.valid_stream ast
      /\ error_stream st = App.error_stream ast).
Proof.
  intros HW HB [Hh Hd]%starts_with_record_framing Hrun
         (Hav & Hae & Halc & Havc & Haec)%loop_init.
  destruct (multithread_finished _ _ _ _ HW HB Hrun)
    as (batches & order & Hcat & Hperm & Hall & Hfull & Hv & He & Hvc & Hec & Hlc).
  rewrite Hh in *. rewrite Hd in Hcat.
  assert (concat (map accepted_records order)
          ≡ₚ accepted_records (data_records iter_lines)) as HA.
  { rewrite accepted_concat, <- Hcat.
    by apply accepted_Permutation, concat_Permutation. }
  assert (concat (map rejected_records order)
          ≡ₚ rejected_records (data_records iter_lines)) as HE.
  { rewrite rejected_concat, <- Hcat.
    by apply rejected_Permutation, concat_Permutation. }
  assert (length (header iter_lines) + length (data_records iter_lines)
          = length (framed iter_lines))%nat as Hlen.
  { unfold header, data_records. by rewrite <- length_app, take_drop. }
  pose proof (accepted_rejected_length (data_records iter_lines)) as Hsum.
  apply Permutation_length in HA as HAl. apply Permutation_length in HE as HEl.
  split_and!.
  - rewrite Hlc, Hvc, Hec, Halc. lia.
  - rewrite Hvc, Havc. lia.
  - rewrite Hec, Haec. lia.
  - rewrite Hv, Hav. by rewrite HA.
  - rewrite He, Hae. by rewrite HE.
  - intros Hfit. rewrite <- Hcat in Hfit.
    destruct (one_batch _ _ _ Hall Hfull Hfit Hperm) as [-> _].
    rewrite Hv, He, Hav, Hae, accepted_concat, rejected_concat, Hcat. done.
Qed.

Lemma handlers_agree_witness :
  exists ast,
    App.loop App.init example_stream = Ok ast
    /\ line_count example_finished = App.line_count ast
    /\ valid_stream example_finished ≡ₚ App.valid_stream ast
    /\ error_stream example_finished ≡ₚ App.error_stream ast
    /\ error_stream example_finished <> App.error_stream ast.
Proof.
  destruct (App.loop App.init example_stream) as [ast|e] eqn:Hast;
    [|by vm_compute in Hast].
  exists ast. split; [done|].
  destruct (handlers_agree 1 2 example_stream example_finished ast
              ltac:(lia) ltac:(lia) ltac:(by vm_compute) example_run Hast)
    as (Hlc & _ & _ & Hv & He & _).
  split_and!; [exact Hlc|exact Hv|exact He|].
  vm_compute in Hast. injection Hast as <-. by vm_compute.
Defined.

(** X13: when [app_multithread.py] returns and when it raises, for
    any number of workers, batch size and completion order.  A run
    can finish exactly when every non-empty line of the stream is
    valid UTF-8; an exception that leaves the handler is the decoding
    error of such a line: validation and writing never raise. *)
Theorem multithread_returns_iff max_workers batch_size iter_lines :
  (0 < max_workers)%nat -> (0 < batch_size)%nat ->
  ((exists st, runs_to max_workers batch_size iter_lines (Running Finished st))
   <-> Forall decodable (framed iter_lines))
  /\ (forall e, runs_to max_workers batch_size iter_lines (Failed e) ->
        e = UnicodeDecodeError /\ Exists undecodable (framed iter_lines)).
Proof.
  intros HW HB. split; [split|].
  - intros [st Hrun]. exact (runs_to_finished_decodable _ _ _ _ HW HB Hrun).
  - intros Hall.
    destruct (run_finishes max_workers batch_size iter_lines HW HB Hall)
      as (fuel & st & Hrun).
    exists st. rewrite <- Hrun. apply run_sound.
  - intros e. by apply runs_to_failed.
Qed.

Lemma multithread_returns_iff_witness :
  (exists st, runs_to 1 2 example_stream (Running Finished st))
  /\ ~ (exists st, runs_to 1 2 [blit "no"; ["255"%byte]] (Running Finished st)).
Proof.
  destruct (multithread_returns_iff 1 2 example_stream) as [[_ Hfin] _]; [lia|lia|].
  destruct (multithread_returns_iff 1 2 [blit "no"; ["255"%byte]])
    as [[Hdec _] _]; [lia|lia|].
  split.
  - apply Hfin, Forall_decodable. by vm_compute.
  - intros Hst. apply Hdec, Forall_decodable in Hst. by vm_compute in Hst.
Defined.

(** ** Lines in and out *)

(** X14: a line that decodes is written back as it came.  Both
    handlers write [(line.decode('utf-8') + '\n').encode('utf-8')]:
    for a line that is valid UTF-8 this never fails and gives the
    bytes of the line followed by one line feed; nothing is
    normalised, so two different lines are never written alike. *)
Theorem line_round_trip l s :
  decode l = Ok s ->
  encode (s ++ [LF]) = Ok (terminated l)
  /\ encode s = Ok l
  /\ (forall l', decode l' = Ok s -> l' = l).
Proof.
  intros Hd. split_and!.
  - by apply decode_encode_line.
  - by apply decode_encode.
  - intros l' Hd'. apply decode_encode in Hd, Hd'. congruence.
Qed.

Lemma line_round_trip_witness :
  encode (lit "1,a,2024/01/01" ++ [LF]) = Ok (terminated (blit "1,a,2024/01/01")).
Proof.
  by destruct (line_round_trip (blit "1,a,2024/01/01") (lit "1,a,2024/01/01")
                 ltac:(by vm_compute)) as [H _].
Defined.

(** ** The validator: which records it accepts *)


(** X16: the records [validate_csv_row] accepts.  A line is
    accepted exactly when the reader parses it into three fields, the
    first is not blank and is a literal of [int], the second has at
    most 20 characters, and the third is a day of the calendar written
    [dddd/dd/dd]; a line the reader cannot parse is never accepted. *)
Theorem accepted_iff line :
  accepts line = true
  <-> exists no name day f,
        csv_reader_next line = Ok [no; name; day]
        /\ strip no <> []
        /\ int_literal (TransformDecimalAndSpaceToASCII no)
        /\ len name <= 20
        /\ date_fields day = Some f /\ calendar_date f = true.
Proof.
  unfold accepts.
  destruct (csv_reader_next line) as [row|e] eqn:Hrow.
  - destruct (validate_csv_row_rules line row Hrow) as (v & -> & _ & Hvalid).
    rewrite Hvalid, first_failure_None. split.
    + intros (no & name & day & -> & [Hstrip Hint]%id_ok_iff & Hname & Hfmt & Hval).
      destruct (date_rules_fields day Hfmt Hval) as [f Hf].
      exists no, name, day, f. split_and!; try done.
      * unfold label_ok in Hname. apply negb_true_iff, N.ltb_ge in Hname. done.
      * destruct (date_fields_strptime day f Hf) as [<- _]. done.
    + intros (no & name & day & f & [= ->] & Hstrip & Hint & Hname & Hf & Hcal).
      exists no, name, day. split_and!; try done.
      * by apply id_ok_iff.
      * unfold label_ok. by apply negb_true_iff, N.ltb_ge.
      * by eapply date_fields_format.
      * destruct (date_fields_strptime day f Hf) as [Hok _].
        unfold date_valid. by rewrite Hok.
  - rewrite (validate_csv_row_unparsed line e Hrow). simpl.
    split; [done|]. by intros (? & ? & ? & ? & ? & _).
Qed.

(** X17: the reader on a line without quotes.  A non-empty line
    that holds no double quote, line feed or carriage return and is
    not longer than the field limit is parsed into the fields between
    its commas; nothing is trimmed and an empty field stays a field. *)
Theorem csv_reader_plain line :
  line <> [] -> Forall plain line -> len line <= field_limit ->
  csv_reader_next line = Ok (split_commas line).
Proof.
  intros Hne Hplain Hlen. destruct line as [|c s]; [done|]. clear Hne.
  set (r0 := set_state START_FIELD parse_reset).
  assert (process_chars parse_reset (c :: s) = process_chars r0 (c :: s)) as Hstart.
  { pose proof Hplain as Hc. apply Forall_cons in Hc as [Hc _].
    destruct (plain_tests c Hc) as (Hq & Hlf & Hcr).
    cbn [process_chars]. f_equal.
    unfold parse_process_char at 1. cbn [state parse_reset is_newline].
    by rewrite Hlf, Hcr. }
  destruct (process_plain (c :: s) r0 Hplain) as (r' & Hr' & Hst' & Hfields);
    [by left|done|].
  unfold csv_reader_next. rewrite Hstart, Hr', bind_Ok.
  assert (parse_process_char r' EOL = Ok (set_state START_RECORD (parse_save_field r')))
    as -> by (unfold parse_process_char; by destruct Hst' as [-> | ->]).
  rewrite bind_Ok. cbn [state set_state].
  rewrite decide_True by done. cbn [fields set_state parse_save_field].
  rewrite Hfields. cbn [fields field r0 set_state parse_reset app].
  pose proof (split_commas_nonempty (c :: s)).
  by destruct (split_commas (c :: s)).
Qed.

Lemma csv_reader_plain_witness :
  csv_reader_next (lit "1, a,,2024/01/01")
  = Ok [lit "1"; lit " a"; []; lit "2024/01/01"].
Proof.
  apply (csv_reader_plain (lit "1, a,,2024/01/01")); [done| |by vm_compute].
  let l := eval vm_compute in (lit "1, a,,2024/01/01") in
  change (lit "1, a,,2024/01/01") with l.
  repeat (apply Forall_cons; split; [by repeat split|]). constructor.
Defined.
